(** * BetBet betting market service: pool-betting model and its lifecycle

    A shallow embedding of [backend/services/betting_market/main.py]
    (with the table definitions of [backend/shared/models.py] and the
    session configuration of [backend/shared/database.py]).

    Conventions of the embedding.

    - A [Decimal] is an exact rational ([Q]); the context precision of
      Python's decimal module, its special values (NaN, infinities) and
      the column scales of the store are not modelled.  Numeric
      comparison of Decimals is [Qeq] / [Qlt].
    - A Python [float] is an IEEE 754 binary64 number, [spec_float] with
      [prec = 53] and [emax = 1024]; conversions and operations round to
      nearest, ties to even, as CPython does.
    - A table is a finite map from primary key to row.  The store accepts
      every write that respects the primary key; foreign keys and column
      widths are left to the storage engine.
    - An endpoint is a function from the committed database state to a
      response or an [HTTPException], and the next committed state.  Work
      done by a session before [db.commit()] is visible to the queries of
      that session (the session is created with autoflush left on) and is
      dropped when the endpoint raises before committing (the session
      dependency rolls back on an exception).  Messages broadcast to
      websocket clients are not part of the state.
    - The registry of websocket connections, the websocket endpoint, the
      dependencies of [backend/shared/clerk_auth.py] that tell who the
      caller is, and the route table are modelled beside the endpoints,
      each on its own state. *)

From Stdlib Require Import ZArith QArith Qround Lia.
From Stdlib Require Import Floats.SpecFloat.
From Stdlib Require Import Sorting.Sorted.
From stdpp Require Import gmap strings list fin_maps pretty sorting.

Local Open Scope Z_scope.

(** ** Python floats *)

Module PyFloat.

Definition prec : Z := 53.
Definition emax : Z := 1024.
Definition float : Type := spec_float.

(** The binary64 number nearest to [n / d], with sign [s]. *)
Definition div_round (s : bool) (n d : positive) : float :=
  let '(mz, ez, lz) := SFdiv_core_binary prec emax (Zpos n) 0 (Zpos d) 0 in
  binary_round_aux prec emax s mz ez lz.

(** [float(x)] for a Decimal [x], and a float literal such as [0.95]:
    the binary64 number nearest to the value, which is read off the
    fraction in lowest terms. *)
Definition float_of_Q (q : Q) : float :=
  let r := Qred q in
  match Qnum r with
  | Z0 => S754_zero false
  | Zpos n => div_round false n (Qden r)
  | Zneg n => div_round true n (Qden r)
  end.

(** An [int] operand of a float operation. *)
Definition float_of_Z (z : Z) : float := float_of_Q (inject_Z z).

Definition fdiv : float -> float -> float := SFdiv prec emax.
Definition fadd : float -> float -> float := SFadd prec emax.
Definition flt : float -> float -> bool := SFltb.
Definition feq : float -> float -> bool := SFeqb.

(** [min(a, b)] and [max(a, b)]: the first argument is kept unless the
    second is strictly smaller (larger). *)
Definition py_min (a b : float) : float := if flt b a then b else a.
Definition py_max (a b : float) : float := if flt a b then b else a.

(** The exact value of a finite float. *)
Definition Q_of_float (x : float) : option Q :=
  match x with
  | S754_zero _ => Some 0%Q
  | S754_finite s m e =>
      let z := if s then Zneg m else Zpos m in
      Some (match e with
            | Z0 => inject_Z z
            | Zpos p => inject_Z (z * Z.pow_pos 2 p)
            | Zneg p => z # (Pos.pow 2 p)
            end)
  | S754_infinity _ | S754_nan => None
  end.

Definition round_half_even (q : Q) : Z :=
  let f := Qfloor q in
  match Qcompare (q - inject_Z f) (1 # 2) with
  | Lt => f
  | Gt => f + 1
  | Eq => if Z.even f then f else f + 1
  end.

(** [Decimal(str(round(x, ndigits)))].  [round] picks the multiple
    [k / 10^ndigits] nearest to the exact value of [x] (ties to even) and
    returns the float nearest to it; [str] prints the shortest digits that
    read back as that float, which are the digits of [k / 10^ndigits] as
    long as [k] has at most 15 digits.  Outside that range, and for
    infinities and NaN, no value is given. *)
Definition Decimal_str_round (x : float) (ndigits : positive) : option Q :=
  match Q_of_float x with
  | Some v =>
      let k := round_half_even (v * inject_Z (Zpos (10 ^ ndigits))) in
      if (Z.abs k <? 10 ^ 15)%Z then Some (k # (10 ^ ndigits)) else None
  | None => None
  end.

Definition is_nan (x : float) : bool :=
  match x with S754_nan => true | _ => false end.

End PyFloat.
Import PyFloat.

(** ** Exceptions and results *)

Inductive exn : Type :=
  | HTTPException (status_code : Z) (detail : detail)
  | ValueError
  | KeyError (key : string)
  | InvalidOperation
  | IntegrityError
  | MultipleResultsFound
  | DataError
  | ConnectionError
with detail : Type :=
  | Detail (text : string)
  | FailedWith (prefix : string) (cause : exn).

Inductive result (A : Type) : Type :=
  | Return (a : A)
  | Raise (e : exn).
Arguments Return {A} a.
Arguments Raise {A} e.

#[global] Instance result_ret : MRet result := @Return.
#[global] Instance result_bind : MBind result := fun A B f r =>
  match r with
  | Return a => f a
  | Raise e => Raise e
  end.

(** ** Tables (shared/models.py) *)

Definition UUID : Type := positive.
Bind Scope positive_scope with UUID.
Definition datetime : Type := Z.
Abbreviation Decimal := Q.

Record Market : Type := {
  title : string;
  description : string;
  category : string;
  market_type : string;
  creator_clerk_id : string;
  creator_profile_id : UUID;
  creator_fee_percent : Decimal;
  m_status : string;
  resolution_source : option string;
  oracle_type : string;
  opens_at : datetime;
  closes_at : datetime;
  resolved_at : option datetime;
  resolution_value : option string;
  total_volume : Decimal;
  participant_count : Z;
  m_created_at : datetime
}.

Record MarketOutcome : Type := {
  o_market_id : UUID;
  outcome_text : string;
  outcome_value : string;
  current_odds : Decimal;
  total_backed : Decimal;
  is_winner : option bool
}.

Record MarketPosition : Type := {
  p_market_id : UUID;
  p_outcome_id : UUID;
  clerk_user_id : string;
  user_profile_id : UUID;
  position_type : string;
  stake : Decimal;
  odds : Decimal;
  potential_payout : Decimal;
  p_status : string;
  p_created_at : datetime;
  settled_at : option datetime
}.

(** The committed state of the relational store.  [user_profiles] is
    keyed by [clerk_user_id] (a unique column) and holds the profile id. *)
Record State : Type := {
  markets : gmap UUID Market;
  market_outcomes : gmap UUID MarketOutcome;
  market_positions : gmap UUID MarketPosition;
  user_profiles : gmap string UUID
}.

Definition set_markets (v : gmap UUID Market) (db : State) : State :=
  {| markets := v; market_outcomes := market_outcomes db;
     market_positions := market_positions db; user_profiles := user_profiles db |}.

Definition set_market_outcomes (v : gmap UUID MarketOutcome) (db : State) : State :=
  {| markets := markets db; market_outcomes := v;
     market_positions := market_positions db; user_profiles := user_profiles db |}.

Definition set_market_positions (v : gmap UUID MarketPosition) (db : State) : State :=
  {| markets := markets db; market_outcomes := market_outcomes db;
     market_positions := v; user_profiles := user_profiles db |}.

Definition set_current_odds (v : Decimal) (o : MarketOutcome) : MarketOutcome :=
  {| o_market_id := o_market_id o; outcome_text := outcome_text o;
     outcome_value := outcome_value o; current_odds := v;
     total_backed := total_backed o; is_winner := is_winner o |}.

Definition set_total_backed (v : Decimal) (o : MarketOutcome) : MarketOutcome :=
  {| o_market_id := o_market_id o; outcome_text := outcome_text o;
     outcome_value := outcome_value o; current_odds := current_odds o;
     total_backed := v; is_winner := is_winner o |}.

Definition set_is_winner (v : bool) (o : MarketOutcome) : MarketOutcome :=
  {| o_market_id := o_market_id o; outcome_text := outcome_text o;
     outcome_value := outcome_value o; current_odds := current_odds o;
     total_backed := total_backed o; is_winner := Some v |}.

(** [market.total_volume += stake] followed by the conditional
    [market.participant_count += 1]. *)
Definition set_volume_participants (vol : Decimal) (count : Z) (m : Market) : Market :=
  {| title := title m; description := description m; category := category m;
     market_type := market_type m; creator_clerk_id := creator_clerk_id m;
     creator_profile_id := creator_profile_id m;
     creator_fee_percent := creator_fee_percent m; m_status := m_status m;
     resolution_source := resolution_source m; oracle_type := oracle_type m;
     opens_at := opens_at m; closes_at := closes_at m;
     resolved_at := resolved_at m; resolution_value := resolution_value m;
     total_volume := vol; participant_count := count;
     m_created_at := m_created_at m |}.

(** [market.status = 'resolved'], [market.resolved_at = datetime.utcnow()],
    [market.resolution_value = resolution_value]. *)
Definition set_resolved (now : datetime) (value : option string) (m : Market) : Market :=
  {| title := title m; description := description m; category := category m;
     market_type := market_type m; creator_clerk_id := creator_clerk_id m;
     creator_profile_id := creator_profile_id m;
     creator_fee_percent := creator_fee_percent m; m_status := "resolved";
     resolution_source := resolution_source m; oracle_type := oracle_type m;
     opens_at := opens_at m; closes_at := closes_at m;
     resolved_at := Some now; resolution_value := value;
     total_volume := total_volume m; participant_count := participant_count m;
     m_created_at := m_created_at m |}.

(** [position.status = 'settled'], [position.settled_at = datetime.utcnow()]. *)
Definition set_settled (now : datetime) (p : MarketPosition) : MarketPosition :=
  {| p_market_id := p_market_id p; p_outcome_id := p_outcome_id p;
     clerk_user_id := clerk_user_id p; user_profile_id := user_profile_id p;
     position_type := position_type p; stake := stake p; odds := odds p;
     potential_payout := potential_payout p; p_status := "settled";
     p_created_at := p_created_at p; settled_at := Some now |}.

(** ** Request data and the environment of a call *)

(** A string handed to [uuid.UUID]. *)
Inductive uuid_str : Type :=
  | UUIDText (u : UUID)
  | NotAUUID.

Definition uuid_UUID (s : uuid_str) : result UUID :=
  match s with
  | UUIDText u => Return u
  | NotAUUID => Raise ValueError
  end.

(** A JSON value handed to [Decimal(str(.))]. *)
Inductive decimal_input : Type :=
  | DecimalText (q : Q)
  | NotADecimal.

Definition Decimal_str (x : decimal_input) : result Decimal :=
  match x with
  | DecimalText q => Return q
  | NotADecimal => Raise InvalidOperation
  end.

(** [d[key]] on a request dictionary whose entry may be absent. *)
Definition getitem {A : Type} (key : string) (entry : option A) : result A :=
  match entry with
  | Some a => Return a
  | None => Raise (KeyError key)
  end.

Record PositionData : Type := {
  pd_outcome_id : option uuid_str;
  pd_stake : option decimal_input;
  pd_odds : option decimal_input;
  pd_position_type : option string
}.

(** [resolution_data.get("winning_outcome_id")] is [None] when the entry
    is absent, null or the empty string: all are falsy. *)
Record ResolutionData : Type := {
  rd_winning_outcome_id : option uuid_str;
  rd_resolution_value : option string
}.

Record MarketCreate : Type := {
  mc_title : string;
  mc_description : string;
  mc_category : string;
  mc_market_type : string;
  mc_outcomes : list string;
  mc_closes_at : datetime;
  mc_resolution_source : option string
}.

(** What a call draws from outside: the [n]-th identifier [uuid.uuid4()]
    hands out, the clock, and whether the cache write goes through. *)
Record Env : Type := {
  uuid4 : nat -> UUID;
  utcnow : datetime;
  redis_ok : bool
}.

(** ** Queries and session writes *)

Definition scalar_one_or_none {A : Type} (rows : list A) : result (option A) :=
  match rows with
  | [] => Return None
  | [row] => Return (Some row)
  | _ :: _ :: _ => Raise MultipleResultsFound
  end.

(** [db.add(row)] for a row whose primary key is [id]. *)
Definition add_row {A : Type} (id : UUID) (row : A) (table : gmap UUID A)
  : result (gmap UUID A) :=
  match table !! id with
  | Some _ => Raise IntegrityError
  | None => Return (<[id := row]> table)
  end.

(** Apply a fallible update to every row of a table. *)
Definition map_mapM {A : Type} (f : A -> result A) (table : gmap UUID A)
  : result (gmap UUID A) :=
  map_fold (fun id row acc => acc ← acc; row' ← f row; Return (<[id := row']> acc))
           (Return ∅) table.

(** [user_has_positions_in_market]: counts the rows the session sees. *)
Definition user_has_positions_in_market (user_id : string) (market_id : UUID)
    (db : State) : bool :=
  bool_decide (0 < size (filter
     (fun kp : UUID * MarketPosition =>
        clerk_user_id kp.2 = user_id /\ p_market_id kp.2 = market_id)
     (market_positions db)))%nat.

(** ** Odds engine: [update_market_odds] *)

Definition implied_probability (backed : Decimal) : float :=
  py_min (float_of_Q 0.95) (fdiv (float_of_Q backed) (float_of_Z 100)).

Definition new_odds (backed : Decimal) : float :=
  fdiv (float_of_Z 1) (py_max (float_of_Q 0.05) (implied_probability backed)).

(** The body of the loop over the outcomes of the market. *)
Definition recompute_odds (outcome : MarketOutcome) : result MarketOutcome :=
  if Qlt_le_dec 0 (total_backed outcome) then
    match Decimal_str_round (new_odds (total_backed outcome)) 2 with
    | Some d => Return (set_current_odds d outcome)
    | None => Raise DataError
    end
  else Return outcome.

(** [update_market_odds]: the loop, then [db.commit()]; an exception is
    printed and swallowed. *)
Definition update_market_odds (market_id : UUID) (db : State) : State :=
  match map_mapM (fun outcome =>
                    if decide (o_market_id outcome = market_id)
                    then recompute_odds outcome else Return outcome)
                 (market_outcomes db) with
  | Return outcomes => set_market_outcomes outcomes db
  | Raise _ => db
  end.

(** ** Trading: [place_position] *)

Record PositionPlaced : Type := {
  pp_id : UUID;
  pp_status : string;
  pp_potential_payout : float
}.

(** The body of the [try] block.  The result state is the one committed
    by [db.commit()] and then by [update_market_odds]; every [Raise]
    happens before the commit.  The row handed to [db.add] is written at
    the next flush of the session, and the session flushes before it runs
    a query: the count behind [user_has_positions_in_market] is taken on
    a table that already holds the new row. *)
Definition place_position_try (market_id : uuid_str) (position_data : PositionData)
    (current_user : string) (env : Env) (db : State) : result (PositionPlaced * State) :=
  market_uuid ← uuid_UUID market_id;
  outcome_id ← (s ← getitem "outcome_id" (pd_outcome_id position_data); uuid_UUID s);
  market ← match markets db !! market_uuid with
           | Some market =>
               if decide (m_status market = "open") then Return market
               else Raise (HTTPException 400 (Detail "Market not available for trading"))
           | None => Raise (HTTPException 400 (Detail "Market not available for trading"))
           end;
  profile_id ← match user_profiles db !! current_user with
               | Some id => Return id
               | None => Raise (HTTPException 404 (Detail "User profile not found"))
               end;
  stake ← (x ← getitem "stake" (pd_stake position_data); Decimal_str x);
  odds ← (x ← getitem "odds" (pd_odds position_data); Decimal_str x);
  position_type ← getitem "position_type" (pd_position_type position_data);
  if Qle_bool stake 0 then
    Raise (HTTPException 400 (Detail "Stake must be positive"))
  else
    let potential_payout :=
      if decide (position_type = "back") then (stake * odds)%Q
      else (stake * (odds - 1))%Q in
    let position :=
      {| p_market_id := market_uuid; p_outcome_id := outcome_id;
         clerk_user_id := current_user; user_profile_id := profile_id;
         position_type := position_type; stake := stake; odds := odds;
         potential_payout := potential_payout; p_status := "open";
         p_created_at := utcnow env; settled_at := None |} in
    let position_id := uuid4 env 0 in
    positions ← add_row position_id position (market_positions db);
    let db := set_market_positions positions db in
    let volume := (total_volume market + stake)%Q in
    let count :=
      if bool_decide (participant_count market = 0)
         || negb (user_has_positions_in_market current_user market_uuid db)
      then participant_count market + 1
      else participant_count market in
    let db := set_markets
                (<[market_uuid := set_volume_participants volume count market]>
                   (markets db)) db in
    let db := set_market_outcomes
                (alter (fun o => set_total_backed (total_backed o + stake)%Q o)
                       outcome_id (market_outcomes db)) db in
    let db := update_market_odds market_uuid db in
    Return ({| pp_id := position_id; pp_status := "success";
               pp_potential_payout := float_of_Q potential_payout |}, db).

Definition place_position (market_id : uuid_str) (position_data : PositionData)
    (current_user : string) (env : Env) (db : State) : result PositionPlaced * State :=
  match place_position_try market_id position_data current_user env db with
  | Return (response, db') => (Return response, db')
  | Raise ValueError =>
      (Raise (HTTPException 400 (Detail "Invalid ID format")), db)
  | Raise e =>
      (Raise (HTTPException 500 (FailedWith "Failed to place position: " e)), db)
  end.

(** ** Resolution and settlement: [resolve_market], [process_market_payouts] *)

Definition winning_outcomes (market_id : UUID) (db : State)
  : list (UUID * MarketOutcome) :=
  map_to_list (filter
    (fun ko : UUID * MarketOutcome =>
       o_market_id ko.2 = market_id /\ is_winner ko.2 = Some true)
    (market_outcomes db)).

Definition is_winning_position (market_id winner_id : UUID) (p : MarketPosition) : Prop :=
  p_market_id p = market_id /\ p_outcome_id p = winner_id /\
  position_type p = "back" /\ p_status p = "open".

#[global] Instance is_winning_position_dec market_id winner_id p :
  Decision (is_winning_position market_id winner_id p).
Proof. unfold is_winning_position. apply _. Defined.

(** [process_market_payouts]: [scalar_one_or_none] raises when several
    outcomes of the market are flagged; the exception is printed and
    swallowed before any position is touched. *)
Definition process_market_payouts (market_id : UUID) (env : Env) (db : State) : State :=
  match scalar_one_or_none (winning_outcomes market_id db) with
  | Return None => db
  | Return (Some (winner_id, _)) =>
      set_market_positions
        ((fun p => if decide (is_winning_position market_id winner_id p)
                   then set_settled (utcnow env) p else p)
           <$> market_positions db) db
  | Raise _ => db
  end.

Record Resolved : Type := {
  rs_status : string;
  rs_resolution_value : option string
}.

(** The body of the [try] block, with the payouts processed after the
    commit.  Every [Raise] happens before the commit. *)
Definition resolve_market_try (market_id : uuid_str) (resolution_data : ResolutionData)
    (current_user : string) (env : Env) (db : State) : result (Resolved * State) :=
  market_uuid ← uuid_UUID market_id;
  market ← match markets db !! market_uuid with
           | Some market => Return market
           | None => Raise (HTTPException 404 (Detail "Market not found"))
           end;
  if negb (bool_decide (creator_clerk_id market = current_user)) then
    Raise (HTTPException 403 (Detail "Only market creator can resolve"))
  else if negb (bool_decide (m_status market = "closed")) then
    Raise (HTTPException 400 (Detail "Market must be closed to resolve"))
  else
    let winning_outcome_id := rd_winning_outcome_id resolution_data in
    let resolution_value := rd_resolution_value resolution_data in
    let db := set_markets
                (<[market_uuid := set_resolved (utcnow env) resolution_value market]>
                   (markets db)) db in
    db ← match winning_outcome_id with
         | Some s =>
             let cleared :=
               (fun o => if decide (o_market_id o = market_uuid)
                         then set_is_winner false o else o)
                 <$> market_outcomes db in
             winner ← uuid_UUID s;
             Return (set_market_outcomes (alter (set_is_winner true) winner cleared) db)
         | None => Return db
         end;
    let db := process_market_payouts market_uuid env db in
    Return ({| rs_status := "success"; rs_resolution_value := resolution_value |}, db).

Definition resolve_market (market_id : uuid_str) (resolution_data : ResolutionData)
    (current_user : string) (env : Env) (db : State) : result Resolved * State :=
  match resolve_market_try market_id resolution_data current_user env db with
  | Return (response, db') => (Return response, db')
  | Raise ValueError =>
      (Raise (HTTPException 400 (Detail "Invalid market ID format")), db)
  | Raise e =>
      (Raise (HTTPException 500 (FailedWith "Failed to resolve market: " e)), db)
  end.

(** ** Market creation: [create_market] *)

Definition new_market (market_data : MarketCreate) (current_user : string)
    (profile_id : UUID) (env : Env) : Market :=
  {| title := mc_title market_data; description := mc_description market_data;
     category := mc_category market_data; market_type := mc_market_type market_data;
     creator_clerk_id := current_user; creator_profile_id := profile_id;
     creator_fee_percent := 1%Q; m_status := "open";
     resolution_source := mc_resolution_source market_data; oracle_type := "manual";
     opens_at := utcnow env; closes_at := mc_closes_at market_data;
     resolved_at := None; resolution_value := None;
     total_volume := 0%Q; participant_count := 0; m_created_at := utcnow env |}.

Definition new_outcome (market_id : UUID) (i : nat) (outcome_text : string) : MarketOutcome :=
  {| o_market_id := market_id; outcome_text := outcome_text;
     outcome_value := pretty i; current_odds := 2%Q; total_backed := 0%Q;
     is_winner := None |}.

(** [for i, outcome_text in enumerate(market_data.outcomes)], from index [i]. *)
Fixpoint add_outcomes (market_id : UUID) (env : Env) (i : nat) (texts : list string)
    (table : gmap UUID MarketOutcome) : result (gmap UUID MarketOutcome) :=
  match texts with
  | [] => Return table
  | outcome_text :: rest =>
      table ← add_row (uuid4 env (S i)) (new_outcome market_id i outcome_text) table;
      add_outcomes market_id env (S i) rest table
  end.

(** The [try] block up to and including [db.commit()]. *)
Definition create_market_commit (market_data : MarketCreate) (current_user : string)
    (env : Env) (db : State) : result (UUID * Market * State) :=
  profile_id ← match user_profiles db !! current_user with
               | Some id => Return id
               | None => Raise (HTTPException 404 (Detail "User profile not found"))
               end;
  let market := new_market market_data current_user profile_id env in
  let market_id := uuid4 env 0 in
  table ← add_row market_id market (markets db);
  let db := set_markets table db in
  outcomes ← add_outcomes market_id env 0 (mc_outcomes market_data) (market_outcomes db);
  Return (market_id, market, set_market_outcomes outcomes db).

Definition create_market (market_data : MarketCreate) (current_user : string)
    (env : Env) (db : State) : result (UUID * Market) * State :=
  match create_market_commit market_data current_user env db with
  | Return (market_id, market, db') =>
      if redis_ok env then (Return (market_id, market), db')
      else (Raise (HTTPException 500
                     (FailedWith "Failed to create market: " ConnectionError)), db')
  | Raise e =>
      (Raise (HTTPException 500 (FailedWith "Failed to create market: " e)), db)
  end.

(** ** Order book: [get_orderbook] *)

(** [sorted]: a stable sort that only asks whether one element is less
    than another. *)
Fixpoint insert_sorted {A : Type} (lt : A -> A -> bool) (x : A) (l : list A) : list A :=
  match l with
  | [] => [x]
  | y :: l' => if lt y x then y :: insert_sorted lt x l' else x :: y :: l'
  end.

Definition sorted {A : Type} (lt : A -> A -> bool) (l : list A) : list A :=
  foldr (insert_sorted lt) [] l.

(** [sorted(l, reverse=True)]: the list is reversed, sorted, and reversed
    again, which keeps the sort stable. *)
Definition sorted_reverse {A : Type} (lt : A -> A -> bool) (l : list A) : list A :=
  reverse (sorted lt (reverse l)).

(** A [dict] with float keys, in insertion order. *)
Definition dict : Type := list (float * float).

Definition dict_contains (k : float) (d : dict) : bool :=
  existsb (fun kv => feq kv.1 k) d.

(** [d[k]]; the loop only reads a key it has just set. *)
Definition dict_get (k : float) (d : dict) : float :=
  match find (fun kv => feq kv.1 k) d with
  | Some kv => kv.2
  | None => S754_nan
  end.

Definition dict_set (k v : float) (d : dict) : dict :=
  if dict_contains k d
  then map (fun kv => if feq kv.1 k then (kv.1, v) else kv) d
  else d ++ [(k, v)].

(** [<] on the [(odds, volume)] tuples of [dict.items()]. *)
Definition tuple_lt (a b : float * float) : bool :=
  if feq a.1 b.1 then flt a.2 b.2 else flt a.1 b.1.

(** The query: open positions of the market on the outcome, newest
    first, at most 100 of them.  The rows come with their primary key. *)
Definition orderbook_rows (market_uuid outcome_uuid : UUID) (db : State)
  : list (UUID * MarketPosition) :=
  take 100
    (sorted (fun a b : UUID * MarketPosition =>
               p_created_at b.2 <? p_created_at a.2)
       (map_to_list (filter
          (fun kp : UUID * MarketPosition =>
             p_market_id kp.2 = market_uuid /\ p_outcome_id kp.2 = outcome_uuid /\
             p_status kp.2 = "open")
          (market_positions db)))).

Definition orderbook_positions (market_uuid outcome_uuid : UUID) (db : State)
  : list MarketPosition :=
  (orderbook_rows market_uuid outcome_uuid db).*2.

(** One turn of [for position in positions]. *)
Definition orderbook_step (orders : dict * dict) (position : MarketPosition) : dict * dict :=
  let '(back_orders, lay_orders) := orders in
  let odds_key := float_of_Q (odds position) in
  if decide (position_type position = "back") then
    let back_orders :=
      if negb (dict_contains odds_key back_orders)
      then dict_set odds_key (float_of_Z 0) back_orders else back_orders in
    (dict_set odds_key
       (fadd (dict_get odds_key back_orders) (float_of_Q (stake position)))
       back_orders, lay_orders)
  else
    let lay_orders :=
      if negb (dict_contains odds_key lay_orders)
      then dict_set odds_key (float_of_Z 0) lay_orders else lay_orders in
    (back_orders,
     dict_set odds_key
       (fadd (dict_get odds_key lay_orders) (float_of_Q (stake position)))
       lay_orders).

Record OrderBook : Type := {
  ob_market_id : uuid_str;
  ob_outcome_id : uuid_str;
  back_orders : list (float * float);
  lay_orders : list (float * float)
}.

Definition get_orderbook_try (market_id outcome_id : uuid_str) (db : State)
  : result OrderBook :=
  market_uuid ← uuid_UUID market_id;
  outcome_uuid ← uuid_UUID outcome_id;
  let positions := orderbook_positions market_uuid outcome_uuid db in
  let '(back, lay) := foldl orderbook_step ([], []) positions in
  Return {| ob_market_id := market_id; ob_outcome_id := outcome_id;
            back_orders := sorted_reverse tuple_lt back;
            lay_orders := sorted tuple_lt lay |}.

Definition get_orderbook (market_id outcome_id : uuid_str) (db : State)
  : result OrderBook :=
  match get_orderbook_try market_id outcome_id db with
  | Return book => Return book
  | Raise ValueError => Raise (HTTPException 400 (Detail "Invalid ID format"))
  | Raise e => Raise (HTTPException 500 (FailedWith "Failed to get orderbook: " e))
  end.

(** ** Calls and runs *)

Inductive call : Type :=
  | CreateMarket (market_data : MarketCreate) (current_user : string)
  | PlacePosition (market_id : uuid_str) (position_data : PositionData)
                  (current_user : string)
  | ResolveMarket (market_id : uuid_str) (resolution_data : ResolutionData)
                  (current_user : string).

(** The committed state after a call, whatever it answers. *)
Definition step (c : call) (env : Env) (db : State) : State :=
  match c with
  | CreateMarket market_data current_user =>
      (create_market market_data current_user env db).2
  | PlacePosition market_id position_data current_user =>
      (place_position market_id position_data current_user env db).2
  | ResolveMarket market_id resolution_data current_user =>
      (resolve_market market_id resolution_data current_user env db).2
  end.

Definition run (calls : list (call * Env)) (db : State) : State :=
  foldl (fun db ce => step ce.1 ce.2 db) db calls.

(** ** Vocabulary of the properties *)

(** The call is refused with an [HTTPException] and commits nothing. *)
Definition rejected {A : Type} (answer : result A * State) (db : State) : Prop :=
  exists code detail, answer = (Raise (HTTPException code detail), db).

(** What [update_market_odds] makes of one outcome row. *)
Definition odds_after (market_id : UUID) (o : MarketOutcome) : MarketOutcome :=
  if decide (o_market_id o = market_id) then
    if Qlt_le_dec 0 (total_backed o) then
      match Decimal_str_round (new_odds (total_backed o)) 2 with
      | Some d => set_current_odds d o
      | None => o
      end
    else o
  else o.

Definition payout (position_type : string) (stake odds : Decimal) : Decimal :=
  if decide (position_type = "back") then (stake * odds)%Q
  else (stake * (odds - 1))%Q.

(** The row [place_position] adds. *)
Definition new_position (market_uuid outcome_id : UUID) (current_user : string)
    (profile_id : UUID) (position_type : string) (stake odds : Decimal) (env : Env)
  : MarketPosition :=
  {| p_market_id := market_uuid; p_outcome_id := outcome_id;
     clerk_user_id := current_user; user_profile_id := profile_id;
     position_type := position_type; stake := stake; odds := odds;
     potential_payout := payout position_type stake odds; p_status := "open";
     p_created_at := utcnow env; settled_at := None |}.

(** The state [place_position] commits, before the odds are recomputed. *)
Definition placed (market_uuid outcome_id : UUID) (market : Market)
    (current_user : string) (profile_id : UUID) (position_type : string)
    (stake odds : Decimal) (env : Env) (db : State) : State :=
  {| markets :=
       <[market_uuid :=
           set_volume_participants (total_volume market + stake)%Q
             (if bool_decide (participant_count market = 0)
              then participant_count market + 1 else participant_count market)
             market]> (markets db);
     market_outcomes :=
       alter (fun o => set_total_backed (total_backed o + stake)%Q o)
             outcome_id (market_outcomes db);
     market_positions :=
       <[uuid4 env 0 :=
           new_position market_uuid outcome_id current_user profile_id
                        position_type stake odds env]> (market_positions db);
     user_profiles := user_profiles db |}.

(** The outcome table after [resolve_market] has marked the winner. *)
Definition declared_outcomes (market_uuid : UUID) (winner : option UUID)
    (outcomes : gmap UUID MarketOutcome) : gmap UUID MarketOutcome :=
  match winner with
  | Some w =>
      alter (set_is_winner true) w
        ((fun o => if decide (o_market_id o = market_uuid)
                   then set_is_winner false o else o) <$> outcomes)
  | None => outcomes
  end.

(** The state [resolve_market] commits, before the payouts are processed. *)
Definition resolved (market_uuid : UUID) (market : Market) (winner : option UUID)
    (value : option string) (env : Env) (db : State) : State :=
  {| markets := <[market_uuid := set_resolved (utcnow env) value market]> (markets db);
     market_outcomes := declared_outcomes market_uuid winner (market_outcomes db);
     market_positions := market_positions db;
     user_profiles := user_profiles db |}.

(** Exactly one outcome of the market is flagged, and it is [winner]. *)
Definition exactly_one_winner (market_uuid winner : UUID) (db : State) : Prop :=
  (exists o, market_outcomes db !! winner = Some o /\
             o_market_id o = market_uuid /\ is_winner o = Some true) /\
  forall id o, market_outcomes db !! id = Some o ->
               o_market_id o = market_uuid -> is_winner o = Some true ->
               id = winner.

Definition no_winner (market_uuid : UUID) (db : State) : Prop :=
  forall id o, market_outcomes db !! id = Some o ->
               o_market_id o = market_uuid -> is_winner o <> Some true.

(** Every flagged outcome belongs to a resolved market. *)
Definition winners_resolved (db : State) : Prop :=
  forall id o, market_outcomes db !! id = Some o -> is_winner o = Some true ->
    exists market, markets db !! o_market_id o = Some market /\
                   m_status market = "resolved".

(** A resolution names, as its winning outcome, an outcome of the market
    it resolves (or none). *)
Definition well_addressed (c : call) (db : State) : Prop :=
  match c with
  | ResolveMarket (UUIDText market_uuid) resolution_data _ =>
      forall winner,
        rd_winning_outcome_id resolution_data = Some (UUIDText winner) ->
        exists o, market_outcomes db !! winner = Some o /\
                  o_market_id o = market_uuid
  | _ => True
  end.






(** The dictionary key of a position and the side it is filed under. *)
Definition odds_key (p : MarketPosition) : float := float_of_Q (odds p).

Definition is_back (p : MarketPosition) : bool :=
  bool_decide (position_type p = "back").

(** The volume of one price level: the stakes of the positions of that
    side whose key equals [k], added as floats in query order from 0. *)
Definition group_volume (back : bool) (k : float) (positions : list MarketPosition)
  : float :=
  foldl (fun acc p =>
           if eqb (is_back p) back && feq (odds_key p) k
           then fadd acc (float_of_Q (stake p)) else acc)
        (float_of_Z 0) positions.

(** [d[k] = 0] when [k] is new, then [d[k] += x]. *)
Definition dict_add (k x : float) (d : dict) : dict :=
  let d := if negb (dict_contains k d) then dict_set k (float_of_Z 0) d else d in
  dict_set k (fadd (dict_get k d) x) d.

(** What one of the two dictionaries holds after the loop has gone
    through [positions]. *)
Definition dict_ok (back : bool) (positions : list MarketPosition) (d : dict) : Prop :=
  (forall k v, (k, v) ∈ d ->
     v = group_volume back k positions /\
     exists p, p ∈ positions /\ is_back p = back /\ k = odds_key p) /\
  (forall p, p ∈ positions -> is_back p = back ->
     dict_contains (odds_key p) d = true) /\
  ForallOrdPairs (fun a b : float * float => feq a.1 b.1 = false) d.

(** For two elements, the answer of [lt] settles how [R] relates them. *)
Definition decides {A : Type} (lt : A -> A -> bool) (R : A -> A -> Prop) (a b : A)
  : Prop :=
  (lt a b = true -> R a b) /\ (lt a b = false -> R b a) /\
  (lt b a = true -> R b a) /\ (lt b a = false -> R a b).

(** ** Sample data *)

Definition sample_env (k : nat) : Env :=
  {| uuid4 := fun n => Pos.of_nat (100 * k + n);
     utcnow := 1000 * Z.of_nat k;
     redis_ok := true |}.

Definition db_empty : State :=
  {| markets := ∅; market_outcomes := ∅; market_positions := ∅;
     user_profiles := <["alice" := 1%positive]> (<["bob" := 2%positive]> ∅) |}.

Definition sample_market : MarketCreate :=
  {| mc_title := "Rain tomorrow"; mc_description := "Will it rain?";
     mc_category := "weather"; mc_market_type := "binary";
     mc_outcomes := ["yes"; "no"]; mc_closes_at := 9000;
     mc_resolution_source := None |}.

Definition order (outcome_id : UUID) (stake odds : Decimal) (position_type : string)
  : PositionData :=
  {| pd_outcome_id := Some (UUIDText outcome_id);
     pd_stake := Some (DecimalText stake);
     pd_odds := Some (DecimalText odds);
     pd_position_type := Some position_type |}.

(** Market 100 with outcomes 101 ("yes") and 102 ("no"), created by alice. *)
Definition db_open : State :=
  step (CreateMarket sample_market "alice") (sample_env 1) db_empty.

(** Positions 200 and 300 back "yes" at 2.0, position 400 lays "yes" at
    1.5, position 500 backs "no" at 3. *)
Definition sample_trades : list (call * Env) :=
  [ (PlacePosition (UUIDText 100) (order 101 10 2 "back") "alice", sample_env 2);
    (PlacePosition (UUIDText 100) (order 101 5 2 "back") "bob", sample_env 3);
    (PlacePosition (UUIDText 100) (order 101 20 1.5 "lay") "alice", sample_env 4);
    (PlacePosition (UUIDText 100) (order 102 7 3 "back") "bob", sample_env 5) ].

Definition db_traded : State := run sample_trades db_open.

Definition set_status (v : string) (m : Market) : Market :=
  {| title := title m; description := description m; category := category m;
     market_type := market_type m; creator_clerk_id := creator_clerk_id m;
     creator_profile_id := creator_profile_id m;
     creator_fee_percent := creator_fee_percent m; m_status := v;
     resolution_source := resolution_source m; oracle_type := oracle_type m;
     opens_at := opens_at m; closes_at := closes_at m;
     resolved_at := resolved_at m; resolution_value := resolution_value m;
     total_volume := total_volume m; participant_count := participant_count m;
     m_created_at := m_created_at m |}.

(** This service has no endpoint that closes a market: the sample closes
    market 100 in the store. *)
Definition db_closed : State :=
  set_markets (alter (set_status "closed") 100%positive (markets db_traded)) db_traded.

Definition resolution (winner : option uuid_str) : ResolutionData :=
  {| rd_winning_outcome_id := winner; rd_resolution_value := Some "yes" |}.


(** Market 100 after alice's first position (position 200). *)
Definition db_first : State :=
  step (PlacePosition (UUIDText 100) (order 101 10 2 "back") "alice")
       (sample_env 2) db_open.

(** ** Market updates over websockets: [MarketWebSocketManager] *)

(** A connection object.  Two connections are equal only when they are
    the same object, so a connection is its identity. *)
Definition WebSocket : Type := positive.

(** How a call on a connection ends: it goes through, it raises
    [WebSocketDisconnect], or it raises something else. *)
Inductive io : Type :=
  | Done
  | Disconnected
  | Failed.

(** What the transport does with a connection on [accept()] and on
    [send_json(...)].  A connection is live or dead for the length of
    one call: its sends all end the same way. *)
Record Transport : Type := {
  accept : WebSocket -> io;
  send_json : WebSocket -> io
}.

#[global] Instance io_eq_dec : EqDecision io.
Proof. solve_decision. Defined.

(** A [send_json] on the connection does not raise. *)
Definition delivers (transport : Transport) (connection : WebSocket) : bool :=
  bool_decide (send_json transport connection = Done).

(** [self.active_connections], keyed by the [market_id] string of the
    request. *)
Abbreviation Connections := (gmap string (list WebSocket)).

(** [connect]: [None] when [websocket.accept()] raises, which happens
    before anything is registered. *)
Definition connect (transport : Transport) (websocket : WebSocket) (market_id : string)
    (active_connections : Connections) : option Connections :=
  match accept transport websocket with
  | Done =>
      let active_connections :=
        match active_connections !! market_id with
        | None => <[market_id := []]> active_connections
        | Some _ => active_connections
        end in
      Some (alter (fun l => l ++ [websocket]) market_id active_connections)
  | _ => None
  end.

(** [list.remove(x)]: the first occurrence goes. *)
Fixpoint py_remove (x : WebSocket) (l : list WebSocket) : list WebSocket :=
  match l with
  | [] => []
  | y :: l' => if decide (y = x) then l' else y :: py_remove x l'
  end.

Definition disconnect (websocket : WebSocket) (market_id : string)
    (active_connections : Connections) : Connections :=
  match active_connections !! market_id with
  | Some l =>
      if decide (websocket ∈ l)
      then <[market_id := py_remove websocket l]> active_connections
      else active_connections
  | None => active_connections
  end.

(** The first loop of [broadcast_to_market]: the messages that went out,
    and the connections whose [send_json] raised. *)
Definition send_to_all {M : Type} (transport : Transport) (message : M)
    (l : list WebSocket) : list (WebSocket * M) * list WebSocket :=
  foldl (fun '(sent, disconnected) connection =>
           if delivers transport connection
           then (sent ++ [(connection, message)], disconnected)
           else (sent, disconnected ++ [connection]))
        ([], []) l.

(** The second loop: [for conn in disconnected]. *)
Definition clean_up (disconnected : list WebSocket) (l : list WebSocket)
  : list WebSocket :=
  foldl (fun l conn => if decide (conn ∈ l) then py_remove conn l else l)
        l disconnected.

Definition broadcast_to_market {M : Type} (transport : Transport) (market_id : string)
    (message : M) (active_connections : Connections)
  : list (WebSocket * M) * Connections :=
  match active_connections !! market_id with
  | None => ([], active_connections)
  | Some l =>
      let '(sent, disconnected) := send_to_all transport message l in
      (sent, <[market_id := clean_up disconnected l]> active_connections)
  end.

(** *** The websocket endpoint: [market_websocket] *)

(** What [receive_json] brings next: a JSON object, with its ["type"]
    entry if it has one; or the call, or reading the entry off what
    arrived, raises. *)
Inductive incoming : Type :=
  | json_object (type : option string)
  | receive_raises.

Inductive frame : Type :=
  | market_data (id : UUID) (title status : string) (total_volume : float)
                (participant_count : Z)
  | pong.

(** [while True]: the frames sent, and whether the loop is still waiting
    for a message once [events] have been received. *)
Fixpoint receive_loop (transport : Transport) (websocket : WebSocket)
    (events : list incoming) : list frame * bool :=
  match events with
  | [] => ([], true)
  | receive_raises :: _ => ([], false)
  | json_object type :: events =>
      if decide (type = Some "ping") then
        match send_json transport websocket with
        | Done =>
            let '(frames, waiting) := receive_loop transport websocket events in
            (pong :: frames, waiting)
        | _ => ([], false)
        end
      else receive_loop transport websocket events
  end.

(** The call as far as [events] take it: the frames sent to the client,
    the code of [websocket.close] if it was called, whether the receive
    loop is still waiting, and the registry. *)
Record Session : Type := {
  sent : list frame;
  close_code : option Z;
  waiting : bool;
  registry : Connections
}.

(** [except WebSocketDisconnect] and [except Exception] of the endpoint. *)
Definition session_ended (how : io) (websocket : WebSocket) (market_id : string)
    (frames : list frame) (active_connections : Connections) : Session :=
  match how with
  | Disconnected =>
      {| sent := frames; close_code := None; waiting := false;
         registry := disconnect websocket market_id active_connections |}
  | _ =>
      {| sent := frames; close_code := Some 1011; waiting := false;
         registry := active_connections |}
  end.

(** [market_uuid] is what [uuid.UUID(market_id)] makes of the path
    parameter. *)
Definition market_websocket (transport : Transport) (websocket : WebSocket)
    (market_id : string) (market_uuid : uuid_str) (events : list incoming)
    (db : State) (active_connections : Connections) : Session :=
  match connect transport websocket market_id active_connections with
  | None =>
      session_ended (accept transport websocket) websocket market_id []
        active_connections
  | Some active_connections =>
      let serve (frames : list frame) :=
        let '(replies, waiting) := receive_loop transport websocket events in
        {| sent := frames ++ replies; close_code := None; waiting := waiting;
           registry := active_connections |} in
      match uuid_UUID market_uuid with
      | Raise _ => session_ended Failed websocket market_id [] active_connections
      | Return id =>
          match markets db !! id with
          | Some market =>
              match send_json transport websocket with
              | Done =>
                  serve [market_data id (title market) (m_status market)
                           (float_of_Q (total_volume market))
                           (participant_count market)]
              | how => session_ended how websocket market_id [] active_connections
              end
          | None => serve []
          end
      end
  end.

(** ** Callers: authentication and permissions ([shared/clerk_auth.py]) *)

(** A metadata dictionary of a Clerk user, seen through the entries the
    service reads.  An entry is absent or holds a value of the type the
    code expects. *)
Record Metadata : Type := {
  md_betbet_profile_id : option string;
  md_kyc_level : option Z;
  md_kyc_status : option string;
  md_can_create_markets : option bool;
  md_is_expert : option bool;
  md_analysis_quota : option Z
}.

(** The empty dictionary. *)
Definition no_metadata : Metadata :=
  {| md_betbet_profile_id := None; md_kyc_level := None; md_kyc_status := None;
     md_can_create_markets := None; md_is_expert := None; md_analysis_quota := None |}.

(** The dictionary [ClerkUser] is built from: the claims of a decoded
    token, possibly overlaid with what the Clerk API returned.  A name
    entry may be present and null. *)
Record ClerkData : Type := {
  sub : option string;
  cd_email : option string;
  cd_username : option (option string);
  cd_first_name : option (option string);
  cd_last_name : option (option string);
  cd_public_metadata : option Metadata;
  cd_private_metadata : option Metadata
}.

Record ClerkUser : Type := {
  cu_id : string;
  cu_email : string;
  cu_username : option string;
  cu_first_name : option string;
  cu_last_name : option string;
  public_metadata : Metadata;
  private_metadata : Metadata;
  profile_id : option string;
  kyc_level : Z;
  kyc_status : string;
  can_create_markets : bool;
  is_expert : bool;
  analysis_quota : Z
}.

(** [ClerkUser.__init__]; [clerk_data["sub"]] raises when the entry is
    absent, every other entry has a default. *)
Definition ClerkUser_init (clerk_data : ClerkData) : result ClerkUser :=
  user_id ← getitem "sub" (sub clerk_data);
  let public := default no_metadata (cd_public_metadata clerk_data) in
  Return {| cu_id := user_id;
            cu_email := default "" (cd_email clerk_data);
            cu_username := default (Some "") (cd_username clerk_data);
            cu_first_name := default (Some "") (cd_first_name clerk_data);
            cu_last_name := default (Some "") (cd_last_name clerk_data);
            public_metadata := public;
            private_metadata := default no_metadata (cd_private_metadata clerk_data);
            profile_id := md_betbet_profile_id public;
            kyc_level := default 0 (md_kyc_level public);
            kyc_status := default "pending" (md_kyc_status public);
            can_create_markets := default false (md_can_create_markets public);
            is_expert := default false (md_is_expert public);
            analysis_quota := default 10 (md_analysis_quota public) |}.

(** What [clerk.users.get] returns. *)
Record ClerkAPIUser : Type := {
  email_addresses : list string;
  api_username : option string;
  api_first_name : option string;
  api_last_name : option string;
  api_public_metadata : option Metadata;
  api_private_metadata : option Metadata
}.

(** [{**token_data, "email": ..., ...}]: the entries of the token, with
    those the API answers laid over them. *)
Definition combined_data (token_data : ClerkData) (user_data : ClerkAPIUser) : ClerkData :=
  {| sub := sub token_data;
     cd_email := Some (match email_addresses user_data with
                       | address :: _ => address
                       | [] => ""
                       end);
     cd_username := Some (api_username user_data);
     cd_first_name := Some (api_first_name user_data);
     cd_last_name := Some (api_last_name user_data);
     cd_public_metadata :=
       Some (default no_metadata (api_public_metadata user_data));
     cd_private_metadata :=
       Some (default no_metadata (api_private_metadata user_data)) |}.

(** [get_current_user]; [clerk_users_get] is the Clerk API, [None] when
    the call raises. *)
Definition get_current_user (clerk_users_get : string -> option ClerkAPIUser)
    (token_data : ClerkData) : result ClerkUser :=
  match sub token_data with
  | None | Some "" =>
      Raise (HTTPException 401 (Detail "User ID not found in token"))
  | Some user_id =>
      match clerk_users_get user_id with
      | Some user_data =>
          match ClerkUser_init (combined_data token_data user_data) with
          | Return user => Return user
          | Raise _ => ClerkUser_init token_data
          end
      | None => ClerkUser_init token_data
      end
  end.

(** The metadata [get_current_user] goes by: what the Clerk API answers
    and, when the call fails, what the token carries. *)
Definition trusted_metadata (clerk_users_get : string -> option ClerkAPIUser)
    (token_data : ClerkData) : Metadata :=
  match sub token_data with
  | Some user_id =>
      match clerk_users_get user_id with
      | Some user_data => default no_metadata (api_public_metadata user_data)
      | None => default no_metadata (cd_public_metadata token_data)
      end
  | None => default no_metadata (cd_public_metadata token_data)
  end.

Definition require_kyc_level (min_level : Z) (current_user : ClerkUser)
  : result ClerkUser :=
  if kyc_level current_user <? min_level then
    Raise (HTTPException 403
             (Detail ("KYC level " +:+ pretty min_level +:+ " required. Your level: "
                      +:+ pretty (kyc_level current_user))))
  else Return current_user.

Definition require_expert_status (current_user : ClerkUser) : result ClerkUser :=
  if negb (is_expert current_user) then
    Raise (HTTPException 403 (Detail "Expert status required"))
  else Return current_user.


(** An endpoint behind its [Depends(...)]: the dependency is resolved
    first; when it raises, the endpoint is not entered. *)
Definition depends {A : Type} (dependency : result ClerkUser)
    (endpoint : ClerkUser -> result A * State) (db : State) : result A * State :=
  match dependency with
  | Return current_user => endpoint current_user
  | Raise e => (Raise e, db)
  end.


Definition resolve_market_request (clerk_users_get : string -> option ClerkAPIUser)
    (token_data : ClerkData) (market_id : uuid_str) (resolution_data : ResolutionData)
    (env : Env) (db : State) : result Resolved * State :=
  depends (get_current_user clerk_users_get token_data)
    (fun current_user =>
       resolve_market market_id resolution_data (cu_id current_user) env db) db.

Definition place_position_request (clerk_users_get : string -> option ClerkAPIUser)
    (token_data : ClerkData) (market_id : uuid_str) (position_data : PositionData)
    (env : Env) (db : State) : result PositionPlaced * State :=
  depends (current_user ← get_current_user clerk_users_get token_data;
           require_kyc_level 1 current_user)
    (fun current_user =>
       place_position market_id position_data (cu_id current_user) env db) db.

(** ** Position manager: [get_user_positions] *)

Record PositionView : Type := {
  pv_id : UUID;
  pv_market_id : UUID;
  pv_market_title : string;
  pv_market_status : string;
  pv_outcome_id : UUID;
  pv_outcome_text : string;
  pv_position_type : string;
  pv_stake : float;
  pv_odds : float;
  pv_potential_payout : float;
  pv_status : string;
  pv_created_at : datetime;
  pv_settled_at : option datetime
}.

(** The query: the positions of the user with the given status, newest
    first.  The rows come with their primary key. *)
Definition user_position_rows (status current_user : string) (db : State)
  : list (UUID * MarketPosition) :=
  sorted (fun a b : UUID * MarketPosition => p_created_at b.2 <? p_created_at a.2)
    (map_to_list (filter
       (fun kp : UUID * MarketPosition =>
          clerk_user_id kp.2 = current_user /\ p_status kp.2 = status)
       (market_positions db))).

(** One entry of the answer.  [position.market] and [position.outcome]
    are [None] when the row they refer to is missing, and reading [.id]
    off [None] raises. *)
Definition position_view (db : State) (row : UUID * MarketPosition)
  : option PositionView :=
  let '(id, position) := row in
  market ← markets db !! p_market_id position;
  outcome ← market_outcomes db !! p_outcome_id position;
  Some {| pv_id := id;
          pv_market_id := p_market_id position;
          pv_market_title := title market;
          pv_market_status := m_status market;
          pv_outcome_id := p_outcome_id position;
          pv_outcome_text := outcome_text outcome;
          pv_position_type := position_type position;
          pv_stake := float_of_Q (stake position);
          pv_odds := float_of_Q (odds position);
          pv_potential_payout := float_of_Q (potential_payout position);
          pv_status := p_status position;
          pv_created_at := p_created_at position;
          pv_settled_at := settled_at position |}.

Definition get_user_positions (status current_user : string) (db : State)
  : result (list PositionView) :=
  match mapM (position_view db) (user_position_rows status current_user db) with
  | Some positions => Return positions
  | None =>
      Raise (HTTPException 500
               (Detail "Failed to get user positions: 'NoneType' object has no attribute 'id'"))
  end.

(** ** Market cards: [get_market_details] *)

(** The columns of a [user_profiles] row the service shows. *)
Record UserProfile : Type := {
  username : string;
  display_name : option string
}.

Record OutcomeDetails : Type := {
  od_id : UUID;
  od_outcome_text : string;
  od_outcome_value : string;
  od_current_odds : option float;
  od_total_backed : float;
  od_is_winner : option bool
}.

Record MarketDetails : Type := {
  det_id : UUID;
  det_title : string;
  det_description : string;
  det_category : string;
  det_market_type : string;
  det_status : string;
  det_total_volume : float;
  det_participant_count : Z;
  det_creator : UserProfile;
  det_creator_fee_percent : float;
  det_resolution_source : option string;
  det_oracle_type : string;
  det_opens_at : datetime;
  det_closes_at : datetime;
  det_resolved_at : option datetime;
  det_resolution_value : option string;
  det_outcomes : list OutcomeDetails;
  det_created_at : datetime
}.

(** The second query: the outcomes of the market, with their primary
    key. *)
Definition market_outcome_rows (market_uuid : UUID) (db : State)
  : list (UUID * MarketOutcome) :=
  map_to_list (filter
    (fun ko : UUID * MarketOutcome => o_market_id ko.2 = market_uuid)
    (market_outcomes db)).

(** One entry of ["outcomes"]; odds of zero are falsy and shown as
    [None]. *)
Definition outcome_details (row : UUID * MarketOutcome) : OutcomeDetails :=
  let '(id, outcome) := row in
  {| od_id := id;
     od_outcome_text := outcome_text outcome;
     od_outcome_value := outcome_value outcome;
     od_current_odds :=
       if Qeq_bool (current_odds outcome) 0 then None
       else Some (float_of_Q (current_odds outcome));
     od_total_backed := float_of_Q (total_backed outcome);
     od_is_winner := is_winner outcome |}.

(** The body of the [try] block.  [profiles] is the [user_profiles]
    table by primary key; [market.creator] is [None] when the row the
    market refers to is missing, and the answer is [None] when reading
    [.username] off it raises. *)
Definition get_market_details_try (market_id : uuid_str)
    (profiles : gmap UUID UserProfile) (db : State) : result (option MarketDetails) :=
  market_uuid ← uuid_UUID market_id;
  market ← match markets db !! market_uuid with
           | Some market => Return market
           | None => Raise (HTTPException 404 (Detail "Market not found"))
           end;
  let outcomes := market_outcome_rows market_uuid db in
  Return (creator ← profiles !! creator_profile_id market;
          Some {| det_id := market_uuid;
                  det_title := title market;
                  det_description := description market;
                  det_category := category market;
                  det_market_type := market_type market;
                  det_status := m_status market;
                  det_total_volume := float_of_Q (total_volume market);
                  det_participant_count := participant_count market;
                  det_creator := creator;
                  det_creator_fee_percent := float_of_Q (creator_fee_percent market);
                  det_resolution_source := resolution_source market;
                  det_oracle_type := oracle_type market;
                  det_opens_at := opens_at market;
                  det_closes_at := closes_at market;
                  det_resolved_at := resolved_at market;
                  det_resolution_value := resolution_value market;
                  det_outcomes := outcome_details <$> outcomes;
                  det_created_at := m_created_at market |}).

Definition get_market_details (market_id : uuid_str) (profiles : gmap UUID UserProfile)
    (db : State) : result MarketDetails :=
  match get_market_details_try market_id profiles db with
  | Return (Some details) => Return details
  | Return None =>
      Raise (HTTPException 500
               (Detail "Failed to get market details: 'NoneType' object has no attribute 'username'"))
  | Raise ValueError => Raise (HTTPException 400 (Detail "Invalid market ID format"))
  | Raise e => Raise (HTTPException 500 (FailedWith "Failed to get market details: " e))
  end.

(** ** The route table of the service *)

Module Route.

(** The functions behind the routes. *)
Inductive endpoint : Type :=
  | list_markets
  | get_trending_markets
  | get_market_details
  | get_market_categories
  | create_market
  | resolve_market
  | place_position
  | get_orderbook
  | get_user_positions
  | market_websocket
  | health_check.

Inductive segment : Type :=
  | Literal (text : string)
  | Param (name : string).

(** What a route answers to: an HTTP method, or a websocket handshake. *)
Inductive kind : Type :=
  | http (method : string)
  | websocket.

Record route : Type := {
  r_kind : kind;
  r_path : list segment;
  r_endpoint : endpoint
}.

(** The decorators of the module, in the order they are executed.  The
    routes the framework adds for its own documentation pages lie outside
    [/api], [/ws] and [/health] and are left out. *)
Definition routes : list route :=
  [ {| r_kind := http "GET";
       r_path := [Literal "api"; Literal "v1"; Literal "markets"];
       r_endpoint := list_markets |};
    {| r_kind := http "GET";
       r_path := [Literal "api"; Literal "v1"; Literal "markets"; Literal "trending"];
       r_endpoint := get_trending_markets |};
    {| r_kind := http "GET";
       r_path := [Literal "api"; Literal "v1"; Literal "markets"; Param "market_id"];
       r_endpoint := get_market_details |};
    {| r_kind := http "GET";
       r_path := [Literal "api"; Literal "v1"; Literal "markets"; Literal "categories"];
       r_endpoint := get_market_categories |};
    {| r_kind := http "POST";
       r_path := [Literal "api"; Literal "v1"; Literal "markets"; Literal "create"];
       r_endpoint := create_market |};
    {| r_kind := http "POST";
       r_path := [Literal "api"; Literal "v1"; Literal "markets"; Param "market_id";
                  Literal "resolve"];
       r_endpoint := resolve_market |};
    {| r_kind := http "POST";
       r_path := [Literal "api"; Literal "v1"; Literal "markets"; Param "market_id";
                  Literal "positions"];
       r_endpoint := place_position |};
    {| r_kind := http "GET";
       r_path := [Literal "api"; Literal "v1"; Literal "markets"; Param "market_id";
                  Literal "orderbook"];
       r_endpoint := get_orderbook |};
    {| r_kind := http "GET";
       r_path := [Literal "api"; Literal "v1"; Literal "users"; Literal "positions"];
       r_endpoint := get_user_positions |};
    {| r_kind := websocket;
       r_path := [Literal "ws"; Literal "markets"; Param "market_id"];
       r_endpoint := market_websocket |};
    {| r_kind := http "GET";
       r_path := [Literal "health"];
       r_endpoint := health_check |} ].

(** A request path is ["/"] followed by its segments joined with ["/"].
    A literal matches itself; a parameter matches any segment that is not
    empty, and is bound to it. *)
Fixpoint match_path (pattern : list segment) (path : list string)
  : option (list (string * string)) :=
  match pattern, path with
  | [], [] => Some []
  | Literal text :: pattern, s :: path =>
      if decide (s = text) then match_path pattern path else None
  | Param name :: pattern, s :: path =>
      if decide (s = "") then None
      else params ← match_path pattern path; Some ((name, s) :: params)
  | _, _ => None
  end.

Inductive Match : Type :=
  | NONE
  | PARTIAL
  | FULL (path_params : list (string * string)).

(** [route.matches(scope)]: the path is matched first; an HTTP route
    whose path matches a request of another method matches partially. *)
Definition matches (r : route) (scope : kind) (path : list string) : Match :=
  match r_kind r, scope with
  | http method, http requested =>
      match match_path (r_path r) path with
      | Some params => if decide (requested = method) then FULL params else PARTIAL
      | None => NONE
      end
  | websocket, websocket =>
      match match_path (r_path r) path with
      | Some params => FULL params
      | None => NONE
      end
  | _, _ => NONE
  end.

Inductive answer : Type :=
  | Handled (e : endpoint) (path_params : list (string * string))
  | MethodNotAllowed
  | Redirect (path : list string)
  | NotFound.

(** The router's loop: the first route that matches in full handles the
    request; failing that, the first partial match answers 405. *)
Fixpoint route_request (rs : list route) (scope : kind) (path : list string)
    (partial : bool) : option answer :=
  match rs with
  | [] => if partial then Some MethodNotAllowed else None
  | r :: rs =>
      match matches r scope path with
      | FULL params => Some (Handled (r_endpoint r) params)
      | PARTIAL => route_request rs scope path true
      | NONE => route_request rs scope path partial
      end
  end.

(** [path.rstrip("/")] on the segments. *)
Fixpoint rstrip_slash (path : list string) : list string :=
  match path with
  | [] => []
  | s :: path =>
      match rstrip_slash path with
      | [] => if decide (s = "") then [] else [s]
      | rest => s :: rest
      end
  end.

(** When nothing matched, an HTTP request is redirected to the path
    with its trailing slash removed or added, if a route matches that. *)
Definition dispatch (scope : kind) (path : list string) : answer :=
  match route_request routes scope path false with
  | Some a => a
  | None =>
      match scope with
      | http _ =>
          if decide (path = [""]) then NotFound
          else
            let redirect_path :=
              match last path with
              | Some "" => rstrip_slash path
              | _ => path ++ [""]
              end in
            if existsb (fun r => match matches r scope redirect_path with
                                 | NONE => false
                                 | _ => true
                                 end) routes
            then Redirect redirect_path else NotFound
      | websocket => NotFound
      end
  end.

End Route.


(** ** Vocabulary of the invariants *)




(** ** Further sample data *)

(** Market 700 with outcomes 701 and 702, created by bob next to the
    closed market 100. *)
Definition db_two_markets : State :=
  step (CreateMarket sample_market "bob") (sample_env 7) db_closed.


(** A transport on which every call goes through, and a registry with
    connection 3 on ["market-a"]. *)
Definition live_transport : Transport :=
  {| accept := fun _ => Done; send_json := fun _ => Done |}.

Definition sample_connections : Connections :=
  {[ "market-a" := [3%positive] ]}.

(** * Properties *)

(** ** Binary64 arithmetic: rounding keeps mantissas normal *)

Lemma digits2_pos_size p : digits2_pos p = Pos.size p.
Proof. induction p; simpl; congruence. Qed.

Lemma Zdigits2_log2 z : 0 < z -> Zdigits2 z = Z.log2 z + 1.
Proof.
  destruct z as [|p|p]; try lia. intros _. simpl.
  rewrite digits2_pos_size. destruct p; simpl; lia.
Qed.

Lemma Zdigits2_bounds z : 0 < z -> 2 ^ (Zdigits2 z - 1) <= z < 2 ^ Zdigits2 z.
Proof.
  intros H. rewrite Zdigits2_log2 by done.
  replace (Z.log2 z + 1 - 1) with (Z.log2 z) by lia.
  pose proof (Z.log2_spec z H). lia.
Qed.

Lemma Zdigits2_unique z k : 2 ^ (k - 1) <= z < 2 ^ k -> 1 <= k -> Zdigits2 z = k.
Proof.
  intros H Hk. assert (0 < z) by (pose proof (Z.pow_pos_nonneg 2 (k - 1)); lia).
  rewrite Zdigits2_log2 by done.
  rewrite (Z.log2_unique z (k - 1)); try lia.
  replace (Z.succ (k - 1)) with k by lia. lia.
Qed.

Lemma Zdigits2_nonneg z : 0 <= Zdigits2 z.
Proof. destruct z; simpl; lia. Qed.

Lemma Zdigits2_pos z : 0 < z -> 1 <= Zdigits2 z.
Proof. destruct z; simpl; lia. Qed.

Lemma Zdigits2_lt_pow z k : 0 < z -> z < 2 ^ k -> Zdigits2 z <= k.
Proof.
  intros Hz H. destruct (Z_lt_le_dec k (Zdigits2 z)) as [Hlt|]; [|done].
  pose proof (Zdigits2_bounds z Hz) as [Hb _].
  assert (0 <= k).
  { destruct (Z_lt_le_dec k 0); [|done]. rewrite Z.pow_neg_r in H; lia. }
  assert (2 ^ k <= 2 ^ (Zdigits2 z - 1)) by (apply Z.pow_le_mono_r; lia). lia.
Qed.

Lemma Zdigits2_ge_pow z k : 0 <= k -> 2 ^ k <= z -> k + 1 <= Zdigits2 z.
Proof.
  intros Hk H. assert (0 < z) by (pose proof (Z.pow_pos_nonneg 2 k); lia).
  pose proof (Zdigits2_bounds z ltac:(done)) as [_ Hb].
  destruct (Z_lt_le_dec (Zdigits2 z) (k + 1)) as [Hlt|]; [|done].
  assert (2 ^ Zdigits2 z <= 2 ^ k).
  { apply Z.pow_le_mono_r; [lia|]. lia. }
  lia.
Qed.

Lemma shr_1_m r : 0 <= shr_m r -> shr_m (shr_1 r) = shr_m r / 2.
Proof.
  destruct r as [m r s]. simpl. intros H.
  destruct m as [|[p|p|]|p]; simpl; try lia; try reflexivity.
  - apply (Z.div_unique _ _ _ 1); lia.
  - apply (Z.div_unique _ _ _ 0); lia.
Qed.

Lemma shr_1_nonneg r : 0 <= shr_m r -> 0 <= shr_m (shr_1 r).
Proof. intros H. rewrite shr_1_m by done. apply Z.div_pos; lia. Qed.

Lemma iter_pos_shr_1 p r :
  0 <= shr_m r -> shr_m (SpecFloat.iter_pos shr_1 p r) = shr_m r / 2 ^ Zpos p.
Proof.
  revert r. induction p as [p IH|p IH|]; intros r H; simpl SpecFloat.iter_pos.
  - assert (H1 : 0 <= shr_m (shr_1 r)) by (by apply shr_1_nonneg).
    assert (H2 : 0 <= shr_m (SpecFloat.iter_pos shr_1 p (shr_1 r))).
    { rewrite IH by done. apply Z.div_pos; [done|]. apply Z.pow_pos_nonneg; lia. }
    rewrite IH, IH, shr_1_m by done.
    rewrite !Z.div_div by (try apply Z.pow_pos_nonneg; lia).
    f_equal. change 2 with (2 ^ 1) at 1. rewrite <- !Z.pow_add_r by lia. f_equal. lia.
  - assert (H2 : 0 <= shr_m (SpecFloat.iter_pos shr_1 p r)).
    { rewrite IH by done. apply Z.div_pos; [done|]. apply Z.pow_pos_nonneg; lia. }
    rewrite IH, IH by done.
    rewrite !Z.div_div by (try apply Z.pow_pos_nonneg; lia).
    f_equal. rewrite <- Z.pow_add_r by lia. f_equal. lia.
  - rewrite shr_1_m by done. reflexivity.
Qed.

Lemma shr_m_of_loc m l : shr_m (shr_record_of_loc m l) = m.
Proof. destruct l as [|[]]; reflexivity. Qed.

Lemma shr_fexp_spec m e l :
  0 <= m ->
  let e' := Z.max e (fexp prec emax (Zdigits2 m + e)) in
  (shr_fexp prec emax m e l).2 = e' /\
  shr_m (shr_fexp prec emax m e l).1 = m / 2 ^ (e' - e).
Proof.
  intros Hm e'. unfold shr_fexp, shr.
  destruct (fexp prec emax (Zdigits2 m + e) - e) as [|p|p] eqn:E; simpl.
  - assert (e' = e) by lia. rewrite H. replace (e - e) with 0 by lia.
    rewrite shr_m_of_loc, Z.div_1_r. done.
  - assert (e' = e + Z.pos p) by lia. rewrite H.
    replace (e + Z.pos p - e) with (Z.pos p) by lia.
    split; [done|]. rewrite iter_pos_shr_1; rewrite shr_m_of_loc; done.
  - assert (e' = e) by lia. rewrite H. replace (e - e) with 0 by lia.
    rewrite shr_m_of_loc, Z.div_1_r. done.
Qed.

Lemma round_nearest_even_bounds m l :
  m <= round_nearest_even m l <= m + 1.
Proof. destruct l as [|[]]; simpl; try lia. destruct (Z.even m); lia. Qed.

Lemma binary_round_aux_spec s m e l :
  0 <= m ->
  exists m2,
    let e1 := Z.max e (fexp prec emax (Zdigits2 m + e)) in
    let e3 := Z.max e1 (fexp prec emax (Zdigits2 m2 + e1)) in
    m / 2 ^ (e1 - e) <= m2 <= m / 2 ^ (e1 - e) + 1 /\
    binary_round_aux prec emax s m e l =
      match m2 / 2 ^ (e3 - e1) with
      | Z0 => S754_zero s
      | Zpos m3 => if e3 <=? emax - prec then S754_finite s m3 e3 else S754_infinity s
      | Zneg _ => S754_nan
      end.
Proof.
  intros Hm. unfold binary_round_aux.
  pose proof (shr_fexp_spec m e l Hm) as [He1 Hm1].
  destruct (shr_fexp prec emax m e l) as [mrs' e1'] eqn:E1. simpl in He1, Hm1.
  set (m2 := round_nearest_even (shr_m mrs') (loc_of_shr_record mrs')).
  exists m2. cbv zeta. subst e1'.
  set (e1 := Z.max e (fexp prec emax (Zdigits2 m + e))) in *.
  set (e3 := Z.max e1 (fexp prec emax (Zdigits2 m2 + e1))).
  pose proof (round_nearest_even_bounds (shr_m mrs') (loc_of_shr_record mrs')) as Hb.
  fold m2 in Hb. rewrite Hm1 in Hb. split; [done|].
  assert (0 <= m2).
  { assert (0 <= m / 2 ^ (e1 - e)); [|lia].
    apply Z.div_pos; [done|]. apply Z.pow_pos_nonneg; lia. }
  pose proof (shr_fexp_spec m2 e1 loc_Exact ltac:(done)) as [He3 Hm3].
  destruct (shr_fexp prec emax m2 e1 loc_Exact) as [mrs'' e3'] eqn:E3.
  simpl in He3, Hm3. fold e3 in He3, Hm3. subst e3'. rewrite Hm3. done.
Qed.

Lemma fexp_eq x : fexp prec emax x = Z.max (x - 53) (-1074).
Proof. reflexivity. Qed.

Lemma Zdigits2_div_pow m n :
  0 <= n -> 0 < m / 2 ^ n -> Zdigits2 (m / 2 ^ n) = Zdigits2 m - n.
Proof.
  intros Hn Hq.
  assert (Hp : 0 < 2 ^ n) by (apply Z.pow_pos_nonneg; lia).
  assert (Hm : 0 < m).
  { destruct (Z_lt_le_dec 0 m); [done|].
    assert (m / 2 ^ n <= 0) by (apply Z.div_le_upper_bound; lia). lia. }
  pose proof (Zdigits2_bounds m Hm) as [Hlo Hhi].
  assert (Hge : 2 ^ n <= m).
  { destruct (Z_lt_le_dec m (2 ^ n)); [|done].
    rewrite Z.div_small in Hq by lia. lia. }
  assert (Hd : n + 1 <= Zdigits2 m) by (by apply Zdigits2_ge_pow).
  apply Zdigits2_unique; [|lia]. split.
  - apply Z.div_le_lower_bound; [done|].
    rewrite <- Z.pow_add_r by lia.
    replace (n + (Zdigits2 m - n - 1)) with (Zdigits2 m - 1) by lia. done.
  - apply Z.div_lt_upper_bound; [done|].
    rewrite <- Z.pow_add_r by lia.
    replace (n + (Zdigits2 m - n)) with (Zdigits2 m) by lia. done.
Qed.

Lemma binary_round_aux_normal s m e l s' m3 e3 :
  0 <= m ->
  e <= fexp prec emax (Zdigits2 m + e) ->
  binary_round_aux prec emax s m e l = S754_finite s' m3 e3 ->
  -1074 < e3 ->
  2 ^ 52 <= Zpos m3 < 2 ^ 53.
Proof.
  intros Hm Hpre Hres Hmin.
  destruct (binary_round_aux_spec s m e l Hm) as (m2 & Hm2 & Heq).
  cbv zeta in Hm2, Heq. rewrite Hres in Heq. clear Hres.
  set (e1 := Z.max e (fexp prec emax (Zdigits2 m + e))) in *.
  set (m1 := m / 2 ^ (e1 - e)) in *.
  set (e3' := Z.max e1 (fexp prec emax (Zdigits2 m2 + e1))) in *.
  assert (He1 : e1 = Z.max (Zdigits2 m + e - 53) (-1074)).
  { unfold e1. rewrite fexp_eq in *. lia. }
  assert (Hp1 : 0 < 2 ^ (e1 - e)) by (apply Z.pow_pos_nonneg; lia).
  assert (Hm1 : 0 <= m1) by (apply Z.div_pos; lia).
  assert (Hm1' : m1 < 2 ^ 53 /\ (-1074 < e1 -> 2 ^ 52 <= m1) /\
                 (m1 = 0 -> e1 = -1074)).
  { destruct (Z.eq_dec m1 0) as [Hz|Hnz].
    - rewrite Hz. split; [done|]. split; [|].
      + intros He. exfalso.
        destruct (Z.eq_dec m 0) as [->|]; [simpl in He1; rewrite fexp_eq in Hpre; simpl in Hpre; lia|].
        assert (m < 2 ^ (e1 - e)).
        { destruct (Z_lt_le_dec m (2 ^ (e1 - e))); [done|].
          assert (1 <= m1); [|lia]. apply Z.div_le_lower_bound; lia. }
        assert (Zdigits2 m <= e1 - e) by (apply Zdigits2_lt_pow; lia). lia.
      + intros _. destruct (Z_lt_le_dec (-1074) e1) as [He|]; [|lia]. exfalso.
        destruct (Z.eq_dec m 0) as [->|]; [simpl in He1; rewrite fexp_eq in Hpre; simpl in Hpre; lia|].
        assert (m < 2 ^ (e1 - e)).
        { destruct (Z_lt_le_dec m (2 ^ (e1 - e))); [done|].
          assert (1 <= m1); [|lia]. apply Z.div_le_lower_bound; lia. }
        assert (Zdigits2 m <= e1 - e) by (apply Zdigits2_lt_pow; lia). lia.
    - assert (Hpos : 0 < m1) by lia.
      assert (Hd : Zdigits2 m1 = Zdigits2 m - (e1 - e)).
      { apply Zdigits2_div_pow; [lia|done]. }
      pose proof (Zdigits2_bounds m1 Hpos) as [Hlo Hhi].
      split; [|split; [|lia]].
      + assert (Zdigits2 m1 <= 53) by lia.
        assert (2 ^ Zdigits2 m1 <= 2 ^ 53) by (apply Z.pow_le_mono_r; lia). lia.
      + intros He. assert (Zdigits2 m1 = 53) by lia.
        replace (Zdigits2 m1 - 1) with 52 in Hlo by lia. done. }
  destruct Hm1' as (Hlt & Hnorm & Hzero).
  assert (Hm2' : m2 <= 2 ^ 53) by lia.
  destruct (Z.eq_dec m2 (2 ^ 53)) as [Heq2|Hne2].
  - assert (Hd2 : Zdigits2 m2 = 54) by (rewrite Heq2; reflexivity).
    assert (He3 : e3' = e1 + 1) by (unfold e3'; rewrite fexp_eq, Hd2; lia).
    rewrite He3, Heq2 in Heq.
    replace (e1 + 1 - e1) with 1 in Heq by lia.
    change (2 ^ 53 / 2 ^ 1) with (Zpos (2 ^ 52)) in Heq.
    destruct (e1 + 1 <=? emax - prec); inversion Heq; subst. done.
  - assert (Hd2 : Zdigits2 m2 <= 53).
    { destruct (Z.eq_dec m2 0) as [->|]; [simpl; lia|].
      apply Zdigits2_lt_pow; lia. }
    assert (He3 : e3' = e1) by (unfold e3'; rewrite fexp_eq; lia).
    rewrite He3 in Heq. replace (e1 - e1) with 0 in Heq by lia.
    rewrite Z.div_1_r in Heq.
    destruct m2 as [|p2|p2]; try done.
    destruct (e1 <=? emax - prec); inversion Heq; subst.
    lia.
Qed.

Lemma SFdiv_core_binary_precise a ea b eb q e' l :
  SFdiv_core_binary prec emax (Zpos a) ea (Zpos b) eb = (q, e', l) ->
  0 <= q /\ e' <= fexp prec emax (Zdigits2 q + e').
Proof.
  unfold SFdiv_core_binary.
  set (da := Zdigits2 (Zpos a)). set (db := Zdigits2 (Zpos b)).
  set (X := da + ea - (db + eb)).
  set (e0 := Z.min (fexp prec emax X) (ea - eb)).
  set (s := ea - eb - e0).
  set (m' := match s with Z0 => Zpos a | Zpos _ => Z.shiftl (Zpos a) s | Zneg _ => 0 end).
  assert (Hs : 0 <= s) by (unfold s, e0; lia).
  assert (Hm' : m' = Zpos a * 2 ^ s).
  { unfold m'. destruct s as [|p|p] eqn:E; [simpl; lia| |lia].
    rewrite Z.shiftl_mul_pow2 by lia. done. }
  pose proof (Z.div_eucl_eq m' (Zpos b) ltac:(lia)) as Hdiv.
  pose proof (Z.mod_pos_bound m' (Zpos b) ltac:(lia)) as Hmod.
  unfold Z.modulo in Hmod.
  destruct (Z.div_eucl m' (Zpos b)) as [q0 r0] eqn:E. intros H. inversion H; subst q0 e'.
  clear H.
  assert (Hp : 0 < 2 ^ s) by (apply Z.pow_pos_nonneg; lia).
  assert (Hq : q = m' / Zpos b) by (unfold Z.div; rewrite E; done).
  assert (Hq0 : 0 <= q) by (rewrite Hq; apply Z.div_pos; lia).
  split; [done|].
  pose proof (Zdigits2_bounds (Zpos a) ltac:(lia)) as [Halo Hahi].
  pose proof (Zdigits2_bounds (Zpos b) ltac:(lia)) as [Hblo Hbhi].
  fold da in Halo, Hahi. fold db in Hblo, Hbhi.
  assert (1 <= da) by (apply Zdigits2_pos; lia).
  assert (1 <= db) by (apply Zdigits2_pos; lia).
  assert (He0 : e0 <= fexp prec emax X) by (unfold e0; lia).
  rewrite fexp_eq in *.
  assert (HX : X = da + s - db + e0) by (unfold s, X; lia).
  destruct (Z.eq_dec q 0) as [Hz|Hnz].
  - rewrite Hz. simpl.
    assert (Hlt : m' < Zpos b) by nia.
    assert (2 ^ (da - 1 + s) < 2 ^ db).
    { rewrite Z.pow_add_r by lia. nia. }
    assert (da - 1 + s < db).
    { apply (Z.pow_lt_mono_r_iff 2); lia. }
    lia.
  - assert (Hdq : da + s - db <= Zdigits2 q).
    { destruct (Z_lt_le_dec (da + s - db - 1) 0) as [Hneg|Hnn].
      - assert (1 <= Zdigits2 q) by (apply Zdigits2_pos; lia). lia.
      - assert (2 ^ (da + s - db - 1) <= q).
        { rewrite Hq. apply Z.div_le_lower_bound; [lia|].
          assert (2 ^ (da - 1 + s) = 2 ^ db * 2 ^ (da + s - db - 1)).
          { rewrite <- Z.pow_add_r by lia. f_equal. lia. }
          assert (2 ^ (da - 1 + s) <= m').
          { rewrite Z.pow_add_r by lia. nia. }
          assert (0 < 2 ^ (da + s - db - 1)) by (apply Z.pow_pos_nonneg; lia).
          nia. }
        pose proof (Zdigits2_ge_pow q (da + s - db - 1) Hnn ltac:(done)). lia. }
    lia.
Qed.

Lemma fdiv_finite_normal x y s m e :
  fdiv x y = S754_finite s m e -> -1074 < e -> 2 ^ 52 <= Zpos m < 2 ^ 53.
Proof.
  unfold fdiv, SFdiv. intros H He.
  destruct x as [sx|sx| |sx mx ex], y as [sy|sy| |sy my ey]; try discriminate.
  destruct (SFdiv_core_binary prec emax (Zpos mx) ex (Zpos my) ey) as [[q e'] l] eqn:E.
  apply SFdiv_core_binary_precise in E as [Hq Hpre].
  eapply binary_round_aux_normal; eauto.
Qed.

Lemma float_0_05 : float_of_Q 0.05 = S754_finite false 7205759403792794 (-57).
Proof. vm_compute. reflexivity. Qed.

Lemma float_0_95 : float_of_Q 0.95 = S754_finite false 8556839292003942 (-53).
Proof. vm_compute. reflexivity. Qed.

Lemma float_1 : float_of_Z 1 = S754_finite false 4503599627370496 (-52).
Proof. vm_compute. reflexivity. Qed.

Lemma flt_between y :
  flt (float_of_Q 0.05) y = true -> flt y (float_of_Q 0.95) = true ->
  exists m e, y = S754_finite false m e /\ -57 <= e <= -53.
Proof.
  rewrite float_0_05, float_0_95. unfold flt, SFltb, SFcompare.
  destruct y as [s|s| |s m e]; try discriminate.
  - destruct s; discriminate.
  - destruct s; [discriminate|]. intros H1 H2. exists m, e. split; [done|].
    destruct (Z.compare_spec (-57) e), (Z.compare_spec e (-53)); try discriminate; lia.
Qed.

Lemma round_half_even_bounds q :
  Qfloor q <= round_half_even q <= Qfloor q + 1.
Proof.
  unfold round_half_even.
  destruct (Qcompare _ _); [destruct (Z.even _)| |]; lia.
Qed.

Lemma new_odds_in_range m e :
  2 ^ 52 <= Zpos m < 2 ^ 53 -> -57 <= e <= -53 ->
  is_Some (Decimal_str_round (fdiv (float_of_Z 1) (S754_finite false m e)) 2).
Proof.
  intros Hm He. rewrite float_1. unfold fdiv, SFdiv.
  change (xorb false false) with false.
  destruct (SFdiv_core_binary prec emax 4503599627370496 (-52) (Zpos m) e)
    as [[q e'] l] eqn:E.
  assert (Hq : 0 <= q <= 2 ^ 53 /\ e' = -105 - e).
  { revert E. unfold SFdiv_core_binary.
    assert (Hd : Zdigits2 (Zpos m) = 53) by (apply Zdigits2_unique; [done|lia]).
    rewrite Hd. change (Zdigits2 4503599627370496) with 53.
    rewrite fexp_eq.
    replace (Z.min (Z.max (53 + -52 - (53 + e) - 53) (-1074)) (-52 - e))
      with (-105 - e) by lia.
    replace (-52 - e - (-105 - e)) with 53 by lia.
    change (Z.shiftl 4503599627370496 53) with (2 ^ 105).
    pose proof (Z.div_eucl_eq (2 ^ 105) (Zpos m) ltac:(lia)) as Hdiv.
    pose proof (Z.mod_pos_bound (2 ^ 105) (Zpos m) ltac:(lia)) as Hmod.
    unfold Z.modulo in Hmod.
    destruct (Z.div_eucl (2 ^ 105) (Zpos m)) as [q0 r0].
    intros H; inversion H; subst. split; [|done].
    change (2 ^ 105) with (2 ^ 52 * 2 ^ 53) in Hdiv. nia. }
  destruct Hq as [Hq ->].
  destruct (binary_round_aux_spec false q (-105 - e) l ltac:(lia)) as (m2 & Hm2 & Heq).
  cbv zeta in Hm2, Heq. rewrite Heq. clear Heq E.
  set (e1 := Z.max (-105 - e) (fexp prec emax (Zdigits2 q + (-105 - e)))) in *.
  set (e3 := Z.max e1 (fexp prec emax (Zdigits2 m2 + e1))) in *.
  assert (Hdq : Zdigits2 q <= 54).
  { destruct (Z.eq_dec q 0) as [->|]; [simpl; lia|].
    apply Zdigits2_lt_pow; [lia|]. change (2 ^ 54) with (2 * 2 ^ 53). lia. }
  pose proof (Zdigits2_nonneg q).
  assert (He1 : -105 - e <= e1 <= -104 - e) by (unfold e1; rewrite fexp_eq; lia).
  assert (Hp1 : 0 < 2 ^ (e1 - (-105 - e))) by (apply Z.pow_pos_nonneg; lia).
  assert (Hm1 : 0 <= q / 2 ^ (e1 - (-105 - e)) <= 2 ^ 53).
  { split; [apply Z.div_pos; lia|].
    apply Z.div_le_upper_bound; [lia|]. nia. }
  assert (Hm2' : 0 <= m2 <= 2 ^ 53 + 1) by lia.
  assert (Hdm2 : Zdigits2 m2 <= 54).
  { destruct (Z.eq_dec m2 0) as [->|]; [simpl; lia|].
    apply Zdigits2_lt_pow; [lia|]. change (2 ^ 54) with (2 * 2 ^ 53).
    change (2 ^ 53) with 9007199254740992 in *. lia. }
  pose proof (Zdigits2_nonneg m2).
  assert (He3 : e1 <= e3 <= -46) by (unfold e3; rewrite fexp_eq; lia).
  assert (Hp3 : 0 < 2 ^ (e3 - e1)) by (apply Z.pow_pos_nonneg; lia).
  assert (Hm3 : 0 <= m2 / 2 ^ (e3 - e1) <= 2 ^ 53 + 1).
  { split; [apply Z.div_pos; lia|].
    apply Z.div_le_upper_bound; [lia|]. nia. }
  destruct (m2 / 2 ^ (e3 - e1)) as [|m3|m3] eqn:E3; [by eexists | |lia].
  replace (e3 <=? emax - prec) with true
    by (symmetry; apply Z.leb_le; unfold emax, prec; lia).
  unfold Decimal_str_round, Q_of_float.
  destruct e3 as [|p|p] eqn:Ep; [lia|lia|].
  set (v := (Zpos m3 # 2 ^ p)%Q).
  pose proof (round_half_even_bounds (v * inject_Z (Zpos (10 ^ 2)))) as Hr.
  assert (Hf : 0 <= Qfloor (v * inject_Z (Zpos (10 ^ 2))) <= 25600).
  { unfold Qfloor, v, Qmult, inject_Z. cbn [Qnum Qden].
    assert (Hpow : 2 ^ 46 <= Zpos (2 ^ p * 1)).
    { rewrite Pos.mul_1_r, Pos2Z.inj_pow. apply Z.pow_le_mono_r; lia. }
    split; [apply Z.div_pos; lia|].
    apply Z.div_le_upper_bound; [lia|].
    change (Zpos (10 ^ 2)) with 100.
    change (2 ^ 53) with 9007199254740992 in *.
    change (2 ^ 46) with 70368744177664 in *. nia. }
  assert (Hk : (Z.abs (round_half_even (v * inject_Z (Zpos (10 ^ 2)))) <? 10 ^ 15) = true).
  { apply Z.ltb_lt. change (2 ^ 53) with 9007199254740992 in *.
    change (10 ^ 15) with 1000000000000000. lia. }
  rewrite Hk. by eexists.
Qed.

Lemma float_of_Q_Qeq (q q' : Q) : (q == q')%Q -> float_of_Q q = float_of_Q q'.
Proof. intros H. unfold float_of_Q. by rewrite (Qred_complete _ _ H). Qed.

Lemma new_odds_Qeq (q q' : Q) : (q == q')%Q -> new_odds q = new_odds q'.
Proof.
  intros H. unfold new_odds, implied_probability.
  by rewrite (float_of_Q_Qeq _ _ H).
Qed.

(** The odds engine always produces a two-decimal value: the float it
    rounds lies between 1 and 64. *)
Lemma Decimal_str_round_new_odds (backed : Decimal) :
  is_Some (Decimal_str_round (new_odds backed) 2).
Proof.
  unfold new_odds, implied_probability, py_min, py_max.
  set (y := fdiv (float_of_Q backed) (float_of_Z 100)).
  destruct (flt y (float_of_Q 0.95)) eqn:H1.
  - destruct (flt (float_of_Q 0.05) y) eqn:H2.
    + destruct (flt_between y H2 H1) as (m & e & Hy & He).
      rewrite Hy. apply new_odds_in_range; [|done].
      apply (fdiv_finite_normal _ _ _ _ _ Hy). lia.
    + vm_compute. by eexists.
  - vm_compute. by eexists.
Qed.

(** ** Comparing floats that are not NaN *)

Lemma binary_round_aux_not_nan s m e l :
  0 <= m -> is_nan (binary_round_aux prec emax s m e l) = false.
Proof.
  intros Hm. destruct (binary_round_aux_spec s m e l Hm) as (m2 & Hm2 & ->).
  cbv zeta in Hm2.
  set (e1 := Z.max e (fexp prec emax (Zdigits2 m + e))) in *.
  set (e3 := Z.max e1 (fexp prec emax (Zdigits2 m2 + e1))).
  assert (0 <= m / 2 ^ (e1 - e)).
  { apply Z.div_pos; [done|]. apply Z.pow_pos_nonneg; lia. }
  assert (0 <= m2 / 2 ^ (e3 - e1)).
  { apply Z.div_pos; [lia|]. apply Z.pow_pos_nonneg; lia. }
  destruct (m2 / 2 ^ (e3 - e1)); [done| |lia].
  by destruct (_ <=? _).
Qed.

Lemma div_round_not_nan s n d : is_nan (div_round s n d) = false.
Proof.
  unfold div_round.
  destruct (SFdiv_core_binary prec emax (Zpos n) 0 (Zpos d) 0) as [[q e] l] eqn:E.
  apply SFdiv_core_binary_precise in E as [Hq _].
  by apply binary_round_aux_not_nan.
Qed.

Lemma float_of_Q_not_nan q : is_nan (float_of_Q q) = false.
Proof.
  unfold float_of_Q. destruct (Qnum (Qred q)); [done|..]; apply div_round_not_nan.
Qed.

Lemma SFcompare_antisym a b :
  SFcompare b a = CompOpp <$> SFcompare a b.
Proof.
  destruct a as [sa|sa| |sa ma ea], b as [sb|sb| |sb mb eb]; simpl; try done;
    try (by destruct sa); try (by destruct sb); try (by destruct sa, sb).
  destruct sa, sb; simpl; try done.
  - rewrite (Z.compare_antisym ea eb). destruct (ea ?= eb); simpl; try done.
    rewrite (Pos.compare_cont_antisym ma mb Eq). done.
  - rewrite (Z.compare_antisym ea eb). destruct (ea ?= eb); simpl; try done.
    rewrite (Pos.compare_cont_antisym ma mb Eq). simpl.
    by destruct (Pos.compare_cont Eq ma mb).
Qed.

Lemma SFcompare_is_Some a b :
  is_nan a = false -> is_nan b = false -> is_Some (SFcompare a b).
Proof.
  destruct a as [sa|sa| |sa ma ea], b as [sb|sb| |sb mb eb]; simpl; try done;
    intros _ _; by eexists.
Qed.

Lemma flt_trichotomy a b :
  is_nan a = false -> is_nan b = false ->
  flt a b = true \/ feq a b = true \/ flt b a = true.
Proof.
  intros Ha Hb. unfold flt, feq, SFltb, SFeqb.
  rewrite (SFcompare_antisym a b).
  destruct (SFcompare_is_Some a b Ha Hb) as [c ->]. destruct c; simpl; eauto.
Qed.

Lemma feq_flt a b : feq a b = true -> flt a b = false /\ flt b a = false.
Proof.
  unfold flt, feq, SFltb, SFeqb. rewrite (SFcompare_antisym a b).
  destruct (SFcompare a b) as [[]|]; simpl; done.
Qed.

Lemma flt_asym a b : flt a b = true -> flt b a = false.
Proof.
  unfold flt, SFltb. rewrite (SFcompare_antisym a b).
  destruct (SFcompare a b) as [[]|]; simpl; done.
Qed.

Lemma feq_sym a b : feq a b = feq b a.
Proof.
  unfold feq, SFeqb. rewrite (SFcompare_antisym a b).
  destruct (SFcompare a b) as [[]|]; simpl; done.
Qed.

Lemma feq_spec a b :
  feq a b = true <->
  (exists sa sb, a = S754_zero sa /\ b = S754_zero sb) \/
  (a = b /\ is_nan a = false).
Proof.
  unfold feq, SFeqb. split.
  - destruct a as [sa|sa| |sa ma ea], b as [sb|sb| |sb mb eb]; simpl; try done;
      try (by destruct sa); try (by destruct sb).
    + eauto.
    + destruct sa, sb; try done; by right.
    + change (Pos.compare_cont Eq ma mb) with (Pos.compare ma mb).
      destruct sa, sb; simpl; try done;
        destruct (Z.compare_spec ea eb); try done; subst;
        destruct (Pos.compare_spec ma mb); try done; subst; by right.
  - intros [(sa & sb & -> & ->)|[<- Hn]]; [done|].
    destruct a as [sa|sa| |sa ma ea]; simpl; try done.
    + by destruct sa.
    + change (Pos.compare_cont Eq ma ma) with (Pos.compare ma ma).
      destruct sa; rewrite Z.compare_refl, Pos.compare_refl; done.
Qed.

Lemma feq_refl a : is_nan a = false -> feq a a = true.
Proof. intros H. apply feq_spec. by right. Qed.

Lemma feq_trans a b c : feq a b = true -> feq b c = true -> feq a c = true.
Proof.
  rewrite !feq_spec.
  intros [(sa & sb & -> & ->)|[<- Ha]] [(sb' & sc & Hb & ->)|[<- Hb]].
  - left. eauto.
  - left. eauto.
  - left. subst. eauto.
  - by right.
Qed.

Lemma feq_not_nan a b : feq a b = true -> is_nan a = false /\ is_nan b = false.
Proof.
  rewrite feq_spec. intros [(sa & sb & -> & ->)|[<- Ha]]; done.
Qed.

Lemma feq_congr x k k' : feq k k' = true -> feq x k = feq x k'.
Proof.
  intros H. destruct (feq x k) eqn:E1, (feq x k') eqn:E2; try done.
  - rewrite (feq_trans _ _ _ E1 H) in E2. done.
  - rewrite feq_sym in H. rewrite (feq_trans _ _ _ E2 H) in E1. done.
Qed.

(** ** Insertion sort *)

Section InsertionSort.
Context {A : Type} (lt : A -> A -> bool).

Lemma insert_sorted_Permutation x l : insert_sorted lt x l ≡ₚ x :: l.
Proof.
  induction l as [|y l IH]; simpl; [done|].
  destruct (lt y x); [|done]. rewrite IH. apply Permutation_swap.
Qed.

Lemma sorted_Permutation l : sorted lt l ≡ₚ l.
Proof.
  induction l as [|x l IH]; simpl; [done|].
  by rewrite insert_sorted_Permutation, IH.
Qed.

Lemma insert_sorted_HdRel (R : A -> A -> Prop) x y l :
  R y x -> HdRel R y l -> HdRel R y (insert_sorted lt x l).
Proof.
  intros Hyx Hhd. destruct l as [|z l]; simpl; [by constructor|].
  inversion Hhd; subst. destruct (lt z x); by constructor.
Qed.

Lemma insert_sorted_Sorted (R : A -> A -> Prop) x l :
  Forall (decides lt R x) l -> Sorted R l -> Sorted R (insert_sorted lt x l).
Proof.
  induction l as [|y l IH]; intros Hall Hs; simpl.
  - by repeat constructor.
  - inversion Hall as [|? ? (_ & _ & Hy1 & Hy2) Hall']; subst.
    inversion Hs as [|? ? Hs' Hhd]; subst.
    destruct (lt y x) eqn:Hyx.
    + constructor; [by apply IH|]. apply insert_sorted_HdRel; auto.
    + constructor; [done|]. constructor. auto.
Qed.

Lemma sorted_Sorted (R : A -> A -> Prop) l :
  ForallOrdPairs (decides lt R) l -> Sorted R (sorted lt l).
Proof.
  induction 1 as [|x l Hx _ IH]; simpl; [constructor|].
  apply insert_sorted_Sorted; [|done]. by rewrite sorted_Permutation.
Qed.

(** With a total preorder behind [lt], every element precedes all the
    later ones. *)
Context (le : A -> A -> Prop).
Context (Hle : forall x y, lt y x = false -> le x y).
Context (Hlt : forall x y, lt y x = true -> le y x).
Context (Htrans : forall x y z, le x y -> le y z -> le x z).

Lemma insert_sorted_StronglySorted x l :
  StronglySorted le l -> StronglySorted le (insert_sorted lt x l).
Proof.
  induction l as [|y l IH]; intros Hs; simpl.
  - by repeat constructor.
  - inversion Hs as [|? ? Hs' Hall]; subst.
    destruct (lt y x) eqn:Hyx.
    + constructor; [by apply IH|].
      rewrite insert_sorted_Permutation. constructor; [by apply Hlt|done].
    + constructor; [done|]. constructor; [by apply Hle|].
      eapply Forall_impl; [exact Hall|]. intros z Hz.
      eapply Htrans; [by apply Hle|done].
Qed.

Lemma sorted_StronglySorted l : StronglySorted le (sorted lt l).
Proof.
  induction l as [|x l IH]; simpl; [constructor|].
  by apply insert_sorted_StronglySorted.
Qed.
End InsertionSort.

Lemma sorted_reverse_Permutation {A : Type} (lt : A -> A -> bool) l :
  sorted_reverse lt l ≡ₚ l.
Proof.
  unfold sorted_reverse.
  by rewrite reverse_Permutation, sorted_Permutation, reverse_Permutation.
Qed.

Lemma ForallOrdPairs_snoc {A : Type} (R : A -> A -> Prop) l x :
  ForallOrdPairs R l -> Forall (fun a => R a x) l -> ForallOrdPairs R (l ++ [x]).
Proof.
  induction 1 as [|a l Ha Hl IH]; intros Hx; simpl.
  - repeat constructor.
  - inversion Hx; subst. constructor; [|by apply IH].
    apply Forall_app. split; [done|]. by constructor.
Qed.

Lemma ForallOrdPairs_map {A : Type} (R : A -> A -> Prop) (f : A -> A) l :
  (forall a b, R a b -> R (f a) (f b)) ->
  ForallOrdPairs R l -> ForallOrdPairs R (map f l).
Proof.
  intros Hf. induction 1 as [|a l Ha Hl IH]; simpl; constructor; [|done].
  apply Forall_forall. intros y Hy. apply list_elem_of_In, in_map_iff in Hy
    as (b & <- & Hb).
  apply Hf. rewrite Forall_forall in Ha. apply Ha. by apply list_elem_of_In.
Qed.

Lemma ForallOrdPairs_impl_in {A : Type} (R R' : A -> A -> Prop) l :
  (forall a b, a ∈ l -> b ∈ l -> R a b -> R' a b) ->
  ForallOrdPairs R l -> ForallOrdPairs R' l.
Proof.
  intros Himpl H. induction H as [|a l Ha Hl IH]; constructor.
  - apply Forall_forall. intros b Hb. apply Himpl; [by left|by right|].
    rewrite Forall_forall in Ha. by apply Ha.
  - apply IH. intros x y Hx Hy. apply Himpl; by right.
Qed.

Lemma ForallOrdPairs_reverse {A : Type} (R : A -> A -> Prop) l :
  (forall a b, R a b -> R b a) ->
  ForallOrdPairs R l -> ForallOrdPairs R (reverse l).
Proof.
  intros Hsym. induction 1 as [|a l Ha Hl IH]; [constructor|].
  rewrite reverse_cons. apply ForallOrdPairs_snoc; [done|].
  rewrite Forall_reverse. eapply Forall_impl; [exact Ha|]. auto.
Qed.

(** ** The odds engine as a map over the outcomes *)

Lemma map_mapM_Return {A : Type} (f : A -> result A) (g : A -> A)
    (table : gmap UUID A) :
  (forall id row, table !! id = Some row -> f row = Return (g row)) ->
  map_mapM f table = Return (g <$> table).
Proof.
  unfold map_mapM.
  apply (map_fold_weak_ind
    (fun r (m : gmap UUID A) =>
       (forall id row, m !! id = Some row -> f row = Return (g row)) ->
       r = Return (g <$> m))).
  - intros _. by rewrite fmap_empty.
  - intros id row m r Hfresh IH Hall.
    rewrite IH.
    + simpl. rewrite (Hall id row) by apply lookup_insert_eq. simpl.
      by rewrite fmap_insert.
    + intros id' row' Hl. apply (Hall id').
      rewrite lookup_insert_ne; [done|]. intros ->. congruence.
Qed.

Lemma recompute_odds_Return (market_id : UUID) (o : MarketOutcome) :
  (if decide (o_market_id o = market_id) then recompute_odds o else Return o)
  = Return (odds_after market_id o).
Proof.
  unfold odds_after, recompute_odds.
  destruct (decide _); [|done].
  destruct (Qlt_le_dec _ _); [|done].
  by destruct (Decimal_str_round_new_odds (total_backed o)) as [d ->].
Qed.

Lemma update_market_odds_eq (market_id : UUID) (db : State) :
  update_market_odds market_id db
  = set_market_outcomes (odds_after market_id <$> market_outcomes db) db.
Proof.
  unfold update_market_odds.
  rewrite (map_mapM_Return _ (odds_after market_id)); [done|].
  intros id row _. apply recompute_odds_Return.
Qed.

Lemma odds_after_market (market_id : UUID) (o : MarketOutcome) :
  o_market_id (odds_after market_id o) = o_market_id o.
Proof.
  unfold odds_after. repeat case_match; done.
Qed.

Lemma odds_after_total_backed (market_id : UUID) (o : MarketOutcome) :
  total_backed (odds_after market_id o) = total_backed o.
Proof.
  unfold odds_after. repeat case_match; done.
Qed.

Lemma odds_after_is_winner (market_id : UUID) (o : MarketOutcome) :
  is_winner (odds_after market_id o) = is_winner o.
Proof.
  unfold odds_after. repeat case_match; done.
Qed.

Lemma odds_after_spec market_uuid o :
  o_market_id o = market_uuid ->
  total_backed (odds_after market_uuid o) = total_backed o /\
  ((0 < total_backed o)%Q ->
     Decimal_str_round (new_odds (total_backed o)) 2
     = Some (current_odds (odds_after market_uuid o))) /\
  (~ (0 < total_backed o)%Q -> odds_after market_uuid o = o).
Proof.
  intros Hm. split; [apply odds_after_total_backed|].
  unfold odds_after. rewrite decide_True by done.
  destruct (Qlt_le_dec 0 (total_backed o)) as [Hpos|Hle].
  - destruct (Decimal_str_round_new_odds (total_backed o)) as [d Hd].
    rewrite Hd. split; [done|]. intros Hn. by destruct Hn.
  - split; [|done]. intros Hpos. exfalso. by apply (Qlt_not_le _ _ Hpos).
Qed.

Lemma odds_at_100 : Decimal_str_round (new_odds 100) 2 = Some (105 # 100)%Q.
Proof. vm_compute. reflexivity. Qed.

Lemma odds_at_50 : Decimal_str_round (new_odds 50) 2 = Some (200 # 100)%Q.
Proof. vm_compute. reflexivity. Qed.

(** The value the formula would give at 0, which the engine never uses. *)
Lemma odds_at_0 : Decimal_str_round (new_odds 0) 2 = Some (2000 # 100)%Q.
Proof. vm_compute. reflexivity. Qed.

(** ** Placing a position: when a call succeeds and what it commits *)

Lemma inserted_position_counts (user_id : string) (market_id id : UUID)
    (p : MarketPosition) (db : State) :
  clerk_user_id p = user_id -> p_market_id p = market_id ->
  user_has_positions_in_market user_id market_id
    (set_market_positions (<[id := p]> (market_positions db)) db) = true.
Proof.
  intros Hu Hm. unfold user_has_positions_in_market. apply bool_decide_eq_true.
  simpl. set (t := filter _ _).
  assert (Hin : t !! id = Some p).
  { apply map_lookup_filter_Some. split; [apply lookup_insert_eq|done]. }
  destruct (size t) eqn:E; [|lia].
  apply map_size_empty_iff in E. rewrite E in Hin. by rewrite lookup_empty in Hin.
Qed.

Lemma place_position_try_Return market_id position_data current_user env db
    response db' :
  place_position_try market_id position_data current_user env db
    = Return (response, db') ->
  exists market_uuid outcome_id market profile_id stake odds position_type,
    market_id = UUIDText market_uuid /\
    pd_outcome_id position_data = Some (UUIDText outcome_id) /\
    markets db !! market_uuid = Some market /\
    m_status market = "open" /\
    user_profiles db !! current_user = Some profile_id /\
    pd_stake position_data = Some (DecimalText stake) /\
    pd_odds position_data = Some (DecimalText odds) /\
    pd_position_type position_data = Some position_type /\
    (0 < stake)%Q /\
    market_positions db !! uuid4 env 0 = None /\
    response = {| pp_id := uuid4 env 0; pp_status := "success";
                  pp_potential_payout :=
                    float_of_Q (payout position_type stake odds) |} /\
    db' = update_market_odds market_uuid
            (placed market_uuid outcome_id market current_user profile_id
                    position_type stake odds env db).
Proof.
  unfold place_position_try.
  destruct market_id as [market_uuid|]; [|discriminate]. simpl.
  destruct (pd_outcome_id position_data) as [[outcome_id|]|]; try discriminate. simpl.
  destruct (markets db !! market_uuid) as [market|] eqn:Hmarket; [|discriminate].
  destruct (decide (m_status market = "open")) as [Hopen|]; [|discriminate]. simpl.
  destruct (user_profiles db !! current_user) as [profile_id|] eqn:Hprofile;
    [|discriminate]. simpl.
  destruct (pd_stake position_data) as [[stake|]|]; try discriminate. simpl.
  destruct (pd_odds position_data) as [[odds|]|]; try discriminate. simpl.
  destruct (pd_position_type position_data) as [position_type|]; [|discriminate]. simpl.
  destruct (Qle_bool stake 0) eqn:Hstake; [discriminate|].
  unfold add_row.
  destruct (market_positions db !! uuid4 env 0) eqn:Hfresh; [discriminate|]. simpl.
  intros H. inversion H; subst response db'. clear H.
  exists market_uuid, outcome_id, market, profile_id, stake, odds, position_type.
  repeat (split; [done|]).
  split.
  { destruct (Qlt_le_dec 0 stake) as [|Hle]; [done|].
    apply Qle_bool_iff in Hle. congruence. }
  repeat (split; [done|]).
  f_equal. unfold placed, set_markets, set_market_outcomes. simpl.
  rewrite inserted_position_counts by done.
  rewrite orb_false_r. done.
Qed.

Lemma place_position_Return market_id position_data current_user env db
    response db' :
  place_position market_id position_data current_user env db
    = (Return response, db') ->
  place_position_try market_id position_data current_user env db
    = Return (response, db').
Proof.
  unfold place_position.
  destruct (place_position_try _ _ _ _ _) as [[r d]|e].
  - intros H. by inversion H.
  - destruct e; discriminate.
Qed.

Lemma place_position_Raise market_id position_data current_user env db e :
  place_position_try market_id position_data current_user env db = Raise e ->
  rejected (place_position market_id position_data current_user env db) db.
Proof.
  unfold place_position, rejected. intros ->.
  destruct e; eauto.
Qed.


Lemma place_position_state market_id position_data current_user env db :
  (place_position market_id position_data current_user env db).2 = db \/
  exists response db',
    place_position_try market_id position_data current_user env db
      = Return (response, db') /\
    (place_position market_id position_data current_user env db).2 = db'.
Proof.
  unfold place_position.
  destruct (place_position_try _ _ _ _ _) as [[r d]|e] eqn:E.
  - right. by exists r, d.
  - left. by destruct e.
Qed.

Lemma place_position_volume market_uuid position_data current_user env db
    response db' market :
  place_position (UUIDText market_uuid) position_data current_user env db
    = (Return response, db') ->
  markets db !! market_uuid = Some market ->
  exists stake market',
    pd_stake position_data = Some (DecimalText stake) /\
    markets db' !! market_uuid = Some market' /\
    total_volume market' = (total_volume market + stake)%Q /\
    participant_count market' =
      (if bool_decide (participant_count market = 0) then 1
       else participant_count market) /\
    m_status market' = m_status market.
Proof.
  intros H Hm. apply place_position_Return, place_position_try_Return in H
    as (M & O & market0 & profile & stk & od & pt & Hid & _ & Hm0 & _ & _ & Hs & _
        & _ & _ & _ & _ & ->).
  inversion Hid; subst M. rewrite Hm in Hm0. inversion Hm0; subst market0.
  eexists stk, _. split; [done|]. rewrite update_market_odds_eq. simpl.
  split; [apply lookup_insert_eq|]. simpl. split; [done|]. split; [|done].
  case_bool_decide as Hz; [by rewrite Hz|done].
Qed.

(** After a successful placement the count is 1 if it was 0, and is
    otherwise what it was: the query behind
    [user_has_positions_in_market] already sees the position being placed. *)
Lemma place_position_participants market_uuid position_data current_user env db
    response db' market :
  place_position (UUIDText market_uuid) position_data current_user env db
    = (Return response, db') ->
  markets db !! market_uuid = Some market ->
  exists market',
    markets db' !! market_uuid = Some market' /\
    participant_count market' =
      (if bool_decide (participant_count market = 0) then 1
       else participant_count market).
Proof.
  intros H Hm.
  destruct (place_position_volume _ _ _ _ _ _ _ _ H Hm)
    as (stk & market' & _ & Hm' & _ & Hc & _).
  by exists market'.
Qed.



(** ** Resolving a market: when a call succeeds and what it commits *)

Lemma resolve_market_try_Return market_id resolution_data current_user env db
    response db' :
  resolve_market_try market_id resolution_data current_user env db
    = Return (response, db') ->
  exists market_uuid market winner,
    market_id = UUIDText market_uuid /\
    markets db !! market_uuid = Some market /\
    creator_clerk_id market = current_user /\
    m_status market = "closed" /\
    rd_winning_outcome_id resolution_data = UUIDText <$> winner /\
    response = {| rs_status := "success";
                  rs_resolution_value := rd_resolution_value resolution_data |} /\
    db' = process_market_payouts market_uuid env
            (resolved market_uuid market winner
                      (rd_resolution_value resolution_data) env db).
Proof.
  unfold resolve_market_try.
  destruct market_id as [market_uuid|]; [|discriminate]. simpl.
  destruct (markets db !! market_uuid) as [market|] eqn:Hmarket; [|discriminate].
  simpl.
  destruct (bool_decide (creator_clerk_id market = current_user)) eqn:Hcreator;
    [|discriminate].
  destruct (bool_decide (m_status market = "closed")) eqn:Hclosed; [|discriminate].
  apply bool_decide_eq_true in Hcreator, Hclosed. simpl.
  destruct (rd_winning_outcome_id resolution_data) as [[w|]|] eqn:Hw;
    try discriminate; simpl; intros H; inversion H; subst response db'; clear H.
  - exists market_uuid, market, (Some w). done.
  - exists market_uuid, market, None. done.
Qed.

Lemma resolve_market_Return market_id resolution_data current_user env db
    response db' :
  resolve_market market_id resolution_data current_user env db
    = (Return response, db') ->
  resolve_market_try market_id resolution_data current_user env db
    = Return (response, db').
Proof.
  unfold resolve_market.
  destruct (resolve_market_try _ _ _ _ _) as [[r d]|e].
  - intros H. by inversion H.
  - destruct e; discriminate.
Qed.

Lemma resolve_market_Raise market_id resolution_data current_user env db e :
  resolve_market_try market_id resolution_data current_user env db = Raise e ->
  rejected (resolve_market market_id resolution_data current_user env db) db.
Proof.
  unfold resolve_market, rejected. intros ->. destruct e; eauto.
Qed.

Lemma resolve_market_succeeds market_uuid market winner value current_user env db :
  markets db !! market_uuid = Some market ->
  creator_clerk_id market = current_user ->
  m_status market = "closed" ->
  resolve_market (UUIDText market_uuid)
    {| rd_winning_outcome_id := UUIDText <$> winner; rd_resolution_value := value |}
    current_user env db
  = (Return {| rs_status := "success"; rs_resolution_value := value |},
     process_market_payouts market_uuid env
       (resolved market_uuid market winner value env db)).
Proof.
  intros Hmarket Hcreator Hclosed.
  unfold resolve_market, resolve_market_try. simpl. rewrite Hmarket. simpl.
  rewrite (bool_decide_eq_true_2 _ Hcreator), (bool_decide_eq_true_2 _ Hclosed).
  simpl. by destruct winner.
Qed.

Lemma resolve_market_state market_id resolution_data current_user env db :
  (resolve_market market_id resolution_data current_user env db).2 = db \/
  exists response db',
    resolve_market_try market_id resolution_data current_user env db
      = Return (response, db') /\
    (resolve_market market_id resolution_data current_user env db).2 = db'.
Proof.
  unfold resolve_market.
  destruct (resolve_market_try _ _ _ _ _) as [[r d]|e] eqn:E.
  - right. by exists r, d.
  - left. by destruct e.
Qed.

Lemma resolve_market_not_creator market_uuid market resolution_data current_user
    env db :
  markets db !! market_uuid = Some market ->
  creator_clerk_id market <> current_user ->
  resolve_market (UUIDText market_uuid) resolution_data current_user env db
  = (Raise (HTTPException 500
             (FailedWith "Failed to resolve market: "
                (HTTPException 403 (Detail "Only market creator can resolve")))),
     db).
Proof.
  intros Hm Hc. unfold resolve_market, resolve_market_try. simpl.
  rewrite Hm. simpl. by rewrite (bool_decide_eq_false_2 _ Hc).
Qed.

Lemma resolve_market_not_closed market_uuid market resolution_data current_user
    env db :
  markets db !! market_uuid = Some market ->
  creator_clerk_id market = current_user ->
  m_status market <> "closed" ->
  resolve_market (UUIDText market_uuid) resolution_data current_user env db
  = (Raise (HTTPException 500
             (FailedWith "Failed to resolve market: "
                (HTTPException 400 (Detail "Market must be closed to resolve")))),
     db).
Proof.
  intros Hm Hc Hs. unfold resolve_market, resolve_market_try. simpl.
  rewrite Hm. simpl.
  by rewrite (bool_decide_eq_true_2 _ Hc), (bool_decide_eq_false_2 _ Hs).
Qed.

Lemma process_market_payouts_positions market_id env db :
  market_positions (process_market_payouts market_id env db) = market_positions db \/
  exists winner_id o,
    winning_outcomes market_id db = [(winner_id, o)] /\
    market_positions (process_market_payouts market_id env db)
    = (fun p => if decide (is_winning_position market_id winner_id p)
                then set_settled (utcnow env) p else p) <$> market_positions db.
Proof.
  unfold process_market_payouts.
  destruct (winning_outcomes market_id db) as [|[w o] [|]] eqn:E; simpl; eauto.
Qed.

Lemma process_market_payouts_frame market_id env db :
  markets (process_market_payouts market_id env db) = markets db /\
  market_outcomes (process_market_payouts market_id env db) = market_outcomes db /\
  user_profiles (process_market_payouts market_id env db) = user_profiles db.
Proof.
  unfold process_market_payouts.
  destruct (scalar_one_or_none _) as [[[w o]|]|]; done.
Qed.

Lemma declared_outcomes_lookup market_uuid winner outcomes id :
  declared_outcomes market_uuid (Some winner) outcomes !! id =
    (fun o => if decide (id = winner)
              then set_is_winner true
                     (if decide (o_market_id o = market_uuid)
                      then set_is_winner false o else o)
              else if decide (o_market_id o = market_uuid)
                   then set_is_winner false o else o) <$> outcomes !! id.
Proof.
  unfold declared_outcomes.
  destruct (decide (id = winner)) as [->|Hne].
  - rewrite lookup_alter_eq, lookup_fmap. by destruct (outcomes !! winner).
  - rewrite lookup_alter_ne by done. rewrite lookup_fmap.
    by destruct (outcomes !! id).
Qed.

Lemma declared_outcomes_winner market_uuid winner outcomes o :
  outcomes !! winner = Some o -> o_market_id o = market_uuid ->
  filter (fun ko : UUID * MarketOutcome =>
            o_market_id ko.2 = market_uuid /\ is_winner ko.2 = Some true)
         (declared_outcomes market_uuid (Some winner) outcomes)
  = {[ winner := set_is_winner true (set_is_winner false o) ]}.
Proof.
  intros Ho Hm. apply map_eq. intros id. apply option_eq. intros x.
  rewrite map_lookup_filter_Some, lookup_singleton_Some, declared_outcomes_lookup.
  simpl. split.
  - intros (Hl & Hmx & Hwx).
    destruct (outcomes !! id) as [o'|] eqn:Ho'; [|done]. simpl in Hl.
    destruct (decide (id = winner)) as [->|Hne].
    + split; [done|]. rewrite Ho in Ho'. inversion Ho'; subst o'.
      rewrite decide_True in Hl by done. by inversion Hl.
    + inversion Hl; subst x. clear Hl.
      destruct (decide (o_market_id o' = market_uuid)); [discriminate|done].
  - intros [<- <-]. rewrite Ho. simpl.
    rewrite decide_True by done. by rewrite decide_True by done.
Qed.

Lemma declared_outcomes_one_winner market_uuid winner outcomes o db :
  outcomes !! winner = Some o -> o_market_id o = market_uuid ->
  market_outcomes db = declared_outcomes market_uuid (Some winner) outcomes ->
  exactly_one_winner market_uuid winner db /\
  winning_outcomes market_uuid db
  = [(winner, set_is_winner true (set_is_winner false o))].
Proof.
  intros Ho Hm Hdb.
  pose proof (declared_outcomes_winner _ _ _ _ Ho Hm) as Hf.
  split; [split|].
  - exists (set_is_winner true (set_is_winner false o)).
    rewrite Hdb, declared_outcomes_lookup, Ho. simpl.
    by rewrite !decide_True by done.
  - intros id x Hl Hmx Hwx. rewrite Hdb in Hl.
    assert (Hin : filter (fun ko : UUID * MarketOutcome =>
                    o_market_id ko.2 = market_uuid /\ is_winner ko.2 = Some true)
                    (declared_outcomes market_uuid (Some winner) outcomes)
                  !! id = Some x).
    { by apply map_lookup_filter_Some. }
    rewrite Hf in Hin. by apply lookup_singleton_Some in Hin as [? _].
  - unfold winning_outcomes. rewrite Hdb, Hf. apply map_to_list_singleton.
Qed.

(** ** Creating a market: what the call commits *)

Lemma add_outcomes_spec market_id env texts : forall i table table',
  add_outcomes market_id env i texts table = Return table' ->
  (forall id o, table !! id = Some o -> table' !! id = Some o) /\
  (forall id o, table' !! id = Some o ->
     table !! id = Some o \/
     (table !! id = None /\ exists j text, o = new_outcome market_id j text)).
Proof.
  induction texts as [|text rest IH]; intros i table table'; simpl.
  - intros H. inversion H; subst. split; eauto.
  - unfold add_row at 1.
    destruct (table !! uuid4 env (S i)) eqn:Hfresh; [discriminate|]. simpl.
    intros H. apply IH in H as [Hkeep Hnew]. split.
    + intros id o Hl. apply Hkeep. rewrite lookup_insert_ne; [done|].
      intros <-. congruence.
    + intros id o Hl. destruct (Hnew id o Hl) as [Hold|[Hnone Hfresh']].
      * destruct (decide (uuid4 env (S i) = id)) as [<-|Hne].
        -- rewrite lookup_insert_eq in Hold. inversion Hold; subst. eauto.
        -- rewrite lookup_insert_ne in Hold by done. eauto.
      * right. split; [|done].
        destruct (decide (uuid4 env (S i) = id)) as [<-|Hne].
        -- by rewrite lookup_insert_eq in Hnone.
        -- by rewrite lookup_insert_ne in Hnone.
Qed.

Lemma create_market_commit_Return market_data current_user env db
    market_id market db' :
  create_market_commit market_data current_user env db
    = Return (market_id, market, db') ->
  exists profile_id,
    user_profiles db !! current_user = Some profile_id /\
    market_id = uuid4 env 0 /\
    market = new_market market_data current_user profile_id env /\
    markets db !! market_id = None /\
    markets db' = <[market_id := market]> (markets db) /\
    market_positions db' = market_positions db /\
    user_profiles db' = user_profiles db /\
    (forall id o, market_outcomes db !! id = Some o ->
       market_outcomes db' !! id = Some o) /\
    (forall id o, market_outcomes db' !! id = Some o ->
       market_outcomes db !! id = Some o \/
       (market_outcomes db !! id = None /\
        exists j text, o = new_outcome market_id j text)).
Proof.
  unfold create_market_commit.
  destruct (user_profiles db !! current_user) as [profile_id|] eqn:Hp;
    [|discriminate]. simpl.
  unfold add_row.
  destruct (markets db !! uuid4 env 0) eqn:Hfresh; [discriminate|]. simpl.
  destruct (add_outcomes _ _ _ _ _) as [outcomes|] eqn:Hadd; [|discriminate].
  simpl. intros H. inversion H; subst. clear H.
  apply add_outcomes_spec in Hadd as [Hkeep Hnew].
  exists profile_id. simpl. repeat (split; [done|]). done.
Qed.

Lemma create_market_state market_data current_user env db :
  (create_market market_data current_user env db).2 = db \/
  exists market_id market db',
    create_market_commit market_data current_user env db
      = Return (market_id, market, db') /\
    (create_market market_data current_user env db).2 = db'.
Proof.
  unfold create_market.
  destruct (create_market_commit _ _ _ _) as [[[id m] d]|e] eqn:E.
  - right. exists id, m, d. split; [done|]. by destruct (redis_ok env).
  - by left.
Qed.

(** ** The order book: rows, dictionaries, levels *)

Lemma orderbook_rows_spec market_uuid outcome_uuid db :
  (length (orderbook_rows market_uuid outcome_uuid db) <= 100)%nat /\
  (forall id p, (id, p) ∈ orderbook_rows market_uuid outcome_uuid db ->
     market_positions db !! id = Some p /\ p_market_id p = market_uuid /\
     p_outcome_id p = outcome_uuid /\ p_status p = "open") /\
  (forall id p,
     market_positions db !! id = Some p -> p_market_id p = market_uuid ->
     p_outcome_id p = outcome_uuid -> p_status p = "open" ->
     (id, p) ∉ orderbook_rows market_uuid outcome_uuid db ->
     length (orderbook_rows market_uuid outcome_uuid db) = 100%nat /\
     forall id' p', (id', p') ∈ orderbook_rows market_uuid outcome_uuid db ->
                    p_created_at p <= p_created_at p').
Proof.
  unfold orderbook_rows.
  set (rows := map_to_list _).
  set (lt := fun a b : UUID * MarketPosition => p_created_at b.2 <? p_created_at a.2).
  set (le := fun a b : UUID * MarketPosition => p_created_at b.2 <= p_created_at a.2).
  assert (Hrows : forall id p, (id, p) ∈ rows <->
            market_positions db !! id = Some p /\ p_market_id p = market_uuid /\
            p_outcome_id p = outcome_uuid /\ p_status p = "open").
  { intros id p. unfold rows. rewrite elem_of_map_to_list, map_lookup_filter_Some.
    done. }
  assert (Hss : StronglySorted le (sorted lt rows)).
  { apply sorted_StronglySorted.
    - intros x y H. unfold lt, le in *. lia.
    - intros x y H. unfold lt, le in *. lia.
    - intros x y z. unfold le. lia. }
  split; [rewrite length_take; lia|]. split.
  - intros id p Hin. apply Hrows.
    rewrite <- (sorted_Permutation lt rows).
    apply elem_of_take in Hin as (i & Hi & _). by eapply list_elem_of_lookup_2.
  - intros id p Hp Hm Ho Hs Hnot.
    assert (Hin : (id, p) ∈ sorted lt rows).
    { rewrite (sorted_Permutation lt rows). by apply Hrows. }
    rewrite <- (take_drop 100 (sorted lt rows)) in Hin, Hss.
    apply elem_of_app in Hin as [Hin|Hin]; [done|].
    split.
    + rewrite length_take.
      destruct (decide (100 <= length (sorted lt rows))%nat); [lia|].
      rewrite drop_ge in Hin by lia. by apply elem_of_nil in Hin.
    + intros id' p' Hin'.
      exact (StronglySorted_app_1_elem_of _ _ _ _ _ Hss Hin' Hin).
Qed.

Lemma dict_contains_spec k d :
  dict_contains k d = true <-> exists k' v, (k', v) ∈ d /\ feq k' k = true.
Proof.
  unfold dict_contains. rewrite existsb_exists. split.
  - intros ([k' v] & Hin & Hk). exists k', v. by rewrite list_elem_of_In.
  - intros (k' & v & Hin & Hk). exists (k', v). by rewrite <- list_elem_of_In.
Qed.

Lemma dict_contains_false k d :
  dict_contains k d = false -> forall k' v, (k', v) ∈ d -> feq k' k = false.
Proof.
  intros Hc k' v Hin. destruct (feq k' k) eqn:E; [|done].
  assert (dict_contains k d = true) by (apply dict_contains_spec; eauto).
  congruence.
Qed.

Lemma group_volume_snoc back k positions p :
  group_volume back k (positions ++ [p]) =
    if eqb (is_back p) back && feq (odds_key p) k
    then fadd (group_volume back k positions) (float_of_Q (stake p))
    else group_volume back k positions.
Proof. unfold group_volume. by rewrite foldl_snoc. Qed.

Lemma group_volume_feq back k k' positions :
  feq k k' = true -> group_volume back k positions = group_volume back k' positions.
Proof.
  intros H. induction positions as [|p positions IH] using rev_ind; [done|].
  rewrite !group_volume_snoc, IH, (feq_congr (odds_key p) k k' H). done.
Qed.

Lemma group_volume_none back k positions :
  (forall p, p ∈ positions -> is_back p = back -> feq (odds_key p) k = false) ->
  group_volume back k positions = float_of_Z 0.
Proof.
  induction positions as [|p positions IH] using rev_ind; intros H; [done|].
  rewrite group_volume_snoc, IH.
  - destruct (eqb (is_back p) back) eqn:E; [|done].
    apply eqb_prop in E. rewrite (H p); [done| |done].
    apply elem_of_app. right. by apply list_elem_of_singleton.
  - intros p' Hin. apply H. apply elem_of_app. by left.
Qed.

Lemma dict_add_new k x d :
  is_nan k = false -> dict_contains k d = false ->
  dict_add k x d = d ++ [(k, fadd (float_of_Z 0) x)].
Proof.
  intros Hk Hc. unfold dict_add. rewrite Hc. simpl.
  assert (Hd : dict_set k (float_of_Z 0) d = d ++ [(k, float_of_Z 0)]).
  { unfold dict_set. by rewrite Hc. }
  rewrite Hd.
  assert (Hfeq : feq k k = true) by (by apply feq_refl).
  assert (Hnone : forall kv, kv ∈ d -> feq kv.1 k = false).
  { intros [k' v] Hin. by apply (dict_contains_false k d Hc k' v). }
  assert (Hc' : dict_contains k (d ++ [(k, float_of_Z 0)]) = true).
  { apply dict_contains_spec. exists k, (float_of_Z 0). split; [|done].
    apply elem_of_app. right. by apply list_elem_of_singleton. }
  assert (Hget : dict_get k (d ++ [(k, float_of_Z 0)]) = float_of_Z 0).
  { unfold dict_get. clear Hc Hd Hc'.
    induction d as [|kv d IH]; simpl.
    - by rewrite Hfeq.
    - rewrite (Hnone kv) by (by left). apply IH.
      intros kv' Hin. apply Hnone. by right. }
  unfold dict_set. rewrite Hc', Hget, map_app. simpl. rewrite Hfeq. f_equal.
  clear Hc Hd Hc' Hget.
  induction d as [|kv d IH]; simpl; [done|].
  rewrite (Hnone kv) by (by left). f_equal. apply IH.
  intros kv' Hin. apply Hnone. by right.
Qed.

Lemma dict_add_found k x d :
  dict_contains k d = true ->
  exists k0 v0,
    (k0, v0) ∈ d /\ feq k0 k = true /\
    dict_add k x d = map (fun kv => if feq kv.1 k then (kv.1, fadd v0 x) else kv) d.
Proof.
  intros Hc. unfold dict_add. rewrite Hc. simpl. unfold dict_set. rewrite Hc.
  unfold dict_get.
  destruct (find (fun kv : float * float => feq kv.1 k) d) as [[k0 v0]|] eqn:E.
  - apply find_some in E as [Hin Hk]. exists k0, v0.
    split; [by apply list_elem_of_In|]. done.
  - exfalso. apply dict_contains_spec in Hc as (k' & v & Hin & Hk).
    apply list_elem_of_In in Hin.
    pose proof (find_none _ _ E _ Hin) as Hn. simpl in Hn. congruence.
Qed.

Lemma dict_ok_keys_not_nan back positions d k v :
  dict_ok back positions d -> (k, v) ∈ d -> is_nan k = false.
Proof.
  intros (H1 & _) Hin. destruct (H1 k v Hin) as (_ & p & _ & _ & ->).
  apply float_of_Q_not_nan.
Qed.

Lemma dict_ok_skip back positions d p :
  dict_ok back positions d -> is_back p <> back ->
  dict_ok back (positions ++ [p]) d.
Proof.
  intros (H1 & H2 & H3) Hp.
  assert (He : eqb (is_back p) back = false).
  { destruct (eqb (is_back p) back) eqn:E; [|done]. by apply eqb_prop in E. }
  split; [|split; [|done]].
  - intros k v Hin. destruct (H1 k v Hin) as (Hv & p0 & Hin0 & Hb0 & Hk).
    split.
    + rewrite group_volume_snoc, He. done.
    + exists p0. split; [|done]. apply elem_of_app. by left.
  - intros p' Hin Hb. apply elem_of_app in Hin as [Hin|Hin]; [by apply H2|].
    apply list_elem_of_singleton in Hin. by subst.
Qed.

Lemma dict_ok_add back positions d p :
  dict_ok back positions d -> is_back p = back ->
  dict_ok back (positions ++ [p])
          (dict_add (odds_key p) (float_of_Q (stake p)) d).
Proof.
  intros Hok Hp. pose proof Hok as (H1 & H2 & H3).
  set (k := odds_key p). set (x := float_of_Q (stake p)).
  assert (Hk : is_nan k = false) by apply float_of_Q_not_nan.
  assert (Hkk : feq k k = true) by (by apply feq_refl).
  assert (He : eqb (is_back p) back = true) by (rewrite Hp; apply eqb_reflx).
  assert (Hlast : p ∈ positions ++ [p]).
  { apply elem_of_app. right. by apply list_elem_of_singleton. }
  destruct (dict_contains k d) eqn:Hc.
  - destruct (dict_add_found k x d Hc) as (k0 & v0 & Hin0 & Hk0 & ->).
    destruct (H1 k0 v0 Hin0) as (Hv0 & _).
    assert (Hv : fadd v0 x = group_volume back k (positions ++ [p])).
    { rewrite group_volume_snoc. fold k x. rewrite He, Hkk. simpl.
      by rewrite Hv0, (group_volume_feq back k0 k positions Hk0). }
    split; [|split].
    + intros k' v' Hin. apply list_elem_of_In, in_map_iff in Hin
        as ([k'' v''] & Heq & Hin). apply list_elem_of_In in Hin.
      destruct (H1 k'' v'' Hin) as (Hv'' & p0 & Hin0' & Hb0 & Hk'').
      simpl in Heq. destruct (feq k'' k) eqn:Hf; inversion Heq; subst k' v'.
      * split.
        -- rewrite Hv. apply group_volume_feq. by rewrite feq_sym.
        -- exists p0. split; [|done]. apply elem_of_app. by left.
      * split.
        -- rewrite group_volume_snoc. fold k. rewrite (feq_sym k k''), Hf.
           by rewrite andb_false_r.
        -- exists p0. split; [|done]. apply elem_of_app. by left.
    + intros p' Hin Hb.
      assert (Hold : dict_contains (odds_key p') d = true).
      { apply elem_of_app in Hin as [Hin|Hin]; [by apply H2|].
        apply list_elem_of_singleton in Hin. by subst. }
      apply dict_contains_spec in Hold as (k' & v' & Hin' & Hf).
      apply dict_contains_spec.
      destruct (feq k' k) eqn:Hfk.
      * exists k', (fadd v0 x). split; [|done].
        apply list_elem_of_In, in_map_iff. exists (k', v'). simpl.
        rewrite Hfk. split; [done|]. by apply list_elem_of_In.
      * exists k', v'. split; [|done].
        apply list_elem_of_In, in_map_iff. exists (k', v'). simpl.
        rewrite Hfk. split; [done|]. by apply list_elem_of_In.
    + apply ForallOrdPairs_map; [|done].
      intros [ka va] [kb vb]. simpl.
      by destruct (feq ka k), (feq kb k).
  - rewrite (dict_add_new k x d Hk Hc).
    assert (Hnone : forall k' v', (k', v') ∈ d -> feq k' k = false).
    { by apply dict_contains_false. }
    assert (Hzero : group_volume back k positions = float_of_Z 0).
    { apply group_volume_none. intros p' Hin Hb.
      destruct (feq (odds_key p') k) eqn:Hf; [|done].
      pose proof (H2 p' Hin Hb) as Hc'.
      apply dict_contains_spec in Hc' as (k' & v' & Hin' & Hf').
      rewrite <- (Hnone k' v' Hin'). symmetry. by apply (feq_trans _ _ _ Hf'). }
    split; [|split].
    + intros k' v' Hin. apply elem_of_app in Hin as [Hin|Hin].
      * destruct (H1 k' v' Hin) as (Hv' & p0 & Hin0 & Hb0 & Hk').
        split.
        -- rewrite group_volume_snoc. fold k.
           rewrite (feq_sym k k'), (Hnone k' v' Hin). by rewrite andb_false_r.
        -- exists p0. split; [|done]. apply elem_of_app. by left.
      * apply list_elem_of_singleton in Hin. inversion Hin; subst k' v'.
        split.
        -- rewrite group_volume_snoc. fold k x. rewrite He, Hkk. simpl.
           by rewrite Hzero.
        -- by exists p.
    + intros p' Hin Hb. apply dict_contains_spec.
      apply elem_of_app in Hin as [Hin|Hin].
      * pose proof (H2 p' Hin Hb) as Hc'.
        apply dict_contains_spec in Hc' as (k' & v' & Hin' & Hf').
        exists k', v'. split; [|done]. apply elem_of_app. by left.
      * apply list_elem_of_singleton in Hin. subst p'.
        exists k, (fadd (float_of_Z 0) x). split; [|done].
        apply elem_of_app. right. by apply list_elem_of_singleton.
    + apply ForallOrdPairs_snoc; [done|].
      apply Forall_forall. intros [k' v'] Hin. simpl. by apply (Hnone k' v').
Qed.

Lemma orderbook_step_eq back lay p :
  orderbook_step (back, lay) p =
    if is_back p
    then (dict_add (odds_key p) (float_of_Q (stake p)) back, lay)
    else (back, dict_add (odds_key p) (float_of_Q (stake p)) lay).
Proof.
  unfold orderbook_step, is_back, dict_add, odds_key.
  case_bool_decide; [by rewrite decide_True by done|by rewrite decide_False by done].
Qed.

Lemma orderbook_loop positions :
  dict_ok true positions (foldl orderbook_step ([], []) positions).1 /\
  dict_ok false positions (foldl orderbook_step ([], []) positions).2.
Proof.
  induction positions as [|p positions [IHb IHl]] using rev_ind.
  - split; (split; [|split]); simpl; try constructor;
      intros; exfalso; by eapply elem_of_nil.
  - rewrite foldl_snoc.
    destruct (foldl orderbook_step ([], []) positions) as [back lay].
    rewrite orderbook_step_eq. simpl in *.
    destruct (is_back p) eqn:Hb; simpl; split.
    + by apply dict_ok_add.
    + apply dict_ok_skip; [done|]. by rewrite Hb.
    + apply dict_ok_skip; [done|]. by rewrite Hb.
    + by apply dict_ok_add.
Qed.

Lemma tuple_lt_keys a b :
  feq a.1 b.1 = false -> is_nan a.1 = false -> is_nan b.1 = false ->
  tuple_lt a b = flt a.1 b.1 /\ tuple_lt b a = flt b.1 a.1 /\
  (flt a.1 b.1 = false -> flt b.1 a.1 = true) /\
  (flt b.1 a.1 = false -> flt a.1 b.1 = true).
Proof.
  intros Hf Ha Hb. unfold tuple_lt. rewrite (feq_sym b.1 a.1), Hf.
  repeat split.
  - intros Hn. destruct (flt_trichotomy a.1 b.1 Ha Hb) as [?|[?|?]]; congruence.
  - intros Hn. destruct (flt_trichotomy a.1 b.1 Ha Hb) as [?|[?|?]]; congruence.
Qed.

Lemma dict_sorted back positions d :
  dict_ok back positions d ->
  Sorted (fun a b => flt a.1 b.1 = true) (sorted tuple_lt d) /\
  Sorted (fun a b => flt b.1 a.1 = true) (sorted_reverse tuple_lt d).
Proof.
  intros Hok. pose proof Hok as (_ & _ & H3).
  assert (Hnan : forall a, a ∈ d -> is_nan a.1 = false).
  { intros [k v] Hin. by eapply dict_ok_keys_not_nan. }
  assert (Hdec : ForallOrdPairs
                   (decides tuple_lt (fun a b => flt a.1 b.1 = true)) d).
  { eapply ForallOrdPairs_impl_in; [|exact H3].
    intros a b Ha Hb Hf.
    destruct (tuple_lt_keys a b Hf (Hnan a Ha) (Hnan b Hb)) as (E1 & E2 & T1 & T2).
    unfold decides. rewrite ?E1, ?E2. auto. }
  split; [by apply sorted_Sorted|].
  unfold sorted_reverse.
  apply (Sorted_reverse (fun a b : float * float => flt a.1 b.1 = true)).
  apply sorted_Sorted. apply ForallOrdPairs_reverse; [|done].
  unfold decides. tauto.
Qed.

Lemma is_back_true p : is_back p = true <-> position_type p = "back".
Proof. unfold is_back. apply bool_decide_eq_true. Qed.

Lemma is_back_false p : is_back p = false <-> position_type p <> "back".
Proof. unfold is_back. apply bool_decide_eq_false. Qed.

Lemma get_orderbook_Return market_uuid outcome_uuid db :
  get_orderbook (UUIDText market_uuid) (UUIDText outcome_uuid) db =
    Return {| ob_market_id := UUIDText market_uuid;
              ob_outcome_id := UUIDText outcome_uuid;
              back_orders :=
                sorted_reverse tuple_lt
                  (foldl orderbook_step ([], [])
                     (orderbook_positions market_uuid outcome_uuid db)).1;
              lay_orders :=
                sorted tuple_lt
                  (foldl orderbook_step ([], [])
                     (orderbook_positions market_uuid outcome_uuid db)).2 |}.
Proof.
  unfold get_orderbook, get_orderbook_try. simpl.
  by destruct (foldl orderbook_step _ _).
Qed.

(** Every price level of a sorted dictionary is a group of the positions
    read on its side, and every such position has its level. *)
Lemma dict_levels back positions d (levels : list (float * float)) :
  dict_ok back positions d -> levels ≡ₚ d ->
  (forall k v, (k, v) ∈ levels ->
     v = group_volume back k positions /\
     exists p, p ∈ positions /\ is_back p = back /\ k = float_of_Q (odds p)) /\
  (forall p, p ∈ positions -> is_back p = back ->
     exists k v, (k, v) ∈ levels /\ feq k (float_of_Q (odds p)) = true /\
                 v = group_volume back k positions).
Proof.
  intros (H1 & H2 & _) Hperm. split.
  - intros k v Hin. rewrite Hperm in Hin. by apply H1.
  - intros p Hin Hb. pose proof (H2 p Hin Hb) as Hc.
    apply dict_contains_spec in Hc as (k & v & Hkv & Hf).
    exists k, v. rewrite Hperm.
    split; [done|]. split; [done|]. by apply H1.
Qed.

(** ** C1: the odds of the outcomes after a placement *)

(** C1, as the code has it.  After a successful placement on a market,
    every outcome of that market whose [total_backed] is positive has
    [current_odds] equal to [1 / max(0.05, min(0.95, total_backed / 100))]
    computed in binary64 and rounded to two decimals; an outcome whose
    [total_backed] is not positive keeps the odds it had.  With
    [total_backed = 100] the odds are 1.05, with [total_backed = 50] they
    are 2.00. *)
Theorem odds_recomputed_when_backed market_uuid position_data current_user env db
    response db' id o' :
  place_position (UUIDText market_uuid) position_data current_user env db
    = (Return response, db') ->
  market_outcomes db' !! id = Some o' ->
  o_market_id o' = market_uuid ->
  ((0 < total_backed o')%Q ->
     Decimal_str_round (new_odds (total_backed o')) 2 = Some (current_odds o')) /\
  (~ (0 < total_backed o')%Q ->
     exists o, market_outcomes db !! id = Some o /\
               current_odds o' = current_odds o) /\
  ((total_backed o' == 100)%Q -> (current_odds o' == 1.05)%Q) /\
  ((total_backed o' == 50)%Q -> (current_odds o' == 2)%Q).
Proof.
  intros H Hl Hm.
  apply place_position_Return, place_position_try_Return in H
    as (M & O & market & profile & stk & od & pt & Hid & _ & _ & _ & _ & _ & _ & _
        & _ & _ & _ & ->).
  inversion Hid; subst M. clear Hid.
  rewrite update_market_odds_eq in Hl. simpl in Hl.
  rewrite lookup_fmap, lookup_alter in Hl.
  assert (Hsrc : exists o o1,
             market_outcomes db !! id = Some o /\
             current_odds o1 = current_odds o /\
             o_market_id o1 = o_market_id o /\
             o' = odds_after market_uuid o1).
  { destruct (decide (O = id)) as [->|Hne];
      destruct (market_outcomes db !! id) as [o|]; try done;
      simpl in Hl; inversion Hl; subst o'.
    - by exists o, (set_total_backed (total_backed o + stk) o).
    - by exists o, o. }
  destruct Hsrc as (o & o1 & Ho & Hodds & Hmo & ->).
  rewrite odds_after_market in Hm.
  destruct (odds_after_spec market_uuid o1 Hm) as (Htb & Hpos & Hzero).
  rewrite Htb.
  assert (Hbacked : (0 < total_backed o1)%Q ->
            Decimal_str_round (new_odds (total_backed o1)) 2
            = Some (current_odds (odds_after market_uuid o1))) by done.
  split; [done|]. split; [|split].
  - intros Hn. exists o. split; [done|]. by rewrite (Hzero Hn).
  - intros Heq.
    assert (Hp : (0 < total_backed o1)%Q) by (by rewrite Heq).
    specialize (Hbacked Hp). rewrite (new_odds_Qeq _ _ Heq) in Hbacked.
    rewrite odds_at_100 in Hbacked. inversion Hbacked as [Hc]. reflexivity.
  - intros Heq.
    assert (Hp : (0 < total_backed o1)%Q) by (by rewrite Heq).
    specialize (Hbacked Hp). rewrite (new_odds_Qeq _ _ Heq) in Hbacked.
    rewrite odds_at_50 in Hbacked. inversion Hbacked as [Hc]. reflexivity.
Qed.

Lemma odds_recomputed_when_backed_witness :
  exists response db' o',
    place_position (UUIDText 100) (order 101 100 2 "back") "alice"
      (sample_env 2) db_open = (Return response, db') /\
    market_outcomes db' !! 101%positive = Some o' /\
    (total_backed o' == 100)%Q /\ (current_odds o' == 1.05)%Q.
Proof.
  eexists _, _, _.
  split; [vm_compute; reflexivity|].
  split; [vm_compute; reflexivity|].
  split; [reflexivity|].
  refine (proj1 (proj2 (proj2 (odds_recomputed_when_backed 100
            (order 101 100 2 "back") "alice" (sample_env 2) db_open _ _
            101%positive _ _ _ _))) _).
  - vm_compute; reflexivity.
  - vm_compute; reflexivity.
  - reflexivity.
  - reflexivity.
Defined.

(** C1 as stated fails: after alice backs outcome 101 of market 100,
    outcome 102 of the same market has [total_backed = 0] and still shows
    the odds 2.0 it was created with, not 20.00. *)
Lemma unbacked_outcome_keeps_odds :
  exists response db' o,
    place_position (UUIDText 100) (order 101 10 2 "back") "alice"
      (sample_env 2) db_open = (Return response, db') /\
    market_outcomes db' !! 102%positive = Some o /\
    o_market_id o = 100%positive /\
    (total_backed o == 0)%Q /\
    (current_odds o == 2)%Q /\
    ~ (current_odds o == 20)%Q.
Proof.
  eexists _, _, _.
  split; [vm_compute; reflexivity|].
  split; [vm_compute; reflexivity|].
  split; [reflexivity|].
  split; [reflexivity|].
  split; [reflexivity|].
  vm_compute. discriminate.
Qed.

(** ** C2: when the participant count moves *)

(** C2, at an input where it fails.  Market 100 counts one participant
    (alice).  Bob, who has no position in it, places one: the call
    succeeds and the count is still 1. *)
Theorem participant_count_stays_at_one :
  user_has_positions_in_market "bob" 100 db_first = false /\
  (exists market, markets db_first !! 100%positive = Some market /\
                  participant_count market = 1) /\
  exists response db' market',
    place_position (UUIDText 100) (order 102 5 3 "back") "bob"
      (sample_env 3) db_first = (Return response, db') /\
    markets db' !! 100%positive = Some market' /\
    participant_count market' = 1.
Proof.
  split; [vm_compute; reflexivity|].
  split; [eexists; split; vm_compute; reflexivity|].
  eexists _, _, _. split; [vm_compute; reflexivity|].
  split; vm_compute; reflexivity.
Qed.

(** ** C3: settlement touches the open back positions on the winner only *)



(** ** C4: the payout of a position is fixed when it is placed *)





(** ** C5: winners and resolved markets *)

Lemma create_market_winners_resolved market_data current_user env db :
  winners_resolved db ->
  winners_resolved (create_market market_data current_user env db).2.
Proof.
  intros Hinv.
  destruct (create_market_state market_data current_user env db)
    as [->|(mid & m & db' & Hc & ->)]; [done|].
  apply create_market_commit_Return in Hc
    as (profile & _ & _ & _ & Hfresh & Hmk & _ & _ & _ & Hnew).
  intros id o Hl Hw.
  destruct (Hnew id o Hl) as [Hold|(_ & j & text & ->)]; [|discriminate].
  destruct (Hinv id o Hold Hw) as (market & Hmarket & Hres).
  exists market. split; [|done]. rewrite Hmk.
  rewrite lookup_insert_ne; [done|]. intros Heq. congruence.
Qed.

Lemma place_position_winners_resolved market_id position_data current_user env db :
  winners_resolved db ->
  winners_resolved (place_position market_id position_data current_user env db).2.
Proof.
  intros Hinv.
  destruct (place_position_state market_id position_data current_user env db)
    as [->|(r & db' & Htry & ->)]; [done|].
  apply place_position_try_Return in Htry
    as (M & O & market & profile & stk & od & pt & _ & _ & Hm & _ & _ & _ & _ & _
        & _ & _ & _ & ->).
  rewrite update_market_odds_eq. intros id o'. simpl.
  rewrite lookup_fmap, lookup_alter.
  intros Hl Hw.
  assert (Hold : exists o, market_outcomes db !! id = Some o /\
                           o_market_id o' = o_market_id o /\
                           is_winner o' = is_winner o).
  { destruct (decide (O = id)) as [->|Hne].
    - destruct (market_outcomes db !! id) as [o|]; [|done].
      simpl in Hl. inversion Hl; subst. exists o.
      by rewrite odds_after_market, odds_after_is_winner.
    - destruct (market_outcomes db !! id) as [o|]; [|done].
      simpl in Hl. inversion Hl; subst. exists o.
      by rewrite odds_after_market, odds_after_is_winner. }
  destruct Hold as (o & Ho & Hmo & Hwo). rewrite Hwo in Hw.
  destruct (Hinv id o Ho Hw) as (m & Hmm & Hres). rewrite Hmo.
  destruct (decide (M = o_market_id o)) as [Heq|Hne].
  - rewrite <- Heq in *. rewrite lookup_insert_eq. eexists. split; [done|].
    simpl. congruence.
  - rewrite lookup_insert_ne by done. eauto.
Qed.

Lemma resolve_market_winners_resolved market_id resolution_data current_user env db :
  well_addressed (ResolveMarket market_id resolution_data current_user) db ->
  winners_resolved db ->
  winners_resolved (resolve_market market_id resolution_data current_user env db).2.
Proof.
  intros Hwell Hinv.
  destruct (resolve_market_state market_id resolution_data current_user env db)
    as [->|(r & db' & Htry & ->)]; [done|].
  apply resolve_market_try_Return in Htry
    as (M & market & w & -> & Hm & _ & _ & Hrd & _ & ->).
  simpl in Hwell.
  destruct (process_market_payouts_frame M env
              (resolved M market w (rd_resolution_value resolution_data) env db))
    as (Hmk & Hout & _).
  intros id o'. rewrite Hout, Hmk. simpl. intros Hl Hw.
  assert (Hcase : o_market_id o' = M \/
                  (market_outcomes db !! id = Some o' /\ o_market_id o' <> M)).
  { destruct w as [w|].
    - destruct (Hwell w) as (ow & How & Hmw); [by rewrite Hrd|].
      rewrite declared_outcomes_lookup in Hl.
      destruct (market_outcomes db !! id) as [o|] eqn:Ho; [|done].
      simpl in Hl. inversion Hl; subst o'. clear Hl.
      destruct (decide (id = w)) as [->|Hne].
      + left. rewrite How in Ho. inversion Ho; subst o.
        by destruct (decide (o_market_id ow = M)).
      + destruct (decide (o_market_id o = M)); [discriminate|]. by right.
    - destruct (decide (o_market_id o' = M)); [by left|by right]. }
  destruct Hcase as [->|[Hold Hne]].
  - rewrite lookup_insert_eq. eexists. split; [done|]. done.
  - destruct (Hinv id o' Hold Hw) as (m & Hmm & Hres).
    rewrite lookup_insert_ne by done. eauto.
Qed.

(** C5, as the code has it.  A call that names as winner an outcome of
    the market it resolves (or none) keeps every flagged outcome inside a
    resolved market; market creation and placement never flag an outcome.
    When [resolve_market] succeeds with such a winner, exactly one outcome
    of the market is flagged, the named one; when it succeeds without a
    winner, no outcome of the market is flagged. *)
Theorem one_winner_when_named c env db :
  well_addressed c db ->
  winners_resolved db ->
  winners_resolved (step c env db) /\
  forall market_uuid resolution_data current_user response db',
    c = ResolveMarket (UUIDText market_uuid) resolution_data current_user ->
    resolve_market (UUIDText market_uuid) resolution_data current_user env db
      = (Return response, db') ->
    match rd_winning_outcome_id resolution_data with
    | Some (UUIDText winner) => exactly_one_winner market_uuid winner db'
    | _ => no_winner market_uuid db'
    end.
Proof.
  intros Hwell Hinv. split.
  - destruct c as [md user|mid pd user|mid rd user]; simpl.
    + by apply create_market_winners_resolved.
    + by apply place_position_winners_resolved.
    + by apply resolve_market_winners_resolved.
  - intros M rd user response db' -> Hres. simpl in Hwell.
    apply resolve_market_Return, resolve_market_try_Return in Hres
      as (M' & market & w & Hid & Hm & _ & Hclosed & Hrd & _ & ->).
    inversion Hid; subst M'. clear Hid.
    destruct (process_market_payouts_frame M env
                (resolved M market w (rd_resolution_value rd) env db))
      as (_ & Hout & _).
    rewrite Hrd. destruct w as [w|]; simpl.
    + destruct (Hwell w) as (ow & How & Hmw); [by rewrite Hrd|].
      eapply declared_outcomes_one_winner; [exact How|exact Hmw|].
      by rewrite Hout.
    + intros id o. rewrite Hout. simpl. intros Hl Hmo Hw.
      destruct (Hinv id o Hl Hw) as (m & Hmm & Hres).
      rewrite Hmo, Hm in Hmm. inversion Hmm; subst m. congruence.
Qed.

Lemma one_winner_when_named_witness :
  exists response db',
    resolve_market (UUIDText 100) (resolution (Some (UUIDText 101))) "alice"
      (sample_env 6) db_closed = (Return response, db') /\
    winners_resolved db' /\ exactly_one_winner 100 101 db'.
Proof.
  assert (Hinv : winners_resolved db_closed).
  { intros id o Ho Hw. exfalso.
    assert (Hall : map_Forall (fun _ q => is_winner q = None)
                              (market_outcomes db_closed)).
    { refine (bool_decide_unpack _ _). vm_compute. exact I. }
    rewrite (Hall id o Ho) in Hw. discriminate. }
  assert (Hwell : well_addressed
            (ResolveMarket (UUIDText 100) (resolution (Some (UUIDText 101))) "alice")
            db_closed).
  { intros w Hw. inversion Hw; subst w. eexists. split; vm_compute; reflexivity. }
  destruct (one_winner_when_named _ (sample_env 6) db_closed Hwell Hinv)
    as [Hinv' Hone].
  eexists _, _. split; [vm_compute; reflexivity|].
  split.
  - exact Hinv'.
  - exact (Hone 100%positive _ "alice" _ _ eq_refl ltac:(vm_compute; reflexivity)).
Defined.

(** C5 as stated fails: resolving the closed market 100 without naming a
    winning outcome succeeds, and no outcome of the market is flagged. *)
Lemma resolution_without_winner :
  exists response db',
    resolve_market (UUIDText 100) (resolution None) "alice" (sample_env 6) db_closed
      = (Return response, db') /\
    ~ exists id o, market_outcomes db' !! id = Some o /\
                   o_market_id o = 100%positive /\ is_winner o = Some true.
Proof.
  eexists _, _. split; [vm_compute; reflexivity|].
  intros (id & o & Ho & _ & Hw).
  match type of Ho with market_outcomes ?d !! _ = _ =>
    assert (Hall : map_Forall (fun _ q => is_winner q = None) (market_outcomes d))
  end.
  { refine (bool_decide_unpack _ _). vm_compute. exact I. }
  rewrite (Hall id o Ho) in Hw. discriminate.
Qed.

(** ** C6: placements that are refused *)

(** C6.  [place_position] answers with an error and commits nothing (no
    position, no change to a market or an outcome) whenever the market it
    names is not open -- closed, resolved, cancelled or any other status --
    and whenever the stake is zero or negative. *)
Theorem place_position_rejects market_id position_data current_user env db :
  (exists market_uuid market,
      market_id = UUIDText market_uuid /\
      markets db !! market_uuid = Some market /\
      m_status market <> "open") \/
  (exists stake,
      pd_stake position_data = Some (DecimalText stake) /\ (stake <= 0)%Q) ->
  rejected (place_position market_id position_data current_user env db) db.
Proof.
  intros Hbad.
  destruct (place_position_try market_id position_data current_user env db)
    as [[response db']|e] eqn:Htry.
  - exfalso.
    apply place_position_try_Return in Htry
      as (M & O & market & profile & stake & odds & pt & Hid & _ & Hm & Hopen
          & _ & Hstake & _ & _ & Hpos & _).
    destruct Hbad as [(M' & market' & Hid' & Hm' & Hclosed)|(stake' & Hstake' & Hle)].
    + rewrite Hid in Hid'. inversion Hid'; subst M'.
      rewrite Hm in Hm'. inversion Hm'; subst market'. done.
    + rewrite Hstake in Hstake'. inversion Hstake'; subst stake'.
      by apply (Qlt_not_le _ _ Hpos).
  - by eapply place_position_Raise.
Qed.

Lemma place_position_rejects_witness :
  rejected (place_position (UUIDText 100) (order 101 10 2 "back") "bob"
              (sample_env 6) db_closed) db_closed /\
  rejected (place_position (UUIDText 100) (order 101 0 2 "back") "bob"
              (sample_env 6) db_open) db_open.
Proof.
  split; apply place_position_rejects.
  - left. eexists _, _. split; [reflexivity|]. split; [vm_compute; reflexivity|].
    vm_compute. discriminate.
  - right. exists 0%Q. split; [reflexivity|]. vm_compute. discriminate.
Defined.

(** ** C7: resolutions that are refused *)

(** C7, at inputs where the error is not the one it names.  Bob, who did
    not create market 100, resolves it while it is closed; alice, its
    creator, resolves it while it is still open.  Both calls are refused
    and commit nothing, but both answer with status 500: the 403 and the
    400 raised inside the [try] block are caught by its own
    [except Exception] and wrapped. *)
Theorem resolve_market_answers_500 :
  resolve_market (UUIDText 100) (resolution (Some (UUIDText 101))) "bob"
    (sample_env 6) db_closed
  = (Raise (HTTPException 500
             (FailedWith "Failed to resolve market: "
                (HTTPException 403 (Detail "Only market creator can resolve")))),
     db_closed) /\
  resolve_market (UUIDText 100) (resolution (Some (UUIDText 101))) "alice"
    (sample_env 6) db_traded
  = (Raise (HTTPException 500
             (FailedWith "Failed to resolve market: "
                (HTTPException 400 (Detail "Market must be closed to resolve")))),
     db_traded).
Proof.
  split.
  - eapply resolve_market_not_creator; [vm_compute; reflexivity|].
    vm_compute. discriminate.
  - eapply resolve_market_not_closed; [vm_compute; reflexivity|reflexivity|].
    vm_compute. discriminate.
Qed.

(** ** C8: the volume of a market is the sum of the stakes, in any order *)











(** ** C9: the order book *)

(** C9.  [get_orderbook] reads at most 100 rows, all of them open
    positions of the market on the outcome, and a matching position left
    out is no newer than any row read.  Each back level [(odds, volume)]
    is the key of a back position read, with the stakes of the back
    positions read at that key summed as its volume, and every back
    position read has its level; likewise for the lay levels and the
    positions that are not back positions.  Back levels come in
    decreasing order of odds, lay levels in increasing order.  For the
    positions 10 and 5 backed at 2.0 and 20 laid at 1.5 the book is
    [(2.0, 15)] and [(1.5, 20)]. *)
Theorem orderbook_groups_recent_positions market_uuid outcome_uuid db :
  let rows := orderbook_rows market_uuid outcome_uuid db in
  let positions := orderbook_positions market_uuid outcome_uuid db in
  exists book,
    get_orderbook (UUIDText market_uuid) (UUIDText outcome_uuid) db = Return book /\
    (length rows <= 100)%nat /\
    (forall id p, (id, p) ∈ rows ->
       market_positions db !! id = Some p /\ p_market_id p = market_uuid /\
       p_outcome_id p = outcome_uuid /\ p_status p = "open") /\
    (forall id p,
       market_positions db !! id = Some p -> p_market_id p = market_uuid ->
       p_outcome_id p = outcome_uuid -> p_status p = "open" ->
       (id, p) ∉ rows ->
       length rows = 100%nat /\
       forall id' p', (id', p') ∈ rows -> p_created_at p <= p_created_at p') /\
    (forall k v, (k, v) ∈ back_orders book ->
       v = group_volume true k positions /\
       exists p, p ∈ positions /\ position_type p = "back" /\
                 k = float_of_Q (odds p)) /\
    (forall p, p ∈ positions -> position_type p = "back" ->
       exists k v, (k, v) ∈ back_orders book /\
                   feq k (float_of_Q (odds p)) = true /\
                   v = group_volume true k positions) /\
    (forall k v, (k, v) ∈ lay_orders book ->
       v = group_volume false k positions /\
       exists p, p ∈ positions /\ position_type p <> "back" /\
                 k = float_of_Q (odds p)) /\
    (forall p, p ∈ positions -> position_type p <> "back" ->
       exists k v, (k, v) ∈ lay_orders book /\
                   feq k (float_of_Q (odds p)) = true /\
                   v = group_volume false k positions) /\
    Sorted (fun a b => flt b.1 a.1 = true) (back_orders book) /\
    Sorted (fun a b => flt a.1 b.1 = true) (lay_orders book) /\
    get_orderbook (UUIDText 100) (UUIDText 101) db_traded =
      Return {| ob_market_id := UUIDText 100; ob_outcome_id := UUIDText 101;
                back_orders := [(float_of_Q 2, float_of_Q 15)];
                lay_orders := [(float_of_Q 1.5, float_of_Q 20)] |}.
Proof.
  intros rows positions. eexists. split; [apply get_orderbook_Return|].
  destruct (orderbook_rows_spec market_uuid outcome_uuid db) as (Hlen & Hin & Hrecent).
  destruct (orderbook_loop positions) as [Hback Hlay].
  destruct (dict_levels true positions _ _ Hback
              (sorted_reverse_Permutation tuple_lt _)) as [Hb1 Hb2].
  destruct (dict_levels false positions _ _ Hlay (sorted_Permutation tuple_lt _))
    as [Hl1 Hl2].
  cbn [back_orders lay_orders].
  split; [done|]. split; [done|]. split; [done|].
  split; [|split; [|split; [|split]]].
  - intros k v Hkv. destruct (Hb1 k v Hkv) as (Hv & p & Hp & Hside & Hk).
    split; [done|]. exists p. by rewrite <- is_back_true.
  - intros p Hp Hside. apply Hb2; [done|]. by apply is_back_true.
  - intros k v Hkv. destruct (Hl1 k v Hkv) as (Hv & p & Hp & Hside & Hk).
    split; [done|]. exists p. by rewrite <- is_back_false.
  - intros p Hp Hside. apply Hl2; [done|]. by apply is_back_false.
  - split; [exact (proj2 (dict_sorted _ _ _ Hback))|].
    split; [exact (proj1 (dict_sorted _ _ _ Hlay))|].
    vm_compute. reflexivity.
Qed.

(** ** C10: position types other than back *)



(** ** Markets along a run of calls *)

(** What a call does to a market row that is already stored: nothing, a placement on it while it is open, or its resolution while it is closed. *)
Lemma step_market c env db id m :
  markets db !! id = Some m ->
  markets (step c env db) !! id = Some m \/
  (m_status m = "open" /\
   exists stake,
     (0 < stake)%Q /\
     markets (step c env db) !! id
     = Some (set_volume_participants (total_volume m + stake)%Q
               (if bool_decide (participant_count m = 0)
                then participant_count m + 1 else participant_count m) m)) \/
  (m_status m = "closed" /\
   exists value,
     markets (step c env db) !! id = Some (set_resolved (utcnow env) value m)).
Proof.
  intros Hm. destruct c as [md user|mid pd user|mid rd user]; simpl.
  - destruct (create_market_state md user env db) as [->|(mid & mk & db' & Hc & ->)];
      [by left|].
    apply create_market_commit_Return in Hc as (_ & _ & _ & _ & Hfresh & Hmk & _).
    left. rewrite Hmk. rewrite lookup_insert_ne; [done|]. intros <-. congruence.
  - destruct (place_position_state mid pd user env db)
      as [->|(r & db' & Htry & ->)]; [by left|].
    apply place_position_try_Return in Htry
      as (M & O & market & profile & stk & od & pt & _ & _ & HM & Hopen & _ & _ & _ & _
          & Hpos & _ & _ & ->).
    rewrite update_market_odds_eq. simpl.
    destruct (decide (M = id)) as [->|Hne].
    + rewrite HM in Hm. inversion Hm; subst market.
      right. left. split; [done|]. exists stk. split; [done|].
      by rewrite lookup_insert_eq.
    + left. by rewrite lookup_insert_ne.
  - destruct (resolve_market_state mid rd user env db)
      as [->|(r & db' & Htry & ->)]; [by left|].
    apply resolve_market_try_Return in Htry
      as (M & market & w & _ & HM & _ & Hclosed & _ & _ & ->).
    destruct (process_market_payouts_frame M env
                (resolved M market w (rd_resolution_value rd) env db)) as (-> & _ & _).
    simpl. destruct (decide (M = id)) as [->|Hne].
    + rewrite HM in Hm. inversion Hm; subst market.
      right. right. split; [done|]. eexists. by rewrite lookup_insert_eq.
    + left. by rewrite lookup_insert_ne.
Qed.

(** A market row that appears with a call is the one [create_market] builds. *)
Lemma step_new_market c env db id m' :
  markets db !! id = None ->
  markets (step c env db) !! id = Some m' ->
  id = uuid4 env 0 /\
  exists market_data current_user profile_id,
    m' = new_market market_data current_user profile_id env.
Proof.
  intros Hnone. destruct c as [md user|mid pd user|mid rd user]; simpl.
  - destruct (create_market_state md user env db) as [->|(mid & mk & db' & Hc & ->)];
      [congruence|].
    apply create_market_commit_Return in Hc as (pr & _ & -> & -> & Hfresh & Hmk & _).
    rewrite Hmk. intros Hl.
    destruct (decide (uuid4 env 0 = id)) as [<-|Hne].
    + rewrite lookup_insert_eq in Hl. inversion Hl. eauto 10.
    + rewrite lookup_insert_ne in Hl by done. congruence.
  - destruct (place_position_state mid pd user env db)
      as [->|(r & db' & Htry & ->)]; [congruence|].
    apply place_position_try_Return in Htry
      as (M & O & market & profile & stk & od & pt & _ & _ & HM & _ & _ & _ & _ & _
          & _ & _ & _ & ->).
    rewrite update_market_odds_eq. simpl. intros Hl.
    destruct (decide (M = id)) as [->|Hne]; [congruence|].
    rewrite lookup_insert_ne in Hl by done. congruence.
  - destruct (resolve_market_state mid rd user env db)
      as [->|(r & db' & Htry & ->)]; [congruence|].
    apply resolve_market_try_Return in Htry
      as (M & market & w & _ & HM & _ & _ & _ & _ & ->).
    destruct (process_market_payouts_frame M env
                (resolved M market w (rd_resolution_value rd) env db)) as (-> & _ & _).
    simpl. intros Hl.
    destruct (decide (M = id)) as [->|Hne]; [congruence|].
    rewrite lookup_insert_ne in Hl by done. congruence.
Qed.

Lemma run_cons c env calls db : run ((c, env) :: calls) db = run calls (step c env db).
Proof. reflexivity. Qed.

(** The status of a stored market along a run: it stays, or goes from closed to resolved. *)
Lemma run_market_status calls : forall db id m,
  markets db !! id = Some m ->
  exists m', markets (run calls db) !! id = Some m' /\
             creator_clerk_id m' = creator_clerk_id m /\
             (m_status m' = m_status m \/
              (m_status m = "closed" /\ m_status m' = "resolved")).
Proof.
  induction calls as [|[c env] calls IH]; intros db id m Hm.
  - exists m. eauto.
  - rewrite run_cons.
    destruct (step_market c env db id m Hm)
      as [H|[(Hopen & stk & _ & H)|(Hclosed & value & H)]];
      destruct (IH _ _ _ H) as (m' & Hm' & Hc & Hs); exists m'; (split; [done|]);
      simpl in Hc, Hs; (split; [done|]).
    + done.
    + done.
    + destruct Hs as [Hs|[Hs _]]; [|discriminate]. right. done.
Qed.

Lemma step_markets_Forall (P : Market -> Prop) c env db :
  (forall market_data current_user profile_id,
     P (new_market market_data current_user profile_id env)) ->
  (forall m stake, P m -> m_status m = "open" -> (0 < stake)%Q ->
     P (set_volume_participants (total_volume m + stake)%Q
          (if bool_decide (participant_count m = 0)
           then participant_count m + 1 else participant_count m) m)) ->
  (forall m value, P m -> m_status m = "closed" ->
     P (set_resolved (utcnow env) value m)) ->
  (forall id m, markets db !! id = Some m -> P m) ->
  forall id m, markets (step c env db) !! id = Some m -> P m.
Proof.
  intros Hnew Hplace Hres Hall id m' Hm'.
  destruct (markets db !! id) as [m|] eqn:Hm.
  - destruct (step_market c env db id m Hm)
      as [H|[(Hopen & stk & Hpos & H)|(Hclosed & value & H)]];
      rewrite H in Hm'; inversion Hm'; subst m'; eauto.
  - destruct (step_new_market c env db id m' Hm Hm') as (_ & md & u & pr & ->).
    apply Hnew.
Qed.

Lemma run_markets_Forall (P : Market -> Prop) calls :
  (forall env market_data current_user profile_id,
     P (new_market market_data current_user profile_id env)) ->
  (forall m stake, P m -> m_status m = "open" -> (0 < stake)%Q ->
     P (set_volume_participants (total_volume m + stake)%Q
          (if bool_decide (participant_count m = 0)
           then participant_count m + 1 else participant_count m) m)) ->
  (forall env m value, P m -> m_status m = "closed" ->
     P (set_resolved (utcnow env) value m)) ->
  forall db,
  (forall id m, markets db !! id = Some m -> P m) ->
  forall id m, markets (run calls db) !! id = Some m -> P m.
Proof.
  intros Hnew Hplace Hres.
  induction calls as [|[c env] calls IH]; intros db Hall; [done|].
  rewrite run_cons. apply IH.
  apply step_markets_Forall; eauto.
Qed.

(** A resolution is refused unless the market is stored with status closed. *)
Lemma resolve_market_needs_closed market_uuid resolution_data current_user env db :
  (forall m, markets db !! market_uuid = Some m -> m_status m <> "closed") ->
  rejected (resolve_market (UUIDText market_uuid) resolution_data current_user env db) db.
Proof.
  intros Hnot.
  destruct (resolve_market_try (UUIDText market_uuid) resolution_data current_user env db)
    as [[response db']|e] eqn:Htry.
  - exfalso. apply resolve_market_try_Return in Htry
      as (M & market & w & Hid & HM & _ & Hclosed & _).
    inversion Hid; subst M. by apply (Hnot market).
  - by eapply resolve_market_Raise.
Qed.

(** A placement is refused on a stored market that is not open. *)
Lemma place_position_needs_open market_uuid position_data current_user env db m :
  markets db !! market_uuid = Some m -> m_status m <> "open" ->
  rejected (place_position (UUIDText market_uuid) position_data current_user env db) db.
Proof.
  intros Hm Hnot.
  destruct (place_position_try (UUIDText market_uuid) position_data current_user env db)
    as [[response db']|e] eqn:Htry.
  - exfalso. apply place_position_try_Return in Htry
      as (M & O & market & profile & stk & od & pt & Hid & _ & HM & Hopen & _).
    inversion Hid; subst M. rewrite Hm in HM. by inversion HM; subst market.
  - by eapply place_position_Raise.
Qed.

Lemma resolve_market_malformed resolution_data current_user env db :
  resolve_market NotAUUID resolution_data current_user env db
  = (Raise (HTTPException 400 (Detail "Invalid market ID format")), db).
Proof. reflexivity. Qed.

(** X1.  No endpoint of the service closes a market.  From a store in which no market is closed, after any sequence of [create_market], [place_position] and [resolve_market] calls no market is closed, and every [resolve_market] call is refused and commits nothing: a market created through the service can never be resolved through it. *)
Theorem no_endpoint_closes_a_market calls db :
  (forall id m, markets db !! id = Some m -> m_status m <> "closed") ->
  (forall id m, markets (run calls db) !! id = Some m -> m_status m <> "closed") /\
  forall market_id resolution_data current_user env,
    rejected (resolve_market market_id resolution_data current_user env (run calls db))
             (run calls db).
Proof.
  intros Hinit.
  assert (Hinv : forall id m, markets (run calls db) !! id = Some m ->
                              m_status m <> "closed").
  { by apply (run_markets_Forall (fun m => m_status m <> "closed")). }
  split; [done|].
  intros [market_uuid|] rd user env.
  - apply resolve_market_needs_closed. intros m. apply Hinv.
  - rewrite resolve_market_malformed. unfold rejected. eauto.
Qed.

Lemma no_endpoint_closes_a_market_witness :
  rejected (resolve_market (UUIDText 100) (resolution (Some (UUIDText 101))) "alice"
              (sample_env 6)
              (run ((CreateMarket sample_market "alice", sample_env 1) :: sample_trades)
                   db_empty))
           (run ((CreateMarket sample_market "alice", sample_env 1) :: sample_trades)
                db_empty).
Proof.
  apply (no_endpoint_closes_a_market
           ((CreateMarket sample_market "alice", sample_env 1) :: sample_trades) db_empty).
  intros id m Hm. simpl in Hm. rewrite lookup_empty in Hm. discriminate Hm.
Defined.

(** X2.  A resolved market is final.  After a [resolve_market] call has succeeded on a market, whatever calls follow, the market stays resolved, every later [resolve_market] on it is refused, and every [place_position] on it is refused; the refusals commit nothing. *)
Theorem resolved_market_is_final market_uuid resolution_data current_user env db
    response db' :
  resolve_market (UUIDText market_uuid) resolution_data current_user env db
    = (Return response, db') ->
  forall calls,
    (exists m, markets (run calls db') !! market_uuid = Some m /\
               m_status m = "resolved") /\
    (forall resolution_data' current_user' env',
       rejected (resolve_market (UUIDText market_uuid) resolution_data' current_user' env'
                   (run calls db')) (run calls db')) /\
    (forall position_data current_user' env',
       rejected (place_position (UUIDText market_uuid) position_data current_user' env'
                   (run calls db')) (run calls db')).
Proof.
  intros Hres calls.
  apply resolve_market_Return, resolve_market_try_Return in Hres
    as (M & market & w & Hid & HM & _ & _ & _ & _ & ->).
  inversion Hid; subst M. clear Hid.
  destruct (process_market_payouts_frame market_uuid env
              (resolved market_uuid market w (rd_resolution_value resolution_data) env db))
    as (Hmk & _ & _).
  set (db1 := process_market_payouts _ _ _) in *.
  assert (Hm1 : markets db1 !! market_uuid
                = Some (set_resolved (utcnow env) (rd_resolution_value resolution_data)
                          market)).
  { rewrite Hmk. simpl. apply lookup_insert_eq. }
  destruct (run_market_status calls db1 market_uuid _ Hm1) as (m' & Hm' & _ & Hs).
  assert (Hst : m_status m' = "resolved").
  { destruct Hs as [Hs|[Hs _]]; [done|discriminate]. }
  split; [by exists m'|]. split.
  - intros rd' user' env'. apply resolve_market_needs_closed.
    intros m Hm. rewrite Hm' in Hm. inversion Hm; subst m. by rewrite Hst.
  - intros pd user' env'. apply (place_position_needs_open _ _ _ _ _ m'); [done|].
    by rewrite Hst.
Qed.

Lemma resolved_market_is_final_witness :
  exists response db',
    resolve_market (UUIDText 100) (resolution (Some (UUIDText 101))) "alice"
      (sample_env 6) db_closed = (Return response, db') /\
    rejected (resolve_market (UUIDText 100) (resolution (Some (UUIDText 102))) "alice"
                (sample_env 7) db') db' /\
    rejected (place_position (UUIDText 100) (order 101 10 2 "back") "bob"
                (sample_env 7) db') db'.
Proof.
  eexists _, _. split; [vm_compute; reflexivity|].
  destruct (resolved_market_is_final 100 (resolution (Some (UUIDText 101))) "alice"
              (sample_env 6) db_closed _ _ ltac:(vm_compute; reflexivity) [])
    as (_ & Hres & Hplace).
  split; [apply Hres|apply Hplace].
Defined.

(** X3.  [participant_count] never exceeds 1.  If every stored market counts 0 or 1 participants (as a market just created does), then after any sequence of calls every market still counts 0 or 1, however many users have placed positions on it. *)
Theorem participant_count_never_exceeds_one calls db :
  (forall id m, markets db !! id = Some m -> 0 <= participant_count m <= 1) ->
  forall id m, markets (run calls db) !! id = Some m -> 0 <= participant_count m <= 1.
Proof.
  intros Hinit.
  apply (run_markets_Forall (fun m => 0 <= participant_count m <= 1)); try done.
  intros m stk Hm _ _. simpl. case_bool_decide; lia.
Qed.

Lemma participant_count_never_exceeds_one_witness :
  exists m, markets (run sample_trades db_open) !! (100%positive : UUID) = Some m /\
            0 <= participant_count m <= 1.
Proof.
  destruct (markets (run sample_trades db_open) !! (100%positive : UUID)) as [m|] eqn:Hm;
    [|vm_compute in Hm; discriminate Hm].
  exists m. split; [reflexivity|].
  refine (participant_count_never_exceeds_one sample_trades db_open _ 100%positive m Hm).
  intros id m0 Hm0.
  assert (Hall : map_Forall (fun _ q => 0 <= participant_count q <= 1) (markets db_open)).
  { refine (bool_decide_unpack _ _). vm_compute. exact I. }
  exact (Hall id m0 Hm0).
Defined.

(** ** The volume of a market and the stakes of its positions *)











(** ** Positions along a run of calls *)

(** What a call does to a stored position: nothing, or its settlement if it is an open back position. *)
Lemma step_position c env db id p :
  market_positions db !! id = Some p ->
  market_positions (step c env db) !! id = Some p \/
  (p_status p = "open" /\ position_type p = "back" /\
   market_positions (step c env db) !! id = Some (set_settled (utcnow env) p)).
Proof.
  intros Hp. destruct c as [md user|mid pd user|mid rd user]; simpl.
  - destruct (create_market_state md user env db) as [->|(m & mk & db' & Hc & ->)];
      [by left|].
    apply create_market_commit_Return in Hc as (_ & _ & _ & _ & _ & _ & Hpos & _).
    left. by rewrite Hpos.
  - destruct (place_position_state mid pd user env db)
      as [->|(r & db' & Htry & ->)]; [by left|].
    apply place_position_try_Return in Htry
      as (M & O & market & profile & stk & od & pt & _ & _ & _ & _ & _ & _ & _ & _
          & _ & Hfresh & _ & ->).
    left. rewrite update_market_odds_eq. simpl.
    rewrite lookup_insert_ne; [done|]. intros Heq. congruence.
  - destruct (resolve_market_state mid rd user env db)
      as [->|(r & db' & Htry & ->)]; [by left|].
    apply resolve_market_try_Return in Htry
      as (M & market & w & _ & _ & _ & _ & _ & _ & ->).
    destruct (process_market_payouts_positions M env
                (resolved M market w (rd_resolution_value rd) env db))
      as [->|(wid & o & _ & ->)]; [by left|].
    rewrite lookup_fmap. simpl. rewrite Hp. simpl.
    destruct (decide _) as [(_ & _ & Hback & Hopen)|]; [by right|by left].
Qed.

(** X5.  A stored position is never deleted, and no call changes its market, outcome, user, type, stake, odds or creation time.  Its status only ever goes from open to settled, and only for a back position; a position that is not open is never modified again. *)
Theorem positions_are_final calls : forall db id p,
  market_positions db !! id = Some p ->
  exists p',
    market_positions (run calls db) !! id = Some p' /\
    p_market_id p' = p_market_id p /\ p_outcome_id p' = p_outcome_id p /\
    clerk_user_id p' = clerk_user_id p /\ position_type p' = position_type p /\
    stake p' = stake p /\ odds p' = odds p /\ p_created_at p' = p_created_at p /\
    (p_status p <> "open" -> p' = p) /\
    (p_status p' = p_status p \/
     (p_status p = "open" /\ position_type p = "back" /\ p_status p' = "settled")).
Proof.
  induction calls as [|[c env] calls IH]; intros db id p Hp.
  - exists p. repeat (split; [done|]). by left.
  - rewrite run_cons.
    destruct (step_position c env db id p Hp) as [H|(Hopen & Hback & H)].
    + by apply IH.
    + destruct (IH _ _ _ H)
        as (p' & Hp' & H1 & H2 & H3 & H4 & H5 & H6 & H7 & Hfinal & Hst).
      exists p'. simpl in *. repeat (split; [done|]).
      right. repeat (split; [done|]).
      by rewrite (Hfinal ltac:(discriminate)).
Qed.

Lemma positions_are_final_witness :
  exists p',
    market_positions
      (run [(ResolveMarket (UUIDText 100) (resolution (Some (UUIDText 101))) "alice",
             sample_env 6);
            (ResolveMarket (UUIDText 100) (resolution (Some (UUIDText 102))) "alice",
             sample_env 7)] db_closed) !! 200%positive = Some p' /\
    stake p' = 10%Q /\ p_status p' = "settled".
Proof.
  destruct (positions_are_final
    [(ResolveMarket (UUIDText 100) (resolution (Some (UUIDText 101))) "alice",
      sample_env 6);
     (ResolveMarket (UUIDText 100) (resolution (Some (UUIDText 102))) "alice",
      sample_env 7)] db_closed 200%positive
    (new_position 100 101 "alice" 1 "back" 10 2 (sample_env 2))
    ltac:(vm_compute; reflexivity))
    as (p' & Hp' & _ & _ & _ & _ & Hs & _ & _ & _ & _).
  exists p'. split; [exact Hp'|]. split; [exact Hs|].
  vm_compute in Hp'. inversion Hp'. reflexivity.
Defined.

(** ** What market creation commits *)

Lemma add_outcomes_Return market_id env texts : forall i table,
  (forall a b, uuid4 env a = uuid4 env b -> a = b) ->
  (forall j, (j < length texts)%nat -> table !! uuid4 env (S (i + j)) = None) ->
  exists table',
    add_outcomes market_id env i texts table = Return table' /\
    (forall j text, texts !! j = Some text ->
       table' !! uuid4 env (S (i + j)) = Some (new_outcome market_id (i + j) text)) /\
    (forall id, (forall j, (j < length texts)%nat -> id <> uuid4 env (S (i + j))) ->
       table' !! id = table !! id).
Proof.
  induction texts as [|text rest IH]; intros i table Hinj Hfresh; simpl.
  - exists table. split; [done|]. split; [|done]. intros j t Hj. done.
  - unfold add_row at 1.
    assert (H0 : table !! uuid4 env (S i) = None).
    { specialize (Hfresh 0%nat). rewrite Nat.add_0_r in Hfresh. apply Hfresh.
      simpl. lia. }
    rewrite H0. simpl.
    destruct (IH (S i) (<[uuid4 env (S i) := new_outcome market_id i text]> table) Hinj)
      as (table' & Hret & Hnew & Hold).
    { intros j Hj. rewrite lookup_insert_ne.
      - replace (S i + j)%nat with (i + S j)%nat by lia. apply Hfresh. simpl. lia.
      - intros Heq. apply Hinj in Heq. lia. }
    exists table'. split; [done|]. split.
    + intros [|j] t Hj; simpl in Hj.
      * inversion Hj; subst t. rewrite Nat.add_0_r.
        rewrite Hold; [apply lookup_insert_eq|].
        intros j _ Heq. apply Hinj in Heq. lia.
      * replace (i + S j)%nat with (S i + j)%nat by lia. by apply Hnew.
    + intros id Hid. rewrite Hold.
      * rewrite lookup_insert_ne; [done|]. intros <-.
        apply (Hid 0%nat); [simpl; lia|]. by rewrite Nat.add_0_r.
      * intros j Hj. replace (S i + j)%nat with (i + S j)%nat by lia.
        apply Hid. simpl. lia.
Qed.

Lemma create_market_commit_succeeds market_data current_user profile_id env db :
  user_profiles db !! current_user = Some profile_id ->
  (forall a b, uuid4 env a = uuid4 env b -> a = b) ->
  markets db !! uuid4 env 0 = None ->
  (forall j, (j < length (mc_outcomes market_data))%nat ->
     market_outcomes db !! uuid4 env (S j) = None) ->
  exists db',
    create_market_commit market_data current_user env db
      = Return (uuid4 env 0, new_market market_data current_user profile_id env, db') /\
    markets db'
      = <[uuid4 env 0 := new_market market_data current_user profile_id env]> (markets db) /\
    (forall j text, mc_outcomes market_data !! j = Some text ->
       market_outcomes db' !! uuid4 env (S j)
       = Some (new_outcome (uuid4 env 0) j text)) /\
    (forall id, (forall j, (j < length (mc_outcomes market_data))%nat ->
                           id <> uuid4 env (S j)) ->
       market_outcomes db' !! id = market_outcomes db !! id) /\
    market_positions db' = market_positions db /\
    user_profiles db' = user_profiles db.
Proof.
  intros Hp Hinj Hfresh Hout. unfold create_market_commit. rewrite Hp. simpl.
  unfold add_row. rewrite Hfresh. simpl.
  destruct (add_outcomes_Return (uuid4 env 0) env (mc_outcomes market_data) 0
              (market_outcomes db) Hinj Hout) as (table' & -> & Hnew & Hold).
  simpl. eexists. split; [done|]. simpl. done.
Qed.

Lemma sample_env_uuid4_inj k a b :
  (0 < k)%nat -> uuid4 (sample_env k) a = uuid4 (sample_env k) b -> a = b.
Proof.
  intros Hk. cbn [uuid4 sample_env]. intros H. apply Nat2Pos.inj in H; lia.
Qed.

(** X6.  What [create_market] commits.  For a caller with a profile, fresh identifiers and a reachable cache, the call returns the new market and stores it open, under the caller's name, with volume 0 and no participants, together with one outcome per text, numbered from 0 in the order given, each at odds 2.0 with nothing backed and no winner flag; no other outcome and no position is touched.  An empty list of texts gives a market without outcomes. *)
Theorem create_market_stores_market_and_outcomes market_data current_user profile_id
    env db :
  user_profiles db !! current_user = Some profile_id ->
  (forall a b, uuid4 env a = uuid4 env b -> a = b) ->
  markets db !! uuid4 env 0 = None ->
  (forall j, (j < length (mc_outcomes market_data))%nat ->
     market_outcomes db !! uuid4 env (S j) = None) ->
  redis_ok env = true ->
  exists market db',
    create_market market_data current_user env db = (Return (uuid4 env 0, market), db') /\
    markets db' = <[uuid4 env 0 := market]> (markets db) /\
    creator_clerk_id market = current_user /\ m_status market = "open" /\
    total_volume market = 0%Q /\ participant_count market = 0 /\
    (forall j text, mc_outcomes market_data !! j = Some text ->
       market_outcomes db' !! uuid4 env (S j)
       = Some {| o_market_id := uuid4 env 0; outcome_text := text;
                 outcome_value := pretty j; current_odds := 2%Q;
                 total_backed := 0%Q; is_winner := None |}) /\
    (forall id, (forall j, (j < length (mc_outcomes market_data))%nat ->
                           id <> uuid4 env (S j)) ->
       market_outcomes db' !! id = market_outcomes db !! id) /\
    market_positions db' = market_positions db.
Proof.
  intros Hp Hinj Hfresh Hout Hredis.
  destruct (create_market_commit_succeeds market_data current_user profile_id env db
              Hp Hinj Hfresh Hout) as (db' & Hc & Hmk & Hnew & Hold & Hpos & _).
  exists (new_market market_data current_user profile_id env), db'.
  unfold create_market. rewrite Hc, Hredis. done.
Qed.

Lemma create_market_stores_market_and_outcomes_witness :
  exists market db',
    create_market sample_market "alice" (sample_env 1) db_empty
      = (Return (100%positive, market), db') /\
    m_status market = "open" /\
    (current_odds <$> market_outcomes db' !! 101%positive) = Some 2%Q /\
    (outcome_text <$> market_outcomes db' !! 102%positive) = Some "no".
Proof.
  destruct (create_market_stores_market_and_outcomes sample_market "alice" 1%positive
              (sample_env 1) db_empty ltac:(reflexivity)
              ltac:(intros a b; apply sample_env_uuid4_inj; lia)
              ltac:(reflexivity) ltac:(intros; reflexivity) ltac:(reflexivity))
    as (market & db' & Hc & _ & _ & Hopen & _ & _ & Hnew & _).
  exists market, db'. split; [exact Hc|]. split; [exact Hopen|].
  split.
  - pose proof (Hnew 0%nat "yes" eq_refl : market_outcomes db' !! 101%positive = _) as H1.
    rewrite H1. reflexivity.
  - pose proof (Hnew 1%nat "no" eq_refl : market_outcomes db' !! 102%positive = _) as H2.
    rewrite H2. reflexivity.
Defined.



(** ** What a placement accepts and writes *)



Lemma odds_after_other_market market_id o :
  o_market_id o <> market_id -> odds_after market_id o = o.
Proof. intros H. unfold odds_after. by rewrite decide_False. Qed.






(** ** Resolution with an outcome of another market; settlement twice *)

Lemma declared_outcomes_other_market market_uuid winner outcomes outcome db :
  outcomes !! winner = Some outcome -> o_market_id outcome <> market_uuid ->
  market_outcomes db = declared_outcomes market_uuid (Some winner) outcomes ->
  no_winner market_uuid db /\ winning_outcomes market_uuid db = [] /\
  market_outcomes db !! winner = Some (set_is_winner true outcome).
Proof.
  intros Ho Hm Hdb.
  assert (Hnone : no_winner market_uuid db).
  { intros id o. rewrite Hdb, declared_outcomes_lookup.
    destruct (outcomes !! id) as [o0|] eqn:Ho0; [|done]. simpl.
    intros Hl Hmo. inversion Hl; subst o. clear Hl.
    destruct (decide (id = winner)) as [->|Hne].
    - rewrite Ho in Ho0. inversion Ho0; subst o0.
      rewrite decide_False in Hmo by done. done.
    - destruct (decide (o_market_id o0 = market_uuid)); [discriminate|done]. }
  split; [done|]. split.
  - unfold winning_outcomes. apply map_to_list_empty_iff, map_empty.
    intros id. apply map_lookup_filter_None. right. intros o Hl [Hmo Hw].
    by apply (Hnone id o).
  - rewrite Hdb, declared_outcomes_lookup, Ho. simpl.
    by rewrite decide_True, decide_False by done.
Qed.

(** X11.  [resolve_market] does not check that the winning outcome belongs to the market.  When the creator resolves a closed market and names an outcome of another market, the call succeeds: that outcome is flagged as winner in its own market, the resolved market has no winner, it becomes resolved, and no position is settled. *)
Theorem winner_of_another_market market_uuid market winner outcome value current_user
    env db :
  markets db !! market_uuid = Some market ->
  creator_clerk_id market = current_user ->
  m_status market = "closed" ->
  market_outcomes db !! winner = Some outcome ->
  o_market_id outcome <> market_uuid ->
  exists response db',
    resolve_market (UUIDText market_uuid)
      {| rd_winning_outcome_id := Some (UUIDText winner); rd_resolution_value := value |}
      current_user env db = (Return response, db') /\
    market_outcomes db' !! winner = Some (set_is_winner true outcome) /\
    no_winner market_uuid db' /\
    market_positions db' = market_positions db /\
    (m_status <$> markets db' !! market_uuid) = Some "resolved".
Proof.
  intros Hm Hc Hs Ho Hother.
  eexists _, _. split.
  { apply (resolve_market_succeeds market_uuid market (Some winner)); done. }
  set (db1 := resolved market_uuid market (Some winner) value env db).
  destruct (declared_outcomes_other_market market_uuid winner (market_outcomes db)
              outcome db1 Ho Hother eq_refl) as (Hnone & Hwin & Hflag).
  assert (Heq : process_market_payouts market_uuid env db1 = db1).
  { unfold process_market_payouts. by rewrite Hwin. }
  rewrite Heq. split; [done|]. split; [done|]. split; [done|].
  simpl. by rewrite lookup_insert_eq.
Qed.

Lemma winner_of_another_market_witness :
  exists response db',
    resolve_market (UUIDText 100) (resolution (Some (UUIDText 701))) "alice"
      (sample_env 8) db_two_markets = (Return response, db') /\
    (is_winner <$> market_outcomes db' !! 701%positive) = Some (Some true) /\
    no_winner 100 db' /\
    market_positions db' = market_positions db_two_markets.
Proof.
  destruct (winner_of_another_market 100 _ 701 (new_outcome 700 0 "yes") (Some "yes")
              "alice" (sample_env 8) db_two_markets
              ltac:(vm_compute; reflexivity) ltac:(reflexivity) ltac:(reflexivity)
              ltac:(vm_compute; reflexivity) ltac:(vm_compute; discriminate))
    as (response & db' & Hres & Hflag & Hnone & Hpos & _).
  exists response, db'. split; [exact Hres|].
  split; [|split; [exact Hnone|exact Hpos]].
  pose proof (Hflag : market_outcomes db' !! 701%positive = _) as H1.
  rewrite H1. reflexivity.
Defined.

Lemma winning_outcomes_ext market_id db db' :
  market_outcomes db' = market_outcomes db ->
  winning_outcomes market_id db' = winning_outcomes market_id db.
Proof. unfold winning_outcomes. by intros ->. Qed.

(** X12.  Settlement is idempotent: running [process_market_payouts] on a market a second time, at any later time, changes nothing. *)
Theorem process_market_payouts_idempotent market_id env env' db :
  process_market_payouts market_id env' (process_market_payouts market_id env db)
  = process_market_payouts market_id env db.
Proof.
  destruct (process_market_payouts_frame market_id env db) as (_ & Hout & _).
  pose proof (winning_outcomes_ext market_id _ _ Hout) as Hwin.
  unfold process_market_payouts at 1. rewrite Hwin.
  destruct (winning_outcomes market_id db) as [|[w o] [|]] eqn:E; simpl; [done| |done].
  unfold process_market_payouts. rewrite E. simpl.
  unfold set_market_positions. simpl. f_equal.
  rewrite <- map_fmap_compose. apply map_fmap_ext. intros id p _. simpl.
  destruct (decide (is_winning_position market_id w p)) as [Hw|Hn].
  - rewrite decide_False; [done|].
    unfold is_winning_position. simpl. intros (_ & _ & _ & H). discriminate.
  - by rewrite decide_False.
Qed.

(** ** The odds engine: repeated runs and the range of the odds *)

Lemma odds_after_idempotent market_id o :
  odds_after market_id (odds_after market_id o) = odds_after market_id o.
Proof.
  unfold odds_after at 1.
  rewrite odds_after_market, odds_after_total_backed.
  destruct (decide (o_market_id o = market_id)) as [Hm|Hm]; [|done].
  destruct (Qlt_le_dec 0 (total_backed o)) as [Hpos|Hle]; [|done].
  destruct (Decimal_str_round (new_odds (total_backed o)) 2) as [d|] eqn:Hd; [|done].
  unfold odds_after. rewrite decide_True by done.
  destruct (Qlt_le_dec 0 (total_backed o)) as [|Hle];
    [|exfalso; by apply (Qlt_not_le _ _ Hpos)].
  by rewrite Hd.
Qed.

(** X13.  [update_market_odds] only writes [current_odds], and only on outcomes of the market that have a positive [total_backed]; markets, positions and profiles are untouched, and running it again changes nothing. *)
Theorem update_market_odds_idempotent market_id db :
  update_market_odds market_id (update_market_odds market_id db)
  = update_market_odds market_id db /\
  markets (update_market_odds market_id db) = markets db /\
  market_positions (update_market_odds market_id db) = market_positions db /\
  user_profiles (update_market_odds market_id db) = user_profiles db /\
  forall id,
    match market_outcomes db !! id with
    | Some o =>
        exists o',
          market_outcomes (update_market_odds market_id db) !! id = Some o' /\
          o' = set_current_odds (current_odds o') o /\
          (o_market_id o <> market_id \/ ~ (0 < total_backed o)%Q -> o' = o)
    | None => market_outcomes (update_market_odds market_id db) !! id = None
    end.
Proof.
  rewrite !update_market_odds_eq.
  split; [|split; [done|split; [done|split; [done|]]]].
  - unfold set_market_outcomes. simpl. f_equal.
    rewrite <- map_fmap_compose. apply map_fmap_ext. intros id o _. simpl.
    apply odds_after_idempotent.
  - intros id. simpl. rewrite lookup_fmap.
    destruct (market_outcomes db !! id) as [o|]; [|done]. simpl.
    eexists. split; [done|]. split.
    + unfold odds_after. destruct (decide (o_market_id o = market_id)); [|by destruct o].
      destruct (Qlt_le_dec 0 (total_backed o)); [|by destruct o].
      destruct (Decimal_str_round _ _); [done|by destruct o].
    + intros [Hm|Hz].
      * by apply odds_after_other_market.
      * unfold odds_after. destruct (decide (o_market_id o = market_id)); [|done].
        destruct (Qlt_le_dec 0 (total_backed o)); [by destruct Hz|done].
Qed.

Lemma round_half_even_le_of_lt q n :
  (q < inject_Z n + (1 # 2))%Q -> round_half_even q <= n.
Proof.
  destruct q as [a b]. unfold round_half_even, Qfloor.
  cbn [Qnum Qden].
  intros H. unfold Qlt, Qplus, inject_Z in H. cbn [Qnum Qden] in H.
  pose proof (Z.div_mod a (Zpos b) ltac:(lia)) as Hdiv.
  pose proof (Z.mod_pos_bound a (Zpos b) ltac:(lia)) as Hmod.
  set (f := a / Zpos b) in *. set (r := a mod Zpos b) in *.
  assert (Hc : ((a # b) - inject_Z f ?= 1 # 2)%Q = (2 * r ?= Zpos b)).
  { unfold Qcompare, Qminus, Qplus, Qopp, inject_Z. cbn [Qnum Qden].
    f_equal; lia. }
  rewrite Hc.
  destruct (Z.compare_spec (2 * r) (Zpos b)); [destruct (Z.even f)| |]; nia.
Qed.

Lemma round_half_even_ge_of_gt q n :
  (inject_Z n - (1 # 2) < q)%Q -> n <= round_half_even q.
Proof.
  destruct q as [a b]. unfold round_half_even, Qfloor.
  cbn [Qnum Qden].
  intros H. unfold Qlt, Qminus, Qplus, Qopp, inject_Z in H. cbn [Qnum Qden] in H.
  pose proof (Z.div_mod a (Zpos b) ltac:(lia)) as Hdiv.
  pose proof (Z.mod_pos_bound a (Zpos b) ltac:(lia)) as Hmod.
  set (f := a / Zpos b) in *. set (r := a mod Zpos b) in *.
  assert (Hc : ((a # b) - inject_Z f ?= 1 # 2)%Q = (2 * r ?= Zpos b)).
  { unfold Qcompare, Qminus, Qplus, Qopp, inject_Z. cbn [Qnum Qden].
    f_equal; lia. }
  rewrite Hc.
  destruct (Z.compare_spec (2 * r) (Zpos b)); [destruct (Z.even f)| |]; nia.
Qed.

Lemma flt_between_mantissa m e :
  flt (float_of_Q 0.05) (S754_finite false m e) = true ->
  flt (S754_finite false m e) (float_of_Q 0.95) = true ->
  (e = -57 -> 7205759403792794 < Zpos m) /\ (e = -53 -> Zpos m < 8556839292003942).
Proof.
  rewrite float_0_05, float_0_95. unfold flt, SFltb, SFcompare.
  intros H1 H2. split; intros ->.
  - clear H2. rewrite Z.compare_refl in H1.
    pose proof (Pos.compare_spec 7205759403792794 m) as Hc.
    unfold Pos.compare in Hc. revert H1.
    destruct Hc as [Hc|Hc|Hc]; intros H1; try discriminate H1. exact Hc.
  - clear H1. rewrite Z.compare_refl in H2.
    pose proof (Pos.compare_spec m 8556839292003942) as Hc.
    unfold Pos.compare in Hc. revert H2.
    destruct Hc as [Hc|Hc|Hc]; intros H2; try discriminate H2. exact Hc.
Qed.

Lemma Zdiv_2_bounds x : x - 1 <= x / 2 * 2 <= x.
Proof.
  pose proof (Z.div_mod x 2 ltac:(lia)). pose proof (Z.mod_pos_bound x 2 ltac:(lia)).
  lia.
Qed.

Lemma scaled_lt a P T W c d X :
  0 < T -> P * T = W -> a * T <= X -> c * X < d * W -> c >= 0 -> c * a < d * P.
Proof.
  intros HT HP Ha Hc Hc0.
  apply (Z.mul_lt_mono_pos_r T); [done|].
  replace (d * P * T) with (d * W) by (rewrite <- HP; ring).
  replace (c * a * T) with (c * (a * T)) by ring.
  assert (c * (a * T) <= c * X) by (apply Z.mul_le_mono_nonneg_l; lia). lia.
Qed.

Lemma scaled_gt a P T W c d X :
  0 < T -> P * T = W -> X <= a * T -> d * W < c * X -> c >= 0 -> d * P < c * a.
Proof.
  intros HT HP Ha Hc Hc0.
  apply (Z.mul_lt_mono_pos_r T); [done|].
  replace (d * P * T) with (d * W) by (rewrite <- HP; ring).
  replace (c * a * T) with (c * (a * T)) by ring.
  assert (c * X <= c * (a * T)) by (apply Z.mul_le_mono_nonneg_l; lia). lia.
Qed.

(** For a probability strictly between the floats 0.05 and 0.95, the odds round to a value between 1.05 and 20.00. *)
Lemma new_odds_bounds m e :
  2 ^ 52 <= Zpos m < 2 ^ 53 -> -57 <= e <= -53 ->
  (e = -57 -> 7205759403792794 < Zpos m) ->
  (e = -53 -> Zpos m < 8556839292003942) ->
  exists k,
    Decimal_str_round (fdiv (float_of_Z 1) (S754_finite false m e)) 2
    = Some (k # 100)%Q /\ 105 <= k <= 2000.
Proof.
  intros Hm He Hlo Hhi. rewrite float_1. unfold fdiv, SFdiv.
  change (xorb false false) with false.
  destruct (SFdiv_core_binary prec emax 4503599627370496 (-52) (Zpos m) e)
    as [[q e'] l] eqn:E.
  assert (Hq : q = 2 ^ 105 / Zpos m /\ e' = -105 - e).
  { revert E. unfold SFdiv_core_binary.
    assert (Hd : Zdigits2 (Zpos m) = 53) by (apply Zdigits2_unique; [done|lia]).
    rewrite Hd. change (Zdigits2 4503599627370496) with 53.
    rewrite fexp_eq.
    replace (Z.min (Z.max (53 + -52 - (53 + e) - 53) (-1074)) (-52 - e))
      with (-105 - e) by lia.
    replace (-52 - e - (-105 - e)) with 53 by lia.
    change (Z.shiftl 4503599627370496 53) with (2 ^ 105).
    unfold Z.div.
    destruct (Z.div_eucl (2 ^ 105) (Zpos m)) as [q0 r0].
    intros H; inversion H; subst. done. }
  destruct Hq as [Hq ->].
  assert (Hqb : 4503599627370496 <= q <= 9007199254740992 /\
                (e = -57 -> q <= 5629499534213118) /\
                (e = -53 -> 4740631186705786 <= q)).
  { rewrite Hq. split; [split|split].
    - apply Z.div_le_lower_bound; [lia|].
      change (2 ^ 105) with (4503599627370496 * 2 ^ 53). nia.
    - apply Z.div_le_upper_bound; [lia|].
      change (2 ^ 105) with (2 ^ 52 * 9007199254740992). nia.
    - intros H. specialize (Hlo H).
      change 5629499534213118 with (2 ^ 105 / 7205759403792795).
      apply Z.div_le_compat_l; [done|]. lia.
    - intros H. specialize (Hhi H).
      change 4740631186705786 with (2 ^ 105 / 8556839292003941).
      apply Z.div_le_compat_l; [done|]. lia. }
  destruct Hqb as (Hq1 & Hq2 & Hq3).
  clear Hq Hm Hlo Hhi.
  destruct (binary_round_aux_spec false q (-105 - e) l ltac:(lia)) as (m2 & Hm2 & Heq).
  cbv zeta in Hm2, Heq. rewrite Heq. clear Heq E.
  set (e1 := Z.max (-105 - e) (fexp prec emax (Zdigits2 q + (-105 - e)))) in *.
  set (e3 := Z.max e1 (fexp prec emax (Zdigits2 m2 + e1))) in *.
  assert (Hdq : 53 <= Zdigits2 q <= 54).
  { split.
    - apply (Zdigits2_ge_pow q 52); [lia|]. change (2 ^ 52) with 4503599627370496. lia.
    - apply Zdigits2_lt_pow; [lia|]. change (2 ^ 54) with 18014398509481984. lia. }
  assert (He1 : e1 = -105 - e \/ e1 = -104 - e) by (unfold e1; rewrite fexp_eq; lia).
  clearbody e1.
  assert (Hm1 : exists a, (a = 0 \/ a = 1) /\ e1 = -105 - e + a /\
                  q - 2 <= m2 * 2 ^ a <= q + 2 /\
                  2251799813685248 <= m2 <= 9007199254740993).
  { destruct He1 as [-> | ->].
    - exists 0. replace (-105 - e - (-105 - e)) with 0 in Hm2 by lia.
      change (2 ^ 0) with 1 in *. rewrite Z.div_1_r in Hm2. lia.
    - exists 1. replace (-104 - e - (-105 - e)) with 1 in Hm2 by lia.
      change (2 ^ 1) with 2 in *. pose proof (Zdiv_2_bounds q). lia. }
  destruct Hm1 as (a & Ha & -> & Hm2a & Hm2b). clear Hm2 He1 Hdq.
  assert (Hdm2 : 52 <= Zdigits2 m2 <= 54).
  { split.
    - apply (Zdigits2_ge_pow m2 51); [lia|]. change (2 ^ 51) with 2251799813685248. lia.
    - apply Zdigits2_lt_pow; [lia|]. change (2 ^ 54) with 18014398509481984. lia. }
  assert (He3 : e3 = -105 - e + a \/ e3 = -105 - e + a + 1)
    by (unfold e3; rewrite fexp_eq; lia).
  clearbody e3.
  assert (Hm3 : exists b m3, (b = 0 \/ b = 1) /\ e3 = -105 - e + a + b /\
                  m2 / 2 ^ (e3 - (-105 - e + a)) = Zpos m3 /\
                  q - 4 <= Zpos m3 * 2 ^ (a + b) <= q + 2).
  { destruct He3 as [-> | ->].
    - exists 0. replace (-105 - e + a - (-105 - e + a)) with 0 by lia.
      change (2 ^ 0) with 1. rewrite Z.div_1_r.
      destruct m2 as [|m3|]; [lia| |lia]. exists m3.
      replace (a + 0) with a by lia.
      split; [by left|]. split; [lia|]. split; [done|]. lia.
    - exists 1. replace (-105 - e + a + 1 - (-105 - e + a)) with 1 by lia.
      change (2 ^ 1) with 2. pose proof (Zdiv_2_bounds m2) as Hd.
      destruct (m2 / 2) as [|m3|] eqn:E3; [lia| |lia]. exists m3.
      split; [by right|]. split; [done|]. split; [done|].
      rewrite Z.pow_add_r by lia. change (2 ^ 1) with 2.
      destruct Ha as [-> | ->]; [change (2 ^ 0) with 1 in *|change (2 ^ 1) with 2 in *];
        lia. }
  destruct Hm3 as (b & m3 & Hb & -> & -> & Hm3).
  replace (-105 - e + a + b <=? emax - prec) with true
    by (symmetry; apply Z.leb_le; unfold emax, prec; lia).
  unfold Decimal_str_round, Q_of_float.
  destruct (-105 - e + a + b) as [|p|p] eqn:Ep; [lia|lia|].
  set (v := (Zpos m3 # 2 ^ p)%Q).
  assert (Hab : 0 < 2 ^ (a + b)) by (apply Z.pow_pos_nonneg; lia).
  assert (Hpow : Zpos (2 ^ p) * 2 ^ (a + b) = 2 ^ (105 + e)).
  { rewrite Pos2Z.inj_pow. rewrite <- Z.pow_add_r by lia. f_equal. lia. }
  assert (Hcase : e = -57 \/ e = -56 \/ e = -55 \/ e = -54 \/ e = -53) by lia.
  assert (Hlow : 209 * 2 ^ (105 + e) < 200 * (q - 4)).
  { destruct Hcase as [->|[->|[->|[->| ->]]]].
    - change (2 ^ (105 + -57)) with 281474976710656. lia.
    - change (2 ^ (105 + -56)) with 562949953421312. lia.
    - change (2 ^ (105 + -55)) with 1125899906842624. lia.
    - change (2 ^ (105 + -54)) with 2251799813685248. lia.
    - change (2 ^ (105 + -53)) with 4503599627370496. specialize (Hq3 eq_refl). lia. }
  assert (Hupp : 200 * (q + 2) < 4001 * 2 ^ (105 + e)).
  { destruct Hcase as [->|[->|[->|[->| ->]]]].
    - change (2 ^ (105 + -57)) with 281474976710656. specialize (Hq2 eq_refl). lia.
    - change (2 ^ (105 + -56)) with 562949953421312. lia.
    - change (2 ^ (105 + -55)) with 1125899906842624. lia.
    - change (2 ^ (105 + -54)) with 2251799813685248. lia.
    - change (2 ^ (105 + -53)) with 4503599627370496. lia. }
  assert (Hz1 : 209 * Zpos (2 ^ p) < 200 * Zpos m3).
  { apply (scaled_gt _ _ (2 ^ (a + b)) (2 ^ (105 + e)) _ _ (q - 4)); try done; lia. }
  assert (Hz2 : 200 * Zpos m3 < 4001 * Zpos (2 ^ p)).
  { apply (scaled_lt _ _ (2 ^ (a + b)) (2 ^ (105 + e)) _ _ (q + 2)); try done; lia. }
  assert (Hk : 105 <= round_half_even (v * inject_Z (Zpos (10 ^ 2))) <= 2000).
  { split.
    - apply round_half_even_ge_of_gt.
      unfold v, Qlt, Qminus, Qplus, Qopp, Qmult, inject_Z. cbn [Qnum Qden].
      change (Zpos (10 ^ 2)) with 100. rewrite Pos.mul_1_r.
      change (Zpos (1 * 2)) with 2. lia.
    - apply round_half_even_le_of_lt.
      unfold v, Qlt, Qplus, Qmult, inject_Z. cbn [Qnum Qden].
      change (Zpos (10 ^ 2)) with 100. rewrite Pos.mul_1_r.
      change (Zpos (1 * 2)) with 2. lia. }
  assert (Hlt : (Z.abs (round_half_even (v * inject_Z (Zpos (10 ^ 2)))) <? 10 ^ 15) = true).
  { apply Z.ltb_lt. change (10 ^ 15) with 1000000000000000. lia. }
  rewrite Hlt. eexists. split; [reflexivity|done].
Qed.

(** The odds engine always lands between 1.05 and 20.00. *)
Lemma new_odds_range (backed : Decimal) :
  exists k, Decimal_str_round (new_odds backed) 2 = Some (k # 100)%Q /\ 105 <= k <= 2000.
Proof.
  unfold new_odds, implied_probability, py_min, py_max.
  set (y := fdiv (float_of_Q backed) (float_of_Z 100)).
  destruct (flt y (float_of_Q 0.95)) eqn:H1.
  - destruct (flt (float_of_Q 0.05) y) eqn:H2.
    + destruct (flt_between y H2 H1) as (m & e & Hy & He).
      rewrite Hy in H1, H2.
      destruct (flt_between_mantissa m e H2 H1) as [Hlo Hhi].
      rewrite Hy. apply new_odds_bounds; try done.
      apply (fdiv_finite_normal _ _ _ _ _ Hy). lia.
    + exists 2000. split; [vm_compute; reflexivity|lia].
  - exists 105. split; [vm_compute; reflexivity|lia].
Qed.

(** X14.  After [update_market_odds], every outcome of the market with a positive [total_backed] has odds between 1.05 and 20.00, whatever the amount backed. *)
Theorem recomputed_odds_stay_in_range market_id db id o' :
  market_outcomes (update_market_odds market_id db) !! id = Some o' ->
  o_market_id o' = market_id ->
  (0 < total_backed o')%Q ->
  (1.05 <= current_odds o' <= 20)%Q.
Proof.
  rewrite update_market_odds_eq. simpl. rewrite lookup_fmap.
  destruct (market_outcomes db !! id) as [o|]; [|done]. simpl.
  intros H Hm Hpos. inversion H; subst o'. clear H.
  rewrite odds_after_market in Hm. rewrite odds_after_total_backed in Hpos.
  destruct (odds_after_spec market_id o Hm) as (_ & Hodds & _).
  specialize (Hodds Hpos).
  destruct (new_odds_range (total_backed o)) as (k & Hk & Hrange).
  rewrite Hk in Hodds. inversion Hodds as [Hc].
  unfold Qle. simpl. lia.
Qed.

Lemma recomputed_odds_stay_in_range_witness :
  exists o',
    market_outcomes (update_market_odds 100 db_traded) !! 101%positive = Some o' /\
    (1.05 <= current_odds o' <= 20)%Q.
Proof.
  eexists. split; [vm_compute; reflexivity|].
  refine (recomputed_odds_stay_in_range 100 db_traded 101%positive _ _ _ _).
  - vm_compute. reflexivity.
  - reflexivity.
  - reflexivity.
Defined.

(** ** The order book without open positions *)

Lemma list_nil_no_elem {A : Type} (l : list A) : (forall x, x ∉ l) -> l = [].
Proof.
  destruct l as [|x l]; [done|]. intros H. exfalso. apply (H x). by left.
Qed.

Lemma orderbook_side_empty positions :
  (forall p, p ∈ positions -> position_type p <> "back") ->
  (foldl orderbook_step ([], []) positions).1 = [].
Proof.
  intros Hno. destruct (orderbook_loop positions) as [[Hb _] _].
  apply list_nil_no_elem. intros [k v] Hin.
  destruct (Hb k v Hin) as (_ & p & Hp & Hside & _).
  apply (Hno p Hp). unfold is_back in Hside. by apply bool_decide_eq_true in Hside.
Qed.

(** X15.  [get_orderbook] answers with an empty book, not with an error, whenever no open position is stored for the market and outcome it is asked about, so also for a market or an outcome that does not exist. *)
Theorem orderbook_without_open_positions_is_empty market_uuid outcome_uuid db :
  (forall id p, market_positions db !! id = Some p ->
     p_market_id p = market_uuid -> p_outcome_id p = outcome_uuid ->
     p_status p <> "open") ->
  get_orderbook (UUIDText market_uuid) (UUIDText outcome_uuid) db
  = Return {| ob_market_id := UUIDText market_uuid;
              ob_outcome_id := UUIDText outcome_uuid;
              back_orders := []; lay_orders := [] |}.
Proof.
  intros Hnone. rewrite get_orderbook_Return.
  assert (Hrows : orderbook_positions market_uuid outcome_uuid db = []).
  { unfold orderbook_positions.
    replace (orderbook_rows market_uuid outcome_uuid db) with
      (@nil (UUID * MarketPosition)); [done|].
    symmetry. apply list_nil_no_elem. intros [id p] Hin.
    destruct (orderbook_rows_spec market_uuid outcome_uuid db) as (_ & Hspec & _).
    destruct (Hspec id p Hin) as (Hp & Hm & Ho & Hs).
    by apply (Hnone id p). }
  rewrite Hrows. reflexivity.
Qed.

Lemma orderbook_without_open_positions_is_empty_witness :
  get_orderbook (UUIDText 999) (UUIDText 101) db_traded
  = Return {| ob_market_id := UUIDText 999; ob_outcome_id := UUIDText 101;
              back_orders := []; lay_orders := [] |}.
Proof.
  apply orderbook_without_open_positions_is_empty.
  intros id p Hp Hm.
  assert (Hall : map_Forall (fun _ q => p_market_id q = 100%positive)
                            (market_positions db_traded)).
  { refine (bool_decide_unpack _ _). vm_compute. exact I. }
  rewrite (Hall id p Hp) in Hm. discriminate Hm.
Defined.

(** X16.  After the creator has resolved a closed market with a winning outcome of that market, the order book of the winning outcome has no back orders left: the back positions on it are settled, and only open positions are read. *)
Theorem settled_backs_leave_the_orderbook market_uuid winner market outcome
    resolution_data current_user env db :
  markets db !! market_uuid = Some market ->
  m_status market = "closed" ->
  creator_clerk_id market = current_user ->
  rd_winning_outcome_id resolution_data = Some (UUIDText winner) ->
  market_outcomes db !! winner = Some outcome ->
  o_market_id outcome = market_uuid ->
  exists response db' book,
    resolve_market (UUIDText market_uuid) resolution_data current_user env db
      = (Return response, db') /\
    get_orderbook (UUIDText market_uuid) (UUIDText winner) db' = Return book /\
    back_orders book = [].
Proof.
  intros Hm Hclosed Hcreator Hw Ho Hom.
  destruct resolution_data as [w value]. simpl in Hw. subst w.
  eexists _, _, _. split.
  { apply (resolve_market_succeeds market_uuid market (Some winner)); done. }
  split; [apply get_orderbook_Return|]. cbn [back_orders].
  set (db1 := resolved market_uuid market (Some winner) value env db).
  destruct (declared_outcomes_one_winner market_uuid winner (market_outcomes db)
              outcome db1 Ho Hom eq_refl) as [_ Hwin].
  assert (Hpos : market_positions (process_market_payouts market_uuid env db1)
                 = (fun p => if decide (is_winning_position market_uuid winner p)
                             then set_settled (utcnow env) p else p)
                     <$> market_positions db).
  { unfold process_market_payouts. rewrite Hwin. done. }
  rewrite orderbook_side_empty; [done|].
  intros p Hin Hback.
  apply list_elem_of_fmap in Hin as ([id p0] & -> & Hin). simpl in Hback.
  destruct (orderbook_rows_spec market_uuid winner
              (process_market_payouts market_uuid env db1)) as (_ & Hspec & _).
  destruct (Hspec id p0 Hin) as (Hl & Hmk & Hout & Hopen).
  rewrite Hpos, lookup_fmap in Hl.
  destruct (market_positions db !! id) as [q|]; [|done]. simpl in Hl.
  inversion Hl as [Hq]. clear Hl.
  destruct (decide (is_winning_position market_uuid winner q)) as [Hwinning|Hnot].
  - subst p0. discriminate.
  - subst p0. apply Hnot. done.
Qed.

Lemma settled_backs_leave_the_orderbook_witness :
  exists response db' book,
    resolve_market (UUIDText 100) (resolution (Some (UUIDText 101))) "alice"
      (sample_env 6) db_closed = (Return response, db') /\
    get_orderbook (UUIDText 100) (UUIDText 101) db' = Return book /\
    back_orders book = [].
Proof.
  exact (settled_backs_leave_the_orderbook 100 101 _ _
           (resolution (Some (UUIDText 101))) "alice" (sample_env 6) db_closed
           ltac:(vm_compute; reflexivity) ltac:(reflexivity) ltac:(reflexivity)
           ltac:(reflexivity) ltac:(vm_compute; reflexivity) ltac:(reflexivity)).
Defined.

(** ** Listing the positions of a user *)

Lemma user_position_rows_spec status current_user db :
  (forall id p, (id, p) ∈ user_position_rows status current_user db <->
     market_positions db !! id = Some p /\ clerk_user_id p = current_user /\
     p_status p = status) /\
  NoDup (user_position_rows status current_user db).*1 /\
  StronglySorted (fun a b : UUID * MarketPosition => p_created_at b.2 <= p_created_at a.2)
    (user_position_rows status current_user db).
Proof.
  unfold user_position_rows.
  set (rows := map_to_list _).
  set (lt := fun a b : UUID * MarketPosition => p_created_at b.2 <? p_created_at a.2).
  split; [|split].
  - intros id p. rewrite (sorted_Permutation lt rows). unfold rows.
    rewrite elem_of_map_to_list, map_lookup_filter_Some. done.
  - rewrite (sorted_Permutation lt rows). apply NoDup_fst_map_to_list.
  - apply sorted_StronglySorted.
    + intros x y H. unfold lt in H. lia.
    + intros x y H. unfold lt in H. lia.
    + intros x y z. lia.
Qed.

Lemma position_view_Some db id p v :
  position_view db (id, p) = Some v ->
  pv_id v = id /\ pv_created_at v = p_created_at p /\ pv_status v = p_status p /\
  pv_position_type v = position_type p /\
  pv_stake v = float_of_Q (stake p) /\ pv_odds v = float_of_Q (odds p) /\
  pv_potential_payout v = float_of_Q (potential_payout p) /\
  pv_settled_at v = settled_at p /\
  exists market outcome,
    markets db !! p_market_id p = Some market /\
    market_outcomes db !! p_outcome_id p = Some outcome /\
    pv_market_id v = p_market_id p /\ pv_market_title v = title market /\
    pv_market_status v = m_status market /\
    pv_outcome_id v = p_outcome_id p /\ pv_outcome_text v = outcome_text outcome.
Proof.
  unfold position_view.
  destruct (markets db !! p_market_id p) as [market|]; [|done]. simpl.
  destruct (market_outcomes db !! p_outcome_id p) as [outcome|]; [|done]. simpl.
  intros H. inversion H; subst v. simpl. repeat (split; [done|]).
  by exists market, outcome.
Qed.

Lemma Forall2_StronglySorted {A B : Type} (P : A -> B -> Prop)
    (R : A -> A -> Prop) (R' : B -> B -> Prop) l k :
  (forall x y x' y', P x y -> P x' y' -> R x x' -> R' y y') ->
  Forall2 P l k -> StronglySorted R l -> StronglySorted R' k.
Proof.
  intros HR H. induction H as [|x y l k Hxy Hlk IH]; intros Hs; [constructor|].
  inversion Hs as [|? ? Hs' Hall]; subst. constructor; [by apply IH|].
  clear IH Hs Hs'. induction Hlk as [|x' y' l k Hxy' Hlk IH]; [constructor|].
  inversion Hall; subst. constructor; [by eapply HR|by apply IH].
Qed.

(** X17.  [get_user_positions] lists the caller's positions with the requested status and no others: every entry is built from a stored position of the caller with that status, every such position has exactly one entry, and the entries come newest first.  This holds when the market and the outcome of each of these positions are stored. *)
Theorem get_user_positions_lists_own_positions status current_user db :
  (forall id p, market_positions db !! id = Some p ->
     clerk_user_id p = current_user -> p_status p = status ->
     is_Some (markets db !! p_market_id p) /\
     is_Some (market_outcomes db !! p_outcome_id p)) ->
  exists positions,
    get_user_positions status current_user db = Return positions /\
    (forall v, v ∈ positions ->
       exists p, market_positions db !! pv_id v = Some p /\
                 clerk_user_id p = current_user /\ p_status p = status /\
                 position_view db (pv_id v, p) = Some v) /\
    (forall id p, market_positions db !! id = Some p ->
       clerk_user_id p = current_user -> p_status p = status ->
       exists v, v ∈ positions /\ pv_id v = id) /\
    NoDup (pv_id <$> positions) /\
    StronglySorted (fun a b => pv_created_at b <= pv_created_at a) positions.
Proof.
  intros Href.
  destruct (user_position_rows_spec status current_user db) as (Hrows & Hnodup & Hsorted).
  assert (Hsome : is_Some (mapM (position_view db)
                             (user_position_rows status current_user db))).
  { apply mapM_is_Some, Forall_forall. intros [id p] Hin.
    apply Hrows in Hin as (Hp & Hu & Hs).
    destruct (Href id p Hp Hu Hs) as [[market Hm] [outcome Ho]].
    simpl. rewrite Hm, Ho. simpl. by eexists. }
  destruct Hsome as [views Hviews]. exists views.
  unfold get_user_positions. rewrite Hviews. split; [done|].
  apply mapM_Some in Hviews.
  assert (Hids : (user_position_rows status current_user db).*1 = pv_id <$> views).
  { clear -Hviews. induction Hviews as [|[id p] v l k Hv _ IH]; [done|].
    rewrite !fmap_cons, IH. f_equal. simpl.
    by apply position_view_Some in Hv as (-> & _). }
  split; [|split; [|split]].
  - intros v Hv.
    apply list_elem_of_lookup in Hv as [i Hi].
    destruct (Forall2_lookup_r _ _ _ _ _ Hviews Hi) as ([id p] & Hrow & Hview).
    pose proof (position_view_Some _ _ _ _ Hview) as (Hid & _).
    apply list_elem_of_lookup_2, Hrows in Hrow as (Hp & Hu & Hs).
    exists p. by rewrite Hid.
  - intros id p Hp Hu Hs.
    assert (Hin : (id, p) ∈ user_position_rows status current_user db)
      by (by apply Hrows).
    apply list_elem_of_lookup in Hin as [i Hi].
    destruct (Forall2_lookup_l _ _ _ _ _ Hviews Hi) as (v & Hv & Hview).
    exists v. split; [by eapply list_elem_of_lookup_2|].
    by apply position_view_Some in Hview as (-> & _).
  - by rewrite <- Hids.
  - eapply Forall2_StronglySorted; [|exact Hviews|exact Hsorted].
    intros [id p] v [id' p'] v' Hv Hv' Hle. simpl in Hle.
    apply position_view_Some in Hv as (_ & -> & _).
    by apply position_view_Some in Hv' as (_ & -> & _).
Qed.

Lemma get_user_positions_lists_own_positions_witness :
  exists positions,
    get_user_positions "open" "bob" db_traded = Return positions /\
    pv_id <$> positions = [500%positive; 300%positive].
Proof.
  destruct (get_user_positions_lists_own_positions "open" "bob" db_traded)
    as (positions & Hret & _).
  - intros id p Hp _ _.
    assert (Hall : map_Forall
              (fun _ q => is_Some (markets db_traded !! p_market_id q) /\
                          is_Some (market_outcomes db_traded !! p_outcome_id q))
              (market_positions db_traded)).
    { refine (bool_decide_unpack _ _). vm_compute. exact I. }
    exact (Hall id p Hp).
  - exists positions. split; [exact Hret|].
    vm_compute in Hret. inversion Hret. reflexivity.
Defined.

(** When the market or the outcome of one of the positions is missing, the whole listing fails. *)
Lemma get_user_positions_fails_on_missing_reference status current_user db id p :
  market_positions db !! id = Some p ->
  clerk_user_id p = current_user -> p_status p = status ->
  markets db !! p_market_id p = None \/ market_outcomes db !! p_outcome_id p = None ->
  get_user_positions status current_user db
  = Raise (HTTPException 500
             (Detail "Failed to get user positions: 'NoneType' object has no attribute 'id'")).
Proof.
  intros Hp Hu Hs Hmiss.
  destruct (user_position_rows_spec status current_user db) as (Hrows & _ & _).
  unfold get_user_positions.
  destruct (mapM _ _) as [views|] eqn:Hviews; [|done]. exfalso.
  assert (Hall : Forall (is_Some ∘ position_view db)
                        (user_position_rows status current_user db)).
  { apply mapM_is_Some. by eexists. }
  rewrite Forall_forall in Hall.
  destruct (Hall (id, p)) as [v Hv]; [by apply Hrows|].
  apply position_view_Some in Hv as (_ & _ & _ & _ & _ & _ & _ & _ & m & o & Hm & Ho & _).
  destruct Hmiss; congruence.
Qed.

(** ** The registry of websocket connections *)

Lemma send_to_all_spec {M : Type} (transport : Transport) (message : M) l :
  send_to_all transport message l
  = ((fun c => (c, message)) <$> filter (fun c => delivers transport c = true) l,
     filter (fun c => delivers transport c = false) l).
Proof.
  unfold send_to_all.
  induction l as [|c l IH] using rev_ind; [done|].
  rewrite foldl_snoc, IH, !filter_app, fmap_app.
  rewrite !filter_cons, !filter_nil.
  destruct (delivers transport c) eqn:E.
  - rewrite decide_True by done. rewrite decide_False by done.
    simpl. by rewrite app_nil_r.
  - rewrite decide_False by done. rewrite decide_True by done.
    simpl. by rewrite app_nil_r.
Qed.

Lemma clean_up_cons_alive x l disconnected :
  x ∉ disconnected ->
  clean_up disconnected (x :: l) = x :: clean_up disconnected l.
Proof.
  revert l. induction disconnected as [|d ds IH]; intros l Hnot; [done|].
  assert (Hne : x <> d) by (intros ->; apply Hnot; by left).
  assert (Hds : x ∉ ds) by (intros H; apply Hnot; by right).
  unfold clean_up in *. simpl.
  destruct (decide (d ∈ l)) as [Hin|Hout].
  - rewrite decide_True by (by right).
    rewrite decide_False by done. by apply IH.
  - rewrite decide_False.
    + by apply IH.
    + intros H. apply elem_of_cons in H as [->|H]; [done|by apply Hout].
Qed.

Lemma clean_up_spec (alive : WebSocket -> bool) l :
  clean_up (filter (fun c => alive c = false) l) l
  = filter (fun c => alive c = true) l.
Proof.
  induction l as [|x l IH]; [done|].
  rewrite !filter_cons. destruct (alive x) eqn:E.
  - rewrite decide_False by done. rewrite decide_True by done.
    rewrite clean_up_cons_alive; [by rewrite IH|].
    intros H. apply list_elem_of_filter in H as [H _]. congruence.
  - rewrite decide_True by done. rewrite decide_False by done.
    unfold clean_up in *. simpl.
    rewrite decide_True by (by left). rewrite decide_True by done. apply IH.
Qed.

(** X18.  [broadcast_to_market] sends the message to every connection registered for the market on which the send goes through, once per registration and in registration order, and leaves exactly those registered; the connections on which the send raised are all removed.  The other markets are untouched, and for a market without an entry nothing is sent and nothing changes. *)
Theorem broadcast_reaches_live_connections {M : Type} (transport : Transport)
    (market_id : string) (message : M) (active_connections : Connections) :
  broadcast_to_market transport market_id message active_connections
  = match active_connections !! market_id with
    | None => ([], active_connections)
    | Some l =>
        ((fun c => (c, message)) <$> filter (fun c => delivers transport c = true) l,
         <[market_id := filter (fun c => delivers transport c = true) l]>
           active_connections)
    end.
Proof.
  unfold broadcast_to_market.
  destruct (active_connections !! market_id) as [l|]; [|done].
  by rewrite send_to_all_spec, clean_up_spec.
Qed.

(** X19.  [connect] registers the connection at the end of the market's list and touches no other market; for a connection that was not yet registered there, [disconnect] then gives back the list as it was.  The market keeps its entry: after the last connection has left, the entry holds an empty list. *)
Theorem disconnect_undoes_connect (transport : Transport) (websocket : WebSocket)
    (market_id : string) (active_connections active_connections' : Connections) :
  connect transport websocket market_id active_connections = Some active_connections' ->
  websocket ∉ default [] (active_connections !! market_id) ->
  active_connections' !! market_id
    = Some (default [] (active_connections !! market_id) ++ [websocket]) /\
  disconnect websocket market_id active_connections'
    = <[market_id := default [] (active_connections !! market_id)]> active_connections /\
  (forall other, other <> market_id ->
     active_connections' !! other = active_connections !! other).
Proof.
  unfold connect. destruct (accept transport websocket); [|discriminate..].
  intros H Hfresh. inversion H; subst active_connections'. clear H.
  assert (Hl : alter (fun l => l ++ [websocket]) market_id
                 match active_connections !! market_id with
                 | Some _ => active_connections
                 | None => <[market_id:=[]]> active_connections
                 end !! market_id
               = Some (default [] (active_connections !! market_id) ++ [websocket])).
  { destruct (active_connections !! market_id) as [l|] eqn:E; simpl.
    - by rewrite lookup_alter_eq, E.
    - by rewrite lookup_alter_eq, lookup_insert_eq. }
  split; [done|]. split.
  - unfold disconnect. rewrite Hl.
    rewrite decide_True by (apply elem_of_app; right; by left).
    assert (Hrm : forall l, websocket ∉ l -> py_remove websocket (l ++ [websocket]) = l).
    { induction l as [|y l IH]; intros Hnot; simpl.
      - by rewrite decide_True.
      - rewrite decide_False; [|intros ->; apply Hnot; by left].
        rewrite IH; [done|]. intros Hin. apply Hnot. by right. }
    rewrite Hrm by done.
    apply map_eq. intros k. destruct (decide (k = market_id)) as [->|Hne].
    + by rewrite !lookup_insert_eq.
    + rewrite !lookup_insert_ne by done. rewrite lookup_alter_ne by done.
      destruct (active_connections !! market_id); [done|].
      by rewrite lookup_insert_ne.
  - intros other Hne. rewrite lookup_alter_ne by done.
    destruct (active_connections !! market_id); [done|].
    by rewrite lookup_insert_ne.
Qed.

Lemma disconnect_undoes_connect_witness :
  exists active_connections',
    connect live_transport 7%positive "market-a" sample_connections
      = Some active_connections' /\
    active_connections' !! "market-a" = Some [3%positive; 7%positive] /\
    disconnect 7%positive "market-a" active_connections'
    = <["market-a" := [3%positive]]> sample_connections.
Proof.
  eexists. split; [reflexivity|].
  destruct (disconnect_undoes_connect live_transport 7%positive "market-a"
              sample_connections _ eq_refl) as (Hl & Hd & _).
  - vm_compute. intros H. apply list_elem_of_In in H. simpl in H.
    destruct H as [H|[]]. discriminate H.
  - split; [exact Hl|exact Hd].
Defined.

Lemma py_remove_split x l :
  x ∈ l -> exists l1 l2, l = l1 ++ x :: l2 /\ (x ∉ l1) /\ py_remove x l = l1 ++ l2.
Proof.
  induction l as [|y l IH]; intros Hin.
  - by apply elem_of_nil in Hin.
  - simpl. destruct (decide (y = x)) as [->|Hne].
    + exists [], l. split; [done|]. split; [apply not_elem_of_nil|done].
    + apply elem_of_cons in Hin as [->|Hin]; [done|].
      destruct (IH Hin) as (l1 & l2 & -> & Hnot & ->).
      exists (y :: l1), l2. split; [done|]. split; [|done].
      intros H. apply elem_of_cons in H as [->|H]; [done|by apply Hnot].
Qed.

(** X20.  [disconnect] removes one registration of the connection, the first, and keeps the others in order; it changes nothing when the market has no entry or the connection is not in its list, and it never removes the market's entry. *)
Theorem disconnect_removes_first_registration (websocket : WebSocket)
    (market_id : string) (active_connections : Connections) :
  match active_connections !! market_id with
  | Some l =>
      ((websocket ∉ l) /\
       disconnect websocket market_id active_connections = active_connections) \/
      (exists l1 l2,
         l = l1 ++ websocket :: l2 /\ (websocket ∉ l1) /\
         disconnect websocket market_id active_connections
         = <[market_id := l1 ++ l2]> active_connections)
  | None => disconnect websocket market_id active_connections = active_connections
  end.
Proof.
  unfold disconnect. destruct (active_connections !! market_id) as [l|]; [|done].
  destruct (decide (websocket ∈ l)) as [Hin|Hout]; [|by left].
  right. destruct (py_remove_split websocket l Hin) as (l1 & l2 & Hl & Hnot & ->).
  by exists l1, l2.
Qed.

Lemma connect_Some transport websocket market_id active_connections active_connections' :
  connect transport websocket market_id active_connections = Some active_connections' ->
  accept transport websocket = Done /\
  active_connections' !! market_id
    = Some (default [] (active_connections !! market_id) ++ [websocket]) /\
  (forall other, other <> market_id ->
     active_connections' !! other = active_connections !! other).
Proof.
  unfold connect. destruct (accept transport websocket); [|discriminate..].
  intros H. inversion H; subst active_connections'. clear H.
  split; [done|]. split.
  - destruct (active_connections !! market_id) as [l|] eqn:E; simpl.
    + by rewrite lookup_alter_eq, E.
    + by rewrite lookup_alter_eq, lookup_insert_eq.
  - intros other Hne. rewrite lookup_alter_ne by done.
    destruct (active_connections !! market_id); [done|].
    by rewrite lookup_insert_ne.
Qed.

Lemma receive_loop_ends transport websocket events :
  receive_raises ∈ events -> (receive_loop transport websocket events).2 = false.
Proof.
  induction events as [|[type|] events IH]; intros Hin; simpl.
  - by apply elem_of_nil in Hin.
  - apply elem_of_cons in Hin as [Hin|Hin]; [discriminate|].
    destruct (decide (type = Some "ping")); [|by apply IH].
    destruct (send_json transport websocket); [|done..].
    specialize (IH Hin).
    by destruct (receive_loop transport websocket events).
  - done.
Qed.

(** X21.  [market_websocket] does not unregister a connection whose receive loop has ended.  Once the handshake has gone through, and unless the first send raises [WebSocketDisconnect], the connection is still in the registry as [connect] left it whatever the client sends, also after [receive_json] has raised and the loop has ended, and also when the market id is malformed or the market is missing. *)
Theorem market_websocket_leaves_connection_registered transport websocket market_id
    market_uuid events db active_connections active_connections' :
  connect transport websocket market_id active_connections = Some active_connections' ->
  send_json transport websocket <> Disconnected ->
  let session :=
    market_websocket transport websocket market_id market_uuid events db
      active_connections in
  registry session = active_connections' /\
  websocket ∈ default [] (registry session !! market_id) /\
  (receive_raises ∈ events -> waiting session = false).
Proof.
  intros Hconnect Hsend session.
  destruct (connect_Some _ _ _ _ _ Hconnect) as (_ & Hl & _).
  assert (Hreg : registry session = active_connections').
  { unfold session, market_websocket. rewrite Hconnect.
    destruct (uuid_UUID market_uuid) as [id|]; [|done].
    destruct (markets db !! id) as [market|].
    - destruct (send_json transport websocket); [|done..].
      by destruct (receive_loop transport websocket events).
    - by destruct (receive_loop transport websocket events). }
  split; [done|]. split.
  - rewrite Hreg, Hl. simpl. apply elem_of_app. right. by left.
  - intros Hin. pose proof (receive_loop_ends transport websocket events Hin) as Hend.
    unfold session, market_websocket. rewrite Hconnect.
    destruct (uuid_UUID market_uuid) as [id|]; [|done].
    destruct (markets db !! id) as [market|].
    + destruct (send_json transport websocket); [|done..].
      by destruct (receive_loop transport websocket events).
    + by destruct (receive_loop transport websocket events).
Qed.

Lemma market_websocket_leaves_connection_registered_witness :
  let session :=
    market_websocket live_transport 7%positive "market-a" (UUIDText 100)
      [json_object (Some "ping"); receive_raises] db_open sample_connections in
  registry session !! "market-a" = Some [3%positive; 7%positive] /\
  waiting session = false /\
  length (sent session) = 2%nat.
Proof.
  intros session.
  destruct (market_websocket_leaves_connection_registered live_transport 7%positive
              "market-a" (UUIDText 100) [json_object (Some "ping"); receive_raises]
              db_open sample_connections _ eq_refl ltac:(discriminate))
    as (Hreg & _ & Hend).
  split; [|split].
  - unfold session. rewrite Hreg. reflexivity.
  - apply Hend. apply elem_of_cons. right. apply elem_of_cons. by left.
  - reflexivity.
Defined.

(** ** Who the caller is and what they may do *)

Lemma ClerkUser_init_Return clerk_data user_id :
  sub clerk_data = Some user_id ->
  exists user, ClerkUser_init clerk_data = Return user /\
    cu_id user = user_id /\
    public_metadata user = default no_metadata (cd_public_metadata clerk_data) /\
    kyc_level user = default 0 (md_kyc_level (public_metadata user)) /\
    can_create_markets user
      = default false (md_can_create_markets (public_metadata user)).
Proof.
  intros Hsub. unfold ClerkUser_init. rewrite Hsub. simpl. by eexists.
Qed.

(** X22.  [get_current_user] answers 401 when the token has no subject or an empty one.  Otherwise it returns a user whose id is the token's subject; the user's metadata, from which the KYC level (0 if absent) and the permission to create markets (no if absent) are read, are those the Clerk API returns, and those the token itself carries when the API call fails. *)
Theorem current_user_is_token_subject (clerk_users_get : string -> option ClerkAPIUser)
    (token_data : ClerkData) :
  match sub token_data with
  | None | Some "" =>
      get_current_user clerk_users_get token_data
      = Raise (HTTPException 401 (Detail "User ID not found in token"))
  | Some user_id =>
      exists user,
        get_current_user clerk_users_get token_data = Return user /\
        cu_id user = user_id /\
        public_metadata user
        = match clerk_users_get user_id with
          | Some user_data => default no_metadata (api_public_metadata user_data)
          | None => default no_metadata (cd_public_metadata token_data)
          end /\
        kyc_level user = default 0 (md_kyc_level (public_metadata user)) /\
        can_create_markets user
          = default false (md_can_create_markets (public_metadata user))
  end.
Proof.
  unfold get_current_user.
  destruct (sub token_data) as [[|a user_id]|] eqn:Hsub; [done| |done].
  destruct (clerk_users_get (String a user_id)) as [user_data|].
  - destruct (ClerkUser_init_Return (combined_data token_data user_data)
                (String a user_id) Hsub) as (user & -> & Hid & Hmd & Hk & Hc).
    by exists user.
  - destruct (ClerkUser_init_Return token_data (String a user_id) Hsub)
      as (user & -> & Hid & Hmd & Hk & Hc).
    by exists user.
Qed.

(** The metadata [get_current_user] trusts: what the Clerk API answers
    and, when the call fails, what the token carries. *)
Lemma get_current_user_Return clerk_users_get token_data a user_id :
  sub token_data = Some (String a user_id) ->
  exists user,
    get_current_user clerk_users_get token_data = Return user /\
    cu_id user = String a user_id /\
    public_metadata user = trusted_metadata clerk_users_get token_data /\
    kyc_level user = default 0 (md_kyc_level (public_metadata user)) /\
    can_create_markets user
      = default false (md_can_create_markets (public_metadata user)).
Proof.
  intros Hsub. unfold get_current_user, trusted_metadata. rewrite Hsub.
  destruct (clerk_users_get (String a user_id)) as [user_data|].
  - destruct (ClerkUser_init_Return (combined_data token_data user_data)
                (String a user_id) Hsub) as (user & -> & Hid & Hmd & Hk & Hc).
    by exists user.
  - destruct (ClerkUser_init_Return token_data (String a user_id) Hsub)
      as (user & -> & Hid & Hmd & Hk & Hc).
    by exists user.
Qed.

(** X23.  A request to place a position is answered 401 without a subject in the token, and 403, unwrapped, when the caller's KYC level is below 1; in both cases nothing is committed.  With a level of 1 or more the request is [place_position] called for the token's subject. *)
Theorem place_position_request_needs_kyc_level_1 clerk_users_get token_data market_id
    position_data env db :
  match sub token_data with
  | None | Some "" =>
      place_position_request clerk_users_get token_data market_id position_data env db
      = (Raise (HTTPException 401 (Detail "User ID not found in token")), db)
  | Some user_id =>
      let level :=
        default 0 (md_kyc_level (trusted_metadata clerk_users_get token_data)) in
      if level <? 1 then
        place_position_request clerk_users_get token_data market_id position_data env db
        = (Raise (HTTPException 403
                    (Detail ("KYC level 1 required. Your level: " +:+ pretty level))),
           db)
      else
        place_position_request clerk_users_get token_data market_id position_data env db
        = place_position market_id position_data user_id env db
  end.
Proof.
  destruct (sub token_data) as [[|a user_id]|] eqn:Hsub.
  - unfold place_position_request, get_current_user. by rewrite Hsub.
  - destruct (get_current_user_Return clerk_users_get token_data a user_id Hsub)
      as (user & Hu & Hid & Hmd & Hk & _).
    cbv zeta. rewrite <- Hmd, <- Hk.
    unfold place_position_request. rewrite Hu. simpl. unfold require_kyc_level.
    destruct (kyc_level user <? 1); simpl; [done|]. by rewrite Hid.
  - unfold place_position_request, get_current_user. by rewrite Hsub.
Qed.


(** ** Which function answers a request *)

Lemma route_request_Handled rs scope path e params : forall partial,
  Route.route_request rs scope path partial = Some (Route.Handled e params) ->
  exists i r,
    rs !! i = Some r /\ Route.r_endpoint r = e /\
    Route.matches r scope path = Route.FULL params /\
    forall j r', (j < i)%nat -> rs !! j = Some r' ->
                 forall params', Route.matches r' scope path <> Route.FULL params'.
Proof.
  induction rs as [|r rs IH]; intros partial; simpl.
  - destruct partial; discriminate.
  - destruct (Route.matches r scope path) as [| |params0] eqn:Hm.
    + intros H. apply IH in H as (i & r1 & Hi & He & Hf & Hbefore).
      exists (S i), r1. repeat (split; [done|]).
      intros [|j] r' Hj Hr' params'; simpl in Hr'.
      * inversion Hr'; subst r'. by rewrite Hm.
      * apply (Hbefore j); [lia|done].
    + intros H. apply IH in H as (i & r1 & Hi & He & Hf & Hbefore).
      exists (S i), r1. repeat (split; [done|]).
      intros [|j] r' Hj Hr' params'; simpl in Hr'.
      * inversion Hr'; subst r'. by rewrite Hm.
      * apply (Hbefore j); [lia|done].
    + intros H. inversion H; subst. exists 0%nat, r. repeat (split; [done|]).
      intros j r' Hj. lia.
Qed.

Lemma dispatch_Handled scope path e params :
  Route.dispatch scope path = Route.Handled e params ->
  Route.route_request Route.routes scope path false = Some (Route.Handled e params).
Proof.
  unfold Route.dispatch.
  destruct (Route.route_request Route.routes scope path false) as [a|];
    [by intros ->|].
  destruct scope; [|discriminate].
  destruct (decide _); [discriminate|]. destruct (existsb _ _); discriminate.
Qed.

Lemma match_path_literals path :
  Route.match_path [Route.Literal "api"; Route.Literal "v1"; Route.Literal "markets";
                    Route.Literal "categories"] path <> None ->
  path = ["api"; "v1"; "markets"; "categories"].
Proof.
  destruct path as [|s1 [|s2 [|s3 [|s4 [|s5 path]]]]]; simpl; try done;
    repeat (case_decide; [subst|done]); done.
Qed.

(** X25.  No request reaches [get_market_categories]: its route is registered after the route with the [market_id] parameter, which matches the same path, so GET /api/v1/markets/categories is handled by [get_market_details] with market_id = categories.  Every other function of the route table is reached by some request. *)
Theorem get_market_categories_is_unreachable :
  (forall scope path params,
     Route.dispatch scope path <> Route.Handled Route.get_market_categories params) /\
  Route.dispatch (Route.http "GET") ["api"; "v1"; "markets"; "categories"]
  = Route.Handled Route.get_market_details [("market_id", "categories")] /\
  (forall e, e <> Route.get_market_categories ->
     exists scope path params, Route.dispatch scope path = Route.Handled e params).
Proof.
  split; [|split; [reflexivity|]].
  - intros scope path params H.
    apply dispatch_Handled, route_request_Handled in H
      as (i & r & Hi & He & Hfull & Hbefore).
    assert (i = 3%nat /\ r = {| Route.r_kind := Route.http "GET";
                                Route.r_path := [Route.Literal "api"; Route.Literal "v1";
                                                 Route.Literal "markets";
                                                 Route.Literal "categories"];
                                Route.r_endpoint := Route.get_market_categories |})
      as [-> ->].
    { do 11 (destruct i as [|i]; [simpl in Hi; inversion Hi; subst r;
                                  try discriminate He; done|]).
      simpl in Hi. discriminate Hi. }
    unfold Route.matches in Hfull. cbn [Route.r_kind Route.r_path] in Hfull.
    destruct scope as [requested|]; [|discriminate].
    destruct (Route.match_path _ path) as [ps|] eqn:Hmatch; [|discriminate].
    destruct (decide (requested = "GET")) as [->|]; [|discriminate].
    assert (Hpath : path = ["api"; "v1"; "markets"; "categories"]).
    { apply match_path_literals. by rewrite Hmatch. }
    subst path.
    by apply (Hbefore 2%nat _ ltac:(lia) eq_refl [("market_id", "categories")]).
  - intros e He. destruct e; try done.
    + by exists (Route.http "GET"), ["api"; "v1"; "markets"], [].
    + by exists (Route.http "GET"), ["api"; "v1"; "markets"; "trending"], [].
    + by exists (Route.http "GET"), ["api"; "v1"; "markets"; "m"], [("market_id", "m")].
    + by exists (Route.http "POST"), ["api"; "v1"; "markets"; "create"], [].
    + by exists (Route.http "POST"), ["api"; "v1"; "markets"; "m"; "resolve"],
        [("market_id", "m")].
    + by exists (Route.http "POST"), ["api"; "v1"; "markets"; "m"; "positions"],
        [("market_id", "m")].
    + by exists (Route.http "GET"), ["api"; "v1"; "markets"; "m"; "orderbook"],
        [("market_id", "m")].
    + by exists (Route.http "GET"), ["api"; "v1"; "users"; "positions"], [].
    + by exists Route.websocket, ["ws"; "markets"; "m"], [("market_id", "m")].
    + by exists (Route.http "GET"), ["health"], [].
Qed.

Lemma get_market_categories_is_unreachable_witness :
  exists scope path params,
    Route.dispatch scope path = Route.Handled Route.get_trending_markets params.
Proof.
  destruct get_market_categories_is_unreachable as (_ & _ & Hreach).
  apply Hreach. discriminate.
Defined.

(** ** The details of a market *)

(** [get_market_details] has three answers that are not the details: a
    malformed id, a missing market, a missing creator row. *)
Lemma get_market_details_cases market_id profiles db :
  match market_id with
  | NotAUUID =>
      get_market_details market_id profiles db
      = Raise (HTTPException 400 (Detail "Invalid market ID format"))
  | UUIDText market_uuid =>
      match markets db !! market_uuid with
      | None =>
          get_market_details market_id profiles db
          = Raise (HTTPException 500
                     (FailedWith "Failed to get market details: "
                        (HTTPException 404 (Detail "Market not found"))))
      | Some market =>
          match profiles !! creator_profile_id market with
          | None =>
              get_market_details market_id profiles db
              = Raise (HTTPException 500
                         (Detail "Failed to get market details: 'NoneType' object has no attribute 'username'"))
          | Some creator =>
              exists details,
                get_market_details market_id profiles db = Return details /\
                det_id details = market_uuid /\ det_creator details = creator /\
                det_outcomes details
                = outcome_details <$> market_outcome_rows market_uuid db
          end
      end
  end.
Proof.
  unfold get_market_details, get_market_details_try.
  destruct market_id as [market_uuid|]; simpl; [|done].
  destruct (markets db !! market_uuid) as [market|]; simpl; [|done].
  destruct (profiles !! creator_profile_id market) as [creator|]; simpl; [|done].
  eexists. repeat split.
Qed.

(** X26.  [get_market_details] never answers 404.  A market that is not stored is answered with status 500, the 404 being the cause named in the detail; a malformed id is answered 400 Invalid market ID format; no other status is ever raised. *)
Theorem get_market_details_never_answers_404 market_id profiles db :
  (forall detail,
     get_market_details market_id profiles db <> Raise (HTTPException 404 detail)) /\
  (forall market_uuid, market_id = UUIDText market_uuid ->
     markets db !! market_uuid = None ->
     get_market_details market_id profiles db
     = Raise (HTTPException 500
                (FailedWith "Failed to get market details: "
                   (HTTPException 404 (Detail "Market not found"))))) /\
  (market_id = NotAUUID ->
     get_market_details market_id profiles db
     = Raise (HTTPException 400 (Detail "Invalid market ID format"))) /\
  (forall e, get_market_details market_id profiles db = Raise e ->
     exists detail, e = HTTPException 400 detail \/ e = HTTPException 500 detail).
Proof.
  pose proof (get_market_details_cases market_id profiles db) as H.
  destruct market_id as [market_uuid|].
  - destruct (markets db !! market_uuid) as [market|] eqn:Hm.
    + destruct (profiles !! creator_profile_id market) as [creator|].
      * destruct H as (details & -> & _).
        repeat split; try done. intros ? [= <-]. congruence.
      * rewrite H. repeat split; try done.
        -- intros ? [= <-]. congruence.
        -- intros e [= <-]. eauto.
    + rewrite H. repeat split; try done. intros e [= <-]. eauto.
  - rewrite H. repeat split; try done. intros e [= <-]. eauto.
Qed.

Lemma get_market_details_never_answers_404_witness :
  get_market_details (UUIDText 999) ∅ db_open
  = Raise (HTTPException 500
             (FailedWith "Failed to get market details: "
                (HTTPException 404 (Detail "Market not found")))).
Proof.
  apply (proj1 (proj2 (get_market_details_never_answers_404 (UUIDText 999) ∅ db_open))
           999%positive); [reflexivity|].
  vm_compute. reflexivity.
Defined.

(** X27.  For a stored market whose creator row is stored, [get_market_details] returns the market's own columns and creator, and lists exactly the outcomes stored for that market, each once: an outcome of another market is never listed.  Odds of zero are shown as absent, any other odds as their float. *)
Theorem get_market_details_lists_market_outcomes market_uuid market creator profiles db :
  markets db !! market_uuid = Some market ->
  profiles !! creator_profile_id market = Some creator ->
  exists details,
    get_market_details (UUIDText market_uuid) profiles db = Return details /\
    det_id details = market_uuid /\ det_title details = title market /\
    det_status details = m_status market /\
    det_total_volume details = float_of_Q (total_volume market) /\
    det_participant_count details = participant_count market /\
    det_creator details = creator /\
    (forall v, v ∈ det_outcomes details <->
       exists o, market_outcomes db !! od_id v = Some o /\
                 o_market_id o = market_uuid /\
                 v = outcome_details (od_id v, o)) /\
    NoDup (od_id <$> det_outcomes details) /\
    (forall v, v ∈ det_outcomes details ->
       forall o, market_outcomes db !! od_id v = Some o ->
         od_current_odds v
         = if Qeq_bool (current_odds o) 0 then None
           else Some (float_of_Q (current_odds o))).
Proof.
  intros Hm Hc.
  unfold get_market_details, get_market_details_try. simpl.
  rewrite Hm. simpl. rewrite Hc. simpl.
  eexists. split; [reflexivity|]. simpl. repeat (split; [done|]).
  assert (Hrows : forall id o, (id, o) ∈ market_outcome_rows market_uuid db <->
            market_outcomes db !! id = Some o /\ o_market_id o = market_uuid).
  { intros id o. unfold market_outcome_rows.
    rewrite elem_of_map_to_list, map_lookup_filter_Some. done. }
  split; [|split].
  - intros v. rewrite list_elem_of_fmap. split.
    + intros ([id o] & -> & Hin). apply Hrows in Hin as [Ho Hmk].
      exists o. simpl. done.
    + intros (o & Ho & Hmk & Hv). exists (od_id v, o). split; [done|].
      apply Hrows. done.
  - assert (Hids : od_id <$> (outcome_details <$> market_outcome_rows market_uuid db)
                   = (market_outcome_rows market_uuid db).*1).
    { rewrite <- list_fmap_compose. apply list_fmap_ext. by intros _ [id o] _. }
    rewrite Hids. apply NoDup_fst_map_to_list.
  - intros v Hin o Ho. apply list_elem_of_fmap in Hin as ([id o'] & -> & Hin).
    apply Hrows in Hin as [Ho' _]. simpl in Ho. rewrite Ho in Ho'. by injection Ho' as <-.
Qed.

Lemma get_market_details_lists_market_outcomes_witness :
  exists details,
    get_market_details (UUIDText 100) {[ 1%positive := {| username := "alice"; display_name := None |} ]} db_traded
    = Return details /\
    length (det_outcomes details) = 2%nat.
Proof.
  destruct (markets db_traded !! (100%positive : UUID)) as [market|] eqn:Hm;
    [|vm_compute in Hm; discriminate Hm].
  destruct (get_market_details_lists_market_outcomes 100%positive market
              {| username := "alice"; display_name := None |}
              {[ 1%positive := {| username := "alice"; display_name := None |} ]}
              db_traded Hm) as (details & Hd & _).
  { vm_compute in Hm. injection Hm as <-. reflexivity. }
  exists details. split; [exact Hd|].
  vm_compute in Hd. injection Hd as <-. reflexivity.
Defined.
